(** * A first-fit heap allocator with in-band block headers

    Shallow embedding of [MemoryAllocator] (memory_allocator.hpp/.cpp):
    the managed region is raw byte-addressed memory, every block header
    lives inside that memory, [size_t] arithmetic wraps modulo 2^64 and
    pointers are addresses with [0] for [nullptr].  The data layout is the
    LP64 one: [sizeof(MemoryBlock) = 32]. *)

From Stdlib Require Import ZArith List Bool Lia Permutation.
Import ListNotations.
Local Open Scope Z_scope.

(* ################################################################## *)
(** * Part I: the program and the vocabulary of its specification *)
(* ################################################################## *)

(* ================================================================== *)
(** ** Machine arithmetic *)
(* ================================================================== *)

(** [size_t] is a 64-bit unsigned integer. *)
Definition SIZE_MOD : Z := 2 ^ 64.

Definition SIZE_MAX : Z := SIZE_MOD - 1.

(** Result of an unsigned 64-bit operation. *)
Definition wrap (x : Z) : Z := x mod SIZE_MOD.

Definition MIN_BLOCK_SIZE : Z := 16.

Definition DEFAULT_HEAP_SIZE : Z := 1024 * 1024.

Definition ALIGNMENT : Z := 8.

(** [sizeof(MemoryBlock)]: [size_t size] at offset 0, [bool is_free] at
    offset 8 (padded to 16), [next] at offset 16, [prev] at offset 24. *)
Definition HEADER_SIZE : Z := 32.

Definition OFF_SIZE : Z := 0.

Definition OFF_IS_FREE : Z := 8.

Definition OFF_NEXT : Z := 16.

Definition OFF_PREV : Z := 24.

(* ================================================================== *)
(** ** Raw memory *)
(* ================================================================== *)

(** Byte-addressed memory; a cell is read modulo 256. *)
Definition mem : Type := Z -> Z.

Definition load8 (m : mem) (a : Z) : Z := m a mod 256.

Definition store8 (m : mem) (a v : Z) : mem :=
  fun x => if x =? a then v mod 256 else m x.

(** Little-endian 64-bit access. *)
Fixpoint load_le (n : nat) (m : mem) (a : Z) : Z :=
  match n with
  | O => 0
  | S k => load8 m a + 256 * load_le k m (a + 1)
  end.

Definition load64 (m : mem) (a : Z) : Z := load_le 8 m a.

Definition store64 (m : mem) (a v : Z) : mem :=
  fun x => if (a <=? x) && (x <? a + 8)
           then (v / 256 ^ (x - a)) mod 256
           else m x.

(** [std::memset(dst, c, n)] and [std::memcpy(dst, src, n)] on the flat
    memory.  The program's calls are defined only while [[dst, dst + n)]
    lies inside one object: the theorems that speak of their effect
    show, or assume, that it lies inside the block written to. *)
Definition memset (m : mem) (dst c n : Z) : mem :=
  fun x => if (dst <=? x) && (x <? dst + n) then c mod 256 else m x.

Definition memcpy (m : mem) (dst src n : Z) : mem :=
  fun x => if (dst <=? x) && (x <? dst + n) then m (src + (x - dst)) else m x.

(* ------------------------------------------------------------------ *)
(** *** Header field access ([MemoryBlock]) *)

Definition blk_size (m : mem) (b : Z) : Z := load64 m (b + OFF_SIZE).

Definition blk_is_free (m : mem) (b : Z) : bool :=
  negb (load8 m (b + OFF_IS_FREE) =? 0).

Definition blk_next (m : mem) (b : Z) : Z := load64 m (b + OFF_NEXT).

Definition blk_prev (m : mem) (b : Z) : Z := load64 m (b + OFF_PREV).

Definition set_size (m : mem) (b v : Z) : mem := store64 m (b + OFF_SIZE) v.

Definition set_is_free (m : mem) (b : Z) (f : bool) : mem :=
  store8 m (b + OFF_IS_FREE) (if f then 1 else 0).

Definition set_next (m : mem) (b v : Z) : mem := store64 m (b + OFF_NEXT) v.

Definition set_prev (m : mem) (b v : Z) : mem := store64 m (b + OFF_PREV) v.

(** [MemoryBlock::getData] and [MemoryBlock::fromData]. *)
Definition getData (b : Z) : Z := b + HEADER_SIZE.

Definition fromData (data : Z) : Z := data - HEADER_SIZE.

(* ================================================================== *)
(** ** Engine state *)
(* ================================================================== *)

Record MemoryStats : Type := mkStats {
  total_heap_size : Z;
  used_memory : Z;
  free_memory : Z;
  total_allocations : Z;
  total_frees : Z;
  block_count : Z;
  free_block_count : Z;
  coalesce_count : Z;
  split_count : Z
}.

(** The value-initialised [stats_{}]. *)
Definition zero_stats : MemoryStats := mkStats 0 0 0 0 0 0 0 0 0.

Record MemoryAllocator : Type := mkAllocator {
  heap_start_ : Z;
  heap_end_ : Z;
  heap_size_ : Z;
  free_list_ : Z;
  stats_ : MemoryStats;
  owns_memory_ : bool
}.

(** An allocator object together with the memory it points into. *)
Record State : Type := mkState {
  self : MemoryAllocator;
  memory : mem
}.

(** Lines written to [std::cerr]. *)
Inductive Diag : Type :=
| MallocOutOfMemory (requested : Z)
| FreeInvalidPointer
| FreeDoubleFree
| ReallocInvalidPointer
| CallocSizeOverflow.

(** Exceptions thrown by the constructors. *)
Inductive Exn : Type :=
| bad_alloc
| invalid_argument.

Definition with_memory (st : State) (m : mem) : State :=
  mkState (self st) m.

Definition with_stats (st : State) (s : MemoryStats) : State :=
  let a := self st in
  mkState (mkAllocator (heap_start_ a) (heap_end_ a) (heap_size_ a)
                       (free_list_ a) s (owns_memory_ a))
          (memory st).

Definition stats (st : State) : MemoryStats := stats_ (self st).

(* ================================================================== *)
(** ** Utility functions *)
(* ================================================================== *)

(** [(size + ALIGNMENT - 1) & ~(ALIGNMENT - 1)] on [size_t]. *)
Definition alignSize (size : Z) : Z :=
  Z.land (wrap (size + ALIGNMENT - 1)) (wrap (Z.lnot (ALIGNMENT - 1))).

Definition isValidPointer (a : MemoryAllocator) (ptr : Z) : bool :=
  (heap_start_ a + HEADER_SIZE <=? ptr) && (ptr <? heap_end_ a).

Fixpoint count_blocks (fuel : nat) (m : mem) (current total free_count : Z)
  : option (Z * Z) :=
  match fuel with
  | O => None
  | S fuel' =>
      if current =? 0 then Some (total, free_count)
      else
        let total := wrap (total + 1) in
        let free_count :=
          if blk_is_free m current then wrap (free_count + 1) else free_count in
        count_blocks fuel' m (blk_next m current) total free_count
  end.

Definition recalculateBlockCounts (fuel : nat) (st : State) : option State :=
  match count_blocks fuel (memory st) (free_list_ (self st)) 0 0 with
  | None => None
  | Some (total, free_count) =>
      let s := stats st in
      Some (with_stats st
              (mkStats (total_heap_size s) (used_memory s) (free_memory s)
                       (total_allocations s) (total_frees s)
                       total free_count
                       (coalesce_count s) (split_count s)))
  end.

Definition updateStatsAfterAlloc (fuel : nat) (st : State) (size : Z)
  : option State :=
  let s := stats st in
  recalculateBlockCounts fuel
    (with_stats st
       (mkStats (total_heap_size s)
                (wrap (used_memory s + size))
                (wrap (free_memory s - size))
                (wrap (total_allocations s + 1))
                (total_frees s)
                (block_count s)
                (wrap (free_block_count s - 1))
                (coalesce_count s) (split_count s))).

Definition updateStatsAfterFree (st : State) (size : Z) : State :=
  let s := stats st in
  with_stats st
    (mkStats (total_heap_size s)
             (wrap (used_memory s - size))
             (wrap (free_memory s + size))
             (total_allocations s)
             (wrap (total_frees s + 1))
             (block_count s)
             (wrap (free_block_count s + 1))
             (coalesce_count s) (split_count s)).

(** The three counters every merge touches. *)
Definition stats_after_merge (s : MemoryStats) : MemoryStats :=
  mkStats (total_heap_size s) (used_memory s) (free_memory s)
          (total_allocations s) (total_frees s)
          (wrap (block_count s - 1))
          (wrap (free_block_count s - 1))
          (wrap (coalesce_count s + 1))
          (split_count s).

Definition stats_after_split (s : MemoryStats) : MemoryStats :=
  mkStats (total_heap_size s) (used_memory s) (free_memory s)
          (total_allocations s) (total_frees s)
          (wrap (block_count s + 1))
          (wrap (free_block_count s + 1))
          (coalesce_count s)
          (wrap (split_count s + 1)).

(** The two counters [my_realloc] touches when it grows in place. *)
Definition stats_after_expand (s : MemoryStats) : MemoryStats :=
  mkStats (total_heap_size s) (used_memory s) (free_memory s)
          (total_allocations s) (total_frees s)
          (wrap (block_count s - 1))
          (wrap (free_block_count s - 1))
          (coalesce_count s)
          (split_count s).

(* ================================================================== *)
(** ** Initialisation *)
(* ================================================================== *)

Definition initializeHeap (st : State) : State :=
  let a := self st in
  let fl := heap_start_ a in
  let m1 := set_size (memory st) fl (wrap (heap_size_ a - HEADER_SIZE)) in
  let m2 := set_is_free m1 fl true in
  let m3 := set_next m2 fl 0 in
  let m4 := set_prev m3 fl 0 in
  mkState
    (mkAllocator (heap_start_ a) (heap_end_ a) (heap_size_ a) fl
       (mkStats (heap_size_ a) 0 (blk_size m4 fl) 0 0 1 1 0 0)
       (owns_memory_ a))
    m4.

Definition reset (st : State) : State := initializeHeap st.

(** [MemoryAllocator(size_t heap_size)]: [host] is what [std::malloc]
    answered, [m] the memory as the host left it. *)
Definition construct_sized (host : Z) (m : mem) (heap_size : Z) : Exn + State :=
  if host =? 0 then inl bad_alloc
  else inr (initializeHeap
              (mkState (mkAllocator host (host + heap_size) heap_size 0
                                    zero_stats true) m)).

(** [MemoryAllocator(void* memory, size_t size)]. *)
Definition construct_adopted (region : Z) (m : mem) (size : Z) : Exn + State :=
  if (region =? 0) || (size <? HEADER_SIZE + MIN_BLOCK_SIZE)
  then inl invalid_argument
  else inr (initializeHeap
              (mkState (mkAllocator region (region + size) size 0
                                    zero_stats false) m)).

(* ------------------------------------------------------------------ *)
(** *** Move operations

    Allocator objects are named by a natural number so that
    [this != &other] can be decided. *)

Definition objects : Type := nat -> MemoryAllocator.

Definition put (s : objects) (k : nat) (a : MemoryAllocator) : objects :=
  fun j => if Nat.eqb j k then a else s j.

(** What the move operations leave in [other]. *)
Definition moved_from (other : MemoryAllocator) : MemoryAllocator :=
  mkAllocator 0 0 (heap_size_ other) 0 (stats_ other) false.

(** Move constructor: the new object and the state of [other]. *)
Definition move_construct (other : MemoryAllocator)
  : MemoryAllocator * MemoryAllocator :=
  (mkAllocator (heap_start_ other) (heap_end_ other) (heap_size_ other)
               (free_list_ other) (stats_ other) (owns_memory_ other),
   moved_from other).

(** Move assignment [objs[this] = std::move(objs[other])]; also returns
    the regions handed back to [std::free]. *)
Definition move_assign (s : objects) (this other : nat) : objects * list Z :=
  if Nat.eqb this other then (s, [])
  else
    let t := s this in
    let released :=
      if owns_memory_ t && negb (heap_start_ t =? 0)
      then [heap_start_ t] else [] in
    let o := s other in
    let s1 := put s this
                (mkAllocator (heap_start_ o) (heap_end_ o) (heap_size_ o)
                             (free_list_ o) (stats_ o) (owns_memory_ o)) in
    (put s1 other (moved_from (s1 other)), released).

(* ================================================================== *)
(** ** Block management algorithms *)
(* ================================================================== *)

(** The [while (current)] loop of [findFreeBlock]; [None] when the fuel
    runs out before the walk ends. *)
Fixpoint find_from (fuel : nat) (m : mem) (current size : Z) : option Z :=
  match fuel with
  | O => None
  | S fuel' =>
      if current =? 0 then Some 0
      else if blk_is_free m current && (size <=? blk_size m current)
           then Some current
           else find_from fuel' m (blk_next m current) size
  end.

Definition findFreeBlock (fuel : nat) (st : State) (size : Z) : option Z :=
  find_from fuel (memory st) (free_list_ (self st)) size.

Definition splitBlock (st : State) (block size : Z) : State * bool :=
  let m := memory st in
  let remaining := wrap (blk_size m block - size) in
  let min_split_size := HEADER_SIZE + MIN_BLOCK_SIZE in
  if remaining <? min_split_size then (st, false)
  else
    let new_block := block + HEADER_SIZE + size in
    let m := set_size m new_block (wrap (remaining - HEADER_SIZE)) in
    let m := set_is_free m new_block true in
    let m := set_next m new_block (blk_next m block) in
    let m := set_prev m new_block block in
    let m := if blk_next m new_block =? 0 then m
             else set_prev m (blk_next m new_block) new_block in
    let m := set_size m block size in
    let m := set_next m block new_block in
    (with_stats (with_memory st m) (stats_after_split (stats st)), true).

Definition coalesceBlock (st : State) (block : Z) : State * Z :=
  (* Try to coalesce with next block *)
  let st :=
    let m := memory st in
    if negb (blk_next m block =? 0) && blk_is_free m (blk_next m block) then
      let next := blk_next m block in
      let m := set_size m block
                 (wrap (blk_size m block + wrap (HEADER_SIZE + blk_size m next))) in
      let m := set_next m block (blk_next m next) in
      let m := if blk_next m block =? 0 then m
               else set_prev m (blk_next m block) block in
      with_stats (with_memory st m) (stats_after_merge (stats st))
    else st in
  (* Try to coalesce with previous block *)
  let m := memory st in
  if negb (blk_prev m block =? 0) && blk_is_free m (blk_prev m block) then
    let prev := blk_prev m block in
    let m := set_size m prev
               (wrap (blk_size m prev + wrap (HEADER_SIZE + blk_size m block))) in
    let m := set_next m prev (blk_next m block) in
    let m := if blk_next m prev =? 0 then m
             else set_prev m (blk_next m prev) prev in
    (with_stats (with_memory st m) (stats_after_merge (stats st)), prev)
  else (st, block).

(* ================================================================== *)
(** ** Core allocation functions *)
(* ================================================================== *)

(** Each operation returns the pointer it answers, the state it leaves and
    the diagnostics it printed; [None] stands for a chain walk that did
    not finish within [fuel] steps. *)
Definition my_malloc (fuel : nat) (st : State) (size : Z)
  : option (Z * State * list Diag) :=
  if size =? 0 then Some (0, st, [])
  else
    let size := alignSize size in
    let size := if size <? MIN_BLOCK_SIZE then MIN_BLOCK_SIZE else size in
    match findFreeBlock fuel st size with
    | None => None
    | Some block =>
        if block =? 0 then Some (0, st, [MallocOutOfMemory size])
        else
          let st := fst (splitBlock st block size) in
          let st := with_memory st (set_is_free (memory st) block false) in
          match updateStatsAfterAlloc fuel st (blk_size (memory st) block) with
          | None => None
          | Some st => Some (getData block, st, [])
          end
    end.

Definition my_free (st : State) (ptr : Z) : State * list Diag :=
  if ptr =? 0 then (st, [])
  else if negb (isValidPointer (self st) ptr) then (st, [FreeInvalidPointer])
  else
    let block := fromData ptr in
    if blk_is_free (memory st) block then (st, [FreeDoubleFree])
    else
      let st := updateStatsAfterFree st (blk_size (memory st) block) in
      let st := with_memory st (set_is_free (memory st) block true) in
      (fst (coalesceBlock st block), []).

Definition my_realloc (fuel : nat) (st : State) (ptr new_size : Z)
  : option (Z * State * list Diag) :=
  if ptr =? 0 then my_malloc fuel st new_size
  else if new_size =? 0 then
    let '(st, d) := my_free st ptr in Some (0, st, d)
  else if negb (isValidPointer (self st) ptr)
  then Some (0, st, [ReallocInvalidPointer])
  else
    let m := memory st in
    let block := fromData ptr in
    let old_size := blk_size m block in
    let new_size := alignSize new_size in
    if new_size <=? old_size then Some (ptr, st, [])
    else
      (* Allocate new block and copy data *)
      let relocate :=
        match my_malloc fuel st new_size with
        | None => None
        | Some (new_ptr, st, d) =>
            if new_ptr =? 0 then Some (0, st, d)
            else
              let st := with_memory st (memcpy (memory st) new_ptr ptr old_size) in
              let '(st, d') := my_free st ptr in
              Some (new_ptr, st, d ++ d')
        end in
      (* Check if we can expand into the next block *)
      if negb (blk_next m block =? 0) && blk_is_free m (blk_next m block) then
        let combined_size :=
          wrap (wrap (old_size + HEADER_SIZE) + blk_size m (blk_next m block)) in
        if new_size <=? combined_size then
          let next := blk_next m block in
          let m := set_size m block combined_size in
          let m := set_next m block (blk_next m next) in
          let m := if blk_next m block =? 0 then m
                   else set_prev m (blk_next m block) block in
          Some (ptr, with_stats (with_memory st m) (stats_after_expand (stats st)), [])
        else relocate
      else relocate.

Definition my_calloc (fuel : nat) (st : State) (count size : Z)
  : option (Z * State * list Diag) :=
  let total_size := wrap (count * size) in
  if negb (count =? 0) && negb (total_size / count =? size)
  then Some (0, st, [CallocSizeOverflow])
  else
    match my_malloc fuel st total_size with
    | None => None
    | Some (ptr, st, d) =>
        if ptr =? 0 then Some (ptr, st, d)
        else Some (ptr, with_memory st (memset (memory st) ptr 0 total_size), d)
    end.

(* ================================================================== *)
(** ** The block chain as a list *)
(* ================================================================== *)

(** Abstract view of one block: payload size and free flag. *)
Abbreviation block := (Z * bool)%type (only parsing).

Definition header_at (m : mem) (a sz : Z) (fr : bool) (nx pv : Z) : Prop :=
  blk_size m a = sz /\ blk_is_free m a = fr /\
  blk_next m a = nx /\ blk_prev m a = pv.

(** Address of the header that starts a list of blocks laid out at [a]. *)
Definition cursor (a : Z) (bs : list block) : Z :=
  match bs with [] => 0 | _ => a end.

(** [chain m pv a bs e]: memory [m] holds, from address [a] up to [e]
    exactly, the headers of the blocks [bs], each followed by its payload,
    linked forwards and backwards; [pv] is the header before [a]. *)
Fixpoint chain (m : mem) (pv a : Z) (bs : list block) (e : Z) : Prop :=
  match bs with
  | [] => a = e
  | (sz, fr) :: rest =>
      0 < a /\
      header_at m a sz fr (cursor (a + HEADER_SIZE + sz) rest) pv /\
      chain m a (a + HEADER_SIZE + sz) rest e
  end.

(** An initial segment of a chain: every block has a successor. *)
Fixpoint seg (m : mem) (pv a : Z) (bs : list block) : Prop :=
  match bs with
  | [] => True
  | (sz, fr) :: rest =>
      0 < a /\
      header_at m a sz fr (a + HEADER_SIZE + sz) pv /\
      seg m a (a + HEADER_SIZE + sz) rest
  end.

(** Bytes covered by a list of blocks. *)
Fixpoint span (bs : list block) : Z :=
  match bs with
  | [] => 0
  | (sz, _) :: rest => HEADER_SIZE + sz + span rest
  end.

(** Header preceding the end of [bs] when [bs] starts at [a] after [pv]. *)
Fixpoint last_addr (pv a : Z) (bs : list block) : Z :=
  match bs with
  | [] => pv
  | (sz, _) :: rest => last_addr a (a + HEADER_SIZE + sz) rest
  end.

Definition is_free_block (b : block) : bool := snd b.

Definition count_free (bs : list block) : Z :=
  Z.of_nat (length (filter is_free_block bs)).

Fixpoint sum_sizes (keep : block -> bool) (bs : list block) : Z :=
  match bs with
  | [] => 0
  | b :: rest => (if keep b then fst b else 0) + sum_sizes keep rest
  end.

Definition used_sum (bs : list block) : Z :=
  sum_sizes (fun b => negb (is_free_block b)) bs.

Definition free_sum (bs : list block) : Z := sum_sizes is_free_block bs.

(** Payload addresses of the blocks in use, in chain order. *)
Fixpoint live_ptrs (a : Z) (bs : list block) : list Z :=
  match bs with
  | [] => []
  | (sz, fr) :: rest =>
      (if fr then [] else [a + HEADER_SIZE])
        ++ live_ptrs (a + HEADER_SIZE + sz) rest
  end.

(** Payload addresses of all blocks of the chain. *)
Fixpoint payloads (a : Z) (bs : list block) : list Z :=
  match bs with
  | [] => []
  | (sz, _) :: rest => (a + HEADER_SIZE) :: payloads (a + HEADER_SIZE + sz) rest
  end.

(** G5: no two neighbouring blocks are both free; [p] is the flag of the
    block before the list. *)
Fixpoint no_adjacent_free (p : bool) (bs : list block) : Prop :=
  match bs with
  | [] => True
  | (_, fr) :: rest => (p && fr = false) /\ no_adjacent_free fr rest
  end.

(** Whether a block satisfies a request of [need] bytes. *)
Definition fits (need : Z) (b : block) : bool :=
  is_free_block b && (need <=? fst b).

(** Address found by a first-fit walk over the list. *)
Fixpoint first_fit (a need : Z) (bs : list block) : Z :=
  match bs with
  | [] => 0
  | (sz, fr) :: rest =>
      if fits need (sz, fr) then a
      else first_fit (a + HEADER_SIZE + sz) need rest
  end.

(** Two memories that differ only inside [[lo, hi)]. *)
Definition same_outside (m m' : mem) (lo hi : Z) : Prop :=
  forall x, x < lo \/ hi <= x -> m' x = m x.

(* ------------------------------------------------------------------ *)
(** *** First fit on the list *)

(** [need] as [my_malloc] computes it from the request. *)
Definition request_size (size : Z) : Z :=
  if alignSize size <? MIN_BLOCK_SIZE then MIN_BLOCK_SIZE else alignSize size.

(** Modelled from the spec: "round [requested] up to a multiple of
    [ALIGNMENT]", on unbounded integers: the least multiple of
    [ALIGNMENT] that is not below [requested]. *)
Definition align_8 (requested : Z) : Z :=
  ALIGNMENT * ((requested + ALIGNMENT - 1) / ALIGNMENT).

(** Modelled from the spec: [need = max(align_8(requested),
    MIN_BLOCK_SIZE)]. *)
Definition spec_need (requested : Z) : Z :=
  Z.max (align_8 requested) MIN_BLOCK_SIZE.

(** What the chosen block becomes. *)
Definition alloc_blocks (need sz : Z) : list block :=
  if sz - need <? HEADER_SIZE + MIN_BLOCK_SIZE then [(sz, false)]
  else [(need, false); (sz - need - HEADER_SIZE, true)].

(** Counters after a successful allocation that leaves the chain [bs']
    with the chosen block being of size [got]. *)
Definition stats_after_alloc (s : MemoryStats) (split : bool) (got : Z)
  (bs' : list block) : MemoryStats :=
  mkStats (total_heap_size s)
          (wrap (used_memory s + got))
          (wrap (free_memory s - got))
          (wrap (total_allocations s + 1))
          (total_frees s)
          (Z.of_nat (length bs'))
          (count_free bs')
          (coalesce_count s)
          (if split then wrap (split_count s + 1) else split_count s).

(* ================================================================== *)
(** ** Well-formed heaps *)
(* ================================================================== *)

(** The allocator's chain starts at the region start, ends at the region
    end and is described by the non-empty list [bs]. *)
Definition heap_chain (st : State) (bs : list block) : Prop :=
  let a := self st in
  0 < heap_start_ a /\
  heap_end_ a < SIZE_MOD /\
  free_list_ a = heap_start_ a /\
  bs <> [] /\
  chain (memory st) 0 (heap_start_ a) bs (heap_end_ a).

(* ------------------------------------------------------------------ *)
(** *** Coalescing *)

(** The two halves of [coalesceBlock], named for the proofs. *)
Definition coalesce_next (st : State) (block : Z) : State :=
  let m := memory st in
  if negb (blk_next m block =? 0) && blk_is_free m (blk_next m block) then
    let next := blk_next m block in
    let m := set_size m block
               (wrap (blk_size m block + wrap (HEADER_SIZE + blk_size m next))) in
    let m := set_next m block (blk_next m next) in
    let m := if blk_next m block =? 0 then m
             else set_prev m (blk_next m block) block in
    with_stats (with_memory st m) (stats_after_merge (stats st))
  else st.

Definition coalesce_prev (st : State) (block : Z) : State * Z :=
  let m := memory st in
  if negb (blk_prev m block =? 0) && blk_is_free m (blk_prev m block) then
    let prev := blk_prev m block in
    let m := set_size m prev
               (wrap (blk_size m prev + wrap (HEADER_SIZE + blk_size m block))) in
    let m := set_next m prev (blk_next m block) in
    let m := if blk_next m prev =? 0 then m
             else set_prev m (blk_next m prev) prev in
    (with_stats (with_memory st m) (stats_after_merge (stats st)), prev)
  else (st, block).

(** Forward merge on the list: the freed block of size [sz] followed by
    [post]. *)
Definition merge_next (sz : Z) (post : list block) : Z * list block :=
  match post with
  | (s2, true) :: post' => (sz + HEADER_SIZE + s2, post')
  | _ => (sz, post)
  end.

Definition next_is_free (post : list block) : bool :=
  match post with
  | (_, true) :: _ => true
  | _ => false
  end.

(** Backward merge on the list: [pre] followed by the freed block, which
    has grown to [cur] bytes. *)
Definition merge_prev (pre : list block) (cur : Z) : list block :=
  match rev pre with
  | (s0, true) :: rp => rev rp ++ [(s0 + HEADER_SIZE + cur, true)]
  | _ => pre ++ [(cur, true)]
  end.

Definition prev_is_free (pre : list block) : bool :=
  match rev pre with
  | (_, true) :: _ => true
  | _ => false
  end.

(** The chain after freeing the block of size [sz] between [pre] and
    [post]. *)
Definition free_blocks (pre : list block) (sz : Z) (post : list block)
  : list block :=
  merge_prev pre (fst (merge_next sz post)) ++ snd (merge_next sz post).

Definition merges (pre post : list block) : nat :=
  ((if next_is_free post then 1 else 0) + (if prev_is_free pre then 1 else 0))%nat.

(* ================================================================== *)
(** ** Flags of neighbouring blocks *)
(* ================================================================== *)

(** Flag of the last block of [xs], or [p] when there is none. *)
Fixpoint last_flag (p : bool) (xs : list block) : bool :=
  match xs with
  | [] => p
  | (_, f) :: rest => last_flag f rest
  end.

(* ================================================================== *)
(** ** The heap invariant *)
(* ================================================================== *)

(** What a constructor must be given for the region to be usable. *)
Definition region_ok (a : MemoryAllocator) : Prop :=
  0 < heap_start_ a /\
  heap_end_ a = heap_start_ a + heap_size_ a /\
  heap_end_ a < SIZE_MOD /\
  HEADER_SIZE <= heap_size_ a.

(** Blocks in use are never smaller than [MIN_BLOCK_SIZE]. *)
Definition live_min (bs : list block) : Prop :=
  Forall (fun b => snd b = false -> MIN_BLOCK_SIZE <= fst b) bs.

(** The counters as the code keeps them: [free_memory] is what is left of
    the initial free block after the payloads in use, the headers created
    by splits are not charged to it. *)
Definition accounting (s : MemoryStats) (heap_size : Z) (bs : list block) : Prop :=
  total_heap_size s = heap_size /\
  used_memory s = used_sum bs /\
  used_memory s + free_memory s + HEADER_SIZE = total_heap_size s /\
  block_count s = Z.of_nat (length bs) /\
  free_block_count s = count_free bs.

Definition Inv (st : State) (bs : list block) : Prop :=
  heap_chain st bs /\
  heap_end_ (self st) = heap_start_ (self st) + heap_size_ (self st) /\
  live_min bs /\
  accounting (stats st) (heap_size_ (self st)) bs.

(* ================================================================== *)
(** ** Concrete engines used as test inputs *)
(* ================================================================== *)

(** First-order parts of an operation's result. *)
Definition result_ptr (r : option (Z * State * list Diag)) : option Z :=
  option_map (fun x => fst (fst x)) r.

Definition result_diag (r : option (Z * State * list Diag)) : option (list Diag) :=
  option_map snd r.

(** Host memory filled with [0xFF]. *)
Definition dirty_memory : mem := fun _ => 255.

(** A 4096-byte engine at address 4096 on dirty host memory. *)
Definition engine_4096 : State :=
  initializeHeap
    (mkState (mkAllocator 4096 (4096 + 4096) 4096 0 zero_stats true)
             dirty_memory).

(** The engine after [my_malloc(100)] on [engine_4096]. *)
Definition engine_one_block : State :=
  match my_malloc 3 engine_4096 100 with
  | Some (_, st, _) => st
  | None => engine_4096
  end.

(** The engine after [my_malloc(50)] on [engine_one_block]. *)
Definition engine_two_blocks : State :=
  match my_malloc 4 engine_one_block 50 with
  | Some (_, st, _) => st
  | None => engine_one_block
  end.


(* ================================================================== *)
(** ** Moved-from allocators *)
(* ================================================================== *)

Definition counters_zero (s : MemoryStats) : Prop :=
  total_heap_size s = 0 /\ used_memory s = 0 /\ free_memory s = 0 /\
  total_allocations s = 0 /\ total_frees s = 0 /\
  block_count s = 0 /\ free_block_count s = 0 /\
  coalesce_count s = 0 /\ split_count s = 0.

(** "Inert" as the specification words it. *)
Definition inert (a : MemoryAllocator) : Prop :=
  heap_start_ a = 0 /\ heap_end_ a = 0 /\ free_list_ a = 0 /\
  owns_memory_ a = false /\ counters_zero (stats_ a).

(** What the code leaves behind: null pointers, no ownership, and the
    counters and [heap_size_] of [before]. *)
Definition emptied (before after : MemoryAllocator) : Prop :=
  heap_start_ after = 0 /\ heap_end_ after = 0 /\ free_list_ after = 0 /\
  owns_memory_ after = false /\
  stats_ after = stats_ before /\ heap_size_ after = heap_size_ before.

(* ================================================================== *)
(** ** Counter drift *)
(* ================================================================== *)

(** The same engine with [block_count] and [free_block_count] off by
    [d1] and [d2]. *)
Definition drift (d1 d2 : Z) (st : State) : State :=
  let s := stats st in
  with_stats st
    (mkStats (total_heap_size s) (used_memory s) (free_memory s)
             (total_allocations s) (total_frees s)
             (wrap (block_count s + d1))
             (wrap (free_block_count s + d2))
             (coalesce_count s) (split_count s)).

(** The branch of [my_realloc] that absorbs the next block. *)
Definition grows_in_place (st : State) (ptr new_size : Z) : bool :=
  let m := memory st in
  let block := fromData ptr in
  negb (ptr =? 0) && negb (new_size =? 0) && isValidPointer (self st) ptr &&
  negb (alignSize new_size <=? blk_size m block) &&
  (negb (blk_next m block =? 0) && blk_is_free m (blk_next m block)) &&
  (alignSize new_size <=?
     wrap (wrap (blk_size m block + HEADER_SIZE) + blk_size m (blk_next m block))).

(** [engine_one_block] with both counters off by five. *)
Definition engine_drifted : State := drift 5 5 engine_one_block.

(* ================================================================== *)
(** ** The public operations *)
(* ================================================================== *)

(** The public operations as data. *)
Inductive Op : Type :=
| OpMalloc (size : Z)
| OpFree (ptr : Z)
| OpRealloc (ptr new_size : Z)
| OpCalloc (count size : Z)
| OpReset.

Definition run_op (fuel : nat) (st : State) (op : Op)
  : option (Z * State * list Diag) :=
  match op with
  | OpMalloc size => my_malloc fuel st size
  | OpFree ptr => let '(st', d) := my_free st ptr in Some (0, st', d)
  | OpRealloc ptr new_size => my_realloc fuel st ptr new_size
  | OpCalloc count size => my_calloc fuel st count size
  | OpReset => Some (0, reset st, [])
  end.

(** What the caller owes: pointers given back are null, out of range or
    payload addresses of blocks of the chain (of blocks in use for
    [my_realloc]); [my_calloc] totals leave room for the alignment; and
    [my_realloc] does not take its grow-in-place branch. *)
Definition caller_ok (st : State) (bs : list block) (op : Op) : Prop :=
  match op with
  | OpMalloc _ => True
  | OpFree ptr =>
      ptr = 0 \/ isValidPointer (self st) ptr = false \/
      In ptr (payloads (heap_start_ (self st)) bs)
  | OpRealloc ptr new_size =>
      (ptr = 0 \/ isValidPointer (self st) ptr = false \/
       In ptr (live_ptrs (heap_start_ (self st)) bs)) /\
      grows_in_place st ptr new_size = false
  | OpCalloc count size => wrap (count * size) <= SIZE_MAX - 7
  | OpReset => True
  end.

(** G6 as the specification words it. *)
Definition G6 (s : MemoryStats) (bs : list block) : Prop :=
  used_memory s = used_sum bs /\
  free_memory s = free_sum bs /\
  block_count s = Z.of_nat (length bs) /\
  free_block_count s = count_free bs /\
  used_memory s + free_memory s + block_count s * HEADER_SIZE = total_heap_size s.

(* ================================================================== *)
(** ** Sequences of calls *)
(* ================================================================== *)

(** [my_malloc] for each size in turn; the pointers returned, in order. *)
Fixpoint alloc_all (fuel : nat) (st : State) (sizes : list Z)
  : option (list Z * State) :=
  match sizes with
  | [] => Some ([], st)
  | n :: rest =>
      match my_malloc fuel st n with
      | None => None
      | Some (p, st1, _) =>
          match alloc_all fuel st1 rest with
          | None => None
          | Some (ps, st2) => Some (p :: ps, st2)
          end
      end
  end.

(** [my_free] for each pointer in turn. *)
Fixpoint free_all (st : State) (ptrs : list Z) : State :=
  match ptrs with
  | [] => st
  | p :: rest => free_all (fst (my_free st p)) rest
  end.

(* ================================================================== *)
(** ** Sizes and activity *)
(* ================================================================== *)

(** G3 and G4 on the list: every size is a multiple of [ALIGNMENT] and at
    least [MIN_BLOCK_SIZE]. *)
Definition well_sized (bs : list block) : Prop :=
  Forall (fun b => fst b mod ALIGNMENT = 0 /\ MIN_BLOCK_SIZE <= fst b) bs.

(** The figure [printStats] prints as "Active Allocations". *)
Definition active_allocations (s : MemoryStats) : Z :=
  wrap (total_allocations s - total_frees s).

(* ================================================================== *)
(** ** Header bytes *)
(* ================================================================== *)

(** Two memories that differ only on the addresses in [P]. *)
Definition same_off (P : Z -> Prop) (m m' : mem) : Prop :=
  forall x, ~ P x -> m' x = m x.

(** The size, next and prev fields of the headers of a chain laid out at
    [a]: every header byte but the flag and its padding. *)
Fixpoint in_links (a : Z) (bs : list (Z * bool)) (x : Z) : Prop :=
  match bs with
  | [] => False
  | (sz, _) :: rest =>
      (a <= x < a + OFF_IS_FREE \/ a + OFF_NEXT <= x < a + HEADER_SIZE) \/
      in_links (a + HEADER_SIZE + sz) rest x
  end.

(** The header bytes of a chain laid out at [a]. *)
Fixpoint in_headers (a : Z) (bs : list (Z * bool)) (x : Z) : Prop :=
  match bs with
  | [] => False
  | (sz, _) :: rest =>
      a <= x < a + HEADER_SIZE \/ in_headers (a + HEADER_SIZE + sz) rest x
  end.

(* ================================================================== *)
(** ** Destruction *)
(* ================================================================== *)

(** [~MemoryAllocator]: the regions handed back to [std::free].  The
    object's lifetime ends with the call, so the null pointers stored in
    it afterwards are not part of the model. *)
Definition destroy (a : MemoryAllocator) : list Z :=
  if owns_memory_ a && negb (heap_start_ a =? 0) then [heap_start_ a] else [].

(** The fields that say where the region is and whose it is. *)
Definition region_of (a : MemoryAllocator) : Z * Z * Z * Z * bool :=
  (heap_start_ a, heap_end_ a, heap_size_ a, free_list_ a, owns_memory_ a).

(* ================================================================== *)
(** ** The heap table *)
(* ================================================================== *)

(** Largest [int]: [block_num] of [printHeapLayout] is an [int]. *)
Definition INT_MAX : Z := 2 ^ 31 - 1.

(** One line of the table [printHeapLayout] prints: the offset of the
    header from [heap_start_], the payload size, the flag and the block
    number. *)
Record LayoutRow : Type := mkRow {
  row_offset : Z;
  row_size : Z;
  row_free : bool;
  row_num : Z
}.

(** The [while (current)] loop of [printHeapLayout]; [None] when the fuel
    runs out or [block_num++] would leave the range of [int]. *)
Fixpoint layout_rows (fuel : nat) (m : mem) (heap_start current block_num : Z)
  : option (list LayoutRow) :=
  match fuel with
  | O => None
  | S fuel' =>
      if current =? 0 then Some []
      else if INT_MAX <=? block_num then None
      else
        match layout_rows fuel' m heap_start (blk_next m current) (block_num + 1) with
        | None => None
        | Some rows =>
            Some (mkRow (wrap (current - heap_start)) (blk_size m current)
                        (blk_is_free m current) block_num :: rows)
        end
  end.

Definition printHeapLayout (fuel : nat) (st : State) : option (list LayoutRow) :=
  layout_rows fuel (memory st) (heap_start_ (self st)) (free_list_ (self st)) 0.

(** The table of a list of blocks that starts at offset [off] with
    number [num]. *)
Fixpoint layout_of (off num : Z) (bs : list (Z * bool)) : list LayoutRow :=
  match bs with
  | [] => []
  | (sz, fr) :: rest =>
      mkRow off sz fr num :: layout_of (off + HEADER_SIZE + sz) (num + 1) rest
  end.

(* ================================================================== *)
(** ** The global facade *)
(* ================================================================== *)

(** The global [g_allocator]: null, pointing to a live engine, or still
    holding the address of an engine that has been deleted. *)
Inductive Global : Type :=
| GNull
| GLive (st : State)
| GDangling.

(** [initGlobalAllocator(heap_size)]: [host] and [m] are what
    [std::malloc] answers for the new region and the memory as it leaves
    it (an [operator new] that cannot place the object throws the same
    [bad_alloc] as a null answer, before the global is assigned).  The
    result is the exception thrown, if any, the global and the regions
    handed back to [std::free]; [None] stands for a [delete] through a
    dangling pointer. *)
Definition initGlobalAllocator (g : Global) (host : Z) (m : mem) (heap_size : Z)
  : option (option Exn * Global * list Z) :=
  match g with
  | GDangling => None
  | _ =>
      let released :=
        match g with GLive st => destroy (self st) | _ => [] end in
      let deleted := match g with GLive _ => GDangling | _ => g end in
      match construct_sized host m heap_size with
      | inl e => Some (Some e, deleted, released)
      | inr st => Some (None, GLive st, released)
      end
  end.

Definition destroyGlobalAllocator (g : Global) : option (Global * list Z) :=
  match g with
  | GNull => Some (GNull, [])
  | GLive st => Some (GNull, destroy (self st))
  | GDangling => None
  end.

(** The body shared by [custom_malloc], [custom_realloc] and
    [custom_calloc]: build the default engine when there is none, then
    call the member function. *)
Definition with_global (g : Global) (host : Z) (m : mem)
  (call : State -> option (Z * State * list Diag))
  : option (Global * (Exn + Z * list Diag)) :=
  let started :=
    match g with
    | GNull =>
        match initGlobalAllocator g host m DEFAULT_HEAP_SIZE with
        | Some (e, g', _) => Some (e, g')
        | None => None
        end
    | _ => Some (None, g)
    end in
  match started with
  | Some (Some e, g') => Some (g', inl e)
  | Some (None, GLive st) =>
      match call st with
      | Some (p, st', d) => Some (GLive st', inr (p, d))
      | None => None
      end
  | _ => None
  end.

Definition custom_malloc (fuel : nat) (g : Global) (host : Z) (m : mem) (size : Z) :=
  with_global g host m (fun st => my_malloc fuel st size).

Definition custom_realloc (fuel : nat) (g : Global) (host : Z) (m : mem) (ptr size : Z) :=
  with_global g host m (fun st => my_realloc fuel st ptr size).

Definition custom_calloc (fuel : nat) (g : Global) (host : Z) (m : mem) (count size : Z) :=
  with_global g host m (fun st => my_calloc fuel st count size).

Definition custom_free (g : Global) (ptr : Z) : option (Global * list Diag) :=
  match g with
  | GNull => Some (GNull, [])
  | GLive st => Some (GLive (fst (my_free st ptr)), snd (my_free st ptr))
  | GDangling => None
  end.

(* ================================================================== *)
(** ** Balance of the counters *)
(* ================================================================== *)


(* ################################################################## *)
(** * Part II: lemmas and theorems *)
(* ################################################################## *)

(* ================================================================== *)
(** ** Memory lemmas *)
(* ================================================================== *)

Lemma load8_range m a : 0 <= load8 m a < 256.
Proof. unfold load8. apply Z.mod_pos_bound. lia. Qed.

Lemma load_le_range n m a : 0 <= load_le n m a < 256 ^ Z.of_nat n.
Proof.
  revert a. induction n as [|n IH]; intro a.
  - simpl. lia.
  - rewrite Nat2Z.inj_succ, Z.pow_succ_r by lia.
    cbn [load_le]. pose proof (load8_range m a). specialize (IH (a + 1)). lia.
Qed.

Lemma load64_range m a : 0 <= load64 m a < SIZE_MOD.
Proof. apply (load_le_range 8). Qed.

Lemma load_le_ext n m m' a :
  (forall x, a <= x < a + Z.of_nat n -> m' x = m x) ->
  load_le n m' a = load_le n m a.
Proof.
  revert a. induction n as [|n IH]; intros a H; [reflexivity|].
  cbn [load_le]. unfold load8. rewrite H by lia.
  rewrite IH; [reflexivity|]. intros x Hx. apply H. lia.
Qed.

Lemma load64_ext m m' a :
  (forall x, a <= x < a + 8 -> m' x = m x) -> load64 m' a = load64 m a.
Proof. intro H. apply (load_le_ext 8). exact H. Qed.

Lemma load8_ext m m' a : m' a = m a -> load8 m' a = load8 m a.
Proof. unfold load8. intros ->. reflexivity. Qed.

Lemma load_le_store n m a v k :
  0 <= k ->
  load_le n (store64 m a v) (a + k) =
  load_le n (fun x => (v / 256 ^ (x - a)) mod 256) (a + k) \/
  8 < k + Z.of_nat n.
Proof.
  intros Hk. destruct (Z_le_gt_dec (k + Z.of_nat n) 8) as [Hle|Hgt]; [left|right; lia].
  apply load_le_ext. intros x Hx. unfold store64.
  replace ((a <=? x) && (x <? a + 8)) with true; [reflexivity|].
  symmetry. apply andb_true_iff. split; [apply Z.leb_le | apply Z.ltb_lt]; lia.
Qed.

Lemma load_le_digits n v a k :
  0 <= k ->
  load_le n (fun x => (v / 256 ^ (x - a)) mod 256) (a + k) =
  (v / 256 ^ k) mod 256 ^ Z.of_nat n.
Proof.
  revert k. induction n as [|n IH]; intros k Hk.
  - simpl. rewrite Z.mod_1_r. reflexivity.
  - cbn [load_le]. unfold load8.
    replace (a + k - a) with k by lia.
    rewrite Z.mod_mod by lia.
    replace (a + k + 1) with (a + (k + 1)) by lia.
    rewrite IH by lia.
    rewrite Nat2Z.inj_succ, Z.pow_succ_r by lia.
    rewrite Z.rem_mul_r by lia.
    rewrite Z.pow_add_r, Z.pow_1_r by lia.
    rewrite Z.div_div by lia. reflexivity.
Qed.

Lemma load64_store64_same m a v : load64 (store64 m a v) a = wrap v.
Proof.
  unfold load64. replace a with (a + 0) at 2 by lia.
  destruct (load_le_store 8 m a v 0) as [H|H]; [lia| |lia].
  rewrite H, load_le_digits by lia.
  rewrite Z.pow_0_r, Z.div_1_r. reflexivity.
Qed.

Lemma load64_store64_other m a b v :
  b + 8 <= a \/ a + 8 <= b -> load64 (store64 m a v) b = load64 m b.
Proof.
  intro H. apply load64_ext. intros x Hx. unfold store64.
  replace ((a <=? x) && (x <? a + 8)) with false; [reflexivity|].
  symmetry. apply andb_false_iff.
  destruct H; [left; apply Z.leb_gt | right; apply Z.ltb_ge]; lia.
Qed.

Lemma load8_store64_other m a b v :
  b < a \/ a + 8 <= b -> load8 (store64 m a v) b = load8 m b.
Proof.
  intro H. apply load8_ext. unfold store64.
  replace ((a <=? b) && (b <? a + 8)) with false; [reflexivity|].
  symmetry. apply andb_false_iff.
  destruct H; [left; apply Z.leb_gt | right; apply Z.ltb_ge]; lia.
Qed.

Lemma load8_store8_same m a v : load8 (store8 m a v) a = v mod 256.
Proof. unfold load8, store8. rewrite Z.eqb_refl. apply Z.mod_mod. lia. Qed.

Lemma load8_store8_other m a b v : a <> b -> load8 (store8 m a v) b = load8 m b.
Proof.
  intro H. apply load8_ext. unfold store8.
  destruct (Z.eqb_spec b a); [congruence | reflexivity].
Qed.

Lemma load64_store8_other m a b v :
  a < b \/ b + 8 <= a -> load64 (store8 m a v) b = load64 m b.
Proof.
  intro H. apply load64_ext. intros x Hx. unfold store8.
  destruct (Z.eqb_spec x a); [lia | reflexivity].
Qed.

(* ------------------------------------------------------------------ *)
(** *** Basic facts *)

Lemma wrap_small x : 0 <= x < SIZE_MOD -> wrap x = x.
Proof. intro H. unfold wrap. apply Z.mod_small. exact H. Qed.

Lemma wrap_range x : 0 <= wrap x < SIZE_MOD.
Proof. unfold wrap. apply Z.mod_pos_bound. reflexivity. Qed.

Lemma blk_size_range m a : 0 <= blk_size m a < SIZE_MOD.
Proof. apply load64_range. Qed.

Lemma span_app xs ys : span (xs ++ ys) = span xs + span ys.
Proof.
  induction xs as [|[sz fr] xs IH]; cbn [app span]; [reflexivity | rewrite IH; lia].
Qed.

Lemma header_at_frame m m' a sz fr nx pv lo hi :
  header_at m a sz fr nx pv ->
  same_outside m m' lo hi ->
  a + HEADER_SIZE <= lo \/ hi <= a ->
  header_at m' a sz fr nx pv.
Proof.
  unfold header_at, blk_size, blk_is_free, blk_next, blk_prev, same_outside,
    HEADER_SIZE, OFF_SIZE, OFF_IS_FREE, OFF_NEXT, OFF_PREV.
  intros (H1 & H2 & H3 & H4) Hs Hd.
  rewrite <- H1, <- H2, <- H3, <- H4.
  repeat split.
  - apply load64_ext. intros. apply Hs. lia.
  - f_equal. f_equal. apply load8_ext. apply Hs. lia.
  - apply load64_ext. intros. apply Hs. lia.
  - apply load64_ext. intros. apply Hs. lia.
Qed.

Lemma chain_sizes m pv a bs e :
  chain m pv a bs e -> Forall (fun b => 0 <= fst b < SIZE_MOD) bs.
Proof.
  revert pv a. induction bs as [|[sz fr] bs IH]; intros pv a H; [constructor|].
  destruct H as (_ & (Hs & _) & Hc). constructor.
  - simpl. rewrite <- Hs. apply blk_size_range.
  - eapply IH; eauto.
Qed.

Lemma seg_sizes m pv a bs :
  seg m pv a bs -> Forall (fun b => 0 <= fst b < SIZE_MOD) bs.
Proof.
  revert pv a. induction bs as [|[sz fr] bs IH]; intros pv a H; [constructor|].
  destruct H as (_ & (Hs & _) & Hc). constructor.
  - simpl. rewrite <- Hs. apply blk_size_range.
  - eapply IH; eauto.
Qed.

Lemma span_nonneg bs :
  Forall (fun b => 0 <= fst b < SIZE_MOD) bs -> 0 <= span bs.
Proof.
  induction 1 as [|[sz fr] bs H _ IH]; cbn [span fst] in *; unfold HEADER_SIZE; lia.
Qed.

Lemma span_length bs :
  Forall (fun b => 0 <= fst b < SIZE_MOD) bs ->
  HEADER_SIZE * Z.of_nat (length bs) <= span bs.
Proof.
  induction 1 as [|[sz fr] bs H _ IH]; [simpl; lia|].
  cbn [length span]. rewrite Nat2Z.inj_succ. cbn [fst] in H.
  unfold HEADER_SIZE in *. lia.
Qed.

Lemma chain_end m pv a bs e : chain m pv a bs e -> e = a + span bs.
Proof.
  revert pv a. induction bs as [|[sz fr] bs IH]; intros pv a H; cbn [chain span] in *.
  - lia.
  - destruct H as (_ & _ & Hc). apply IH in Hc. lia.
Qed.

Lemma chain_frame m m' pv a bs e lo hi :
  chain m pv a bs e ->
  same_outside m m' lo hi ->
  e <= lo \/ hi <= a ->
  chain m' pv a bs e.
Proof.
  revert pv a. induction bs as [|[sz fr] bs IH]; intros pv a H Hs Hd; [exact H|].
  pose proof (chain_sizes _ _ _ _ _ H) as Hsz. inversion Hsz as [|? ? Hz Hszr]; subst.
  destruct H as (Ha & Hh & Hc). cbn [fst] in Hz.
  pose proof (chain_end _ _ _ _ _ Hc) as He.
  pose proof (span_nonneg _ Hszr) as Hn.
  split; [exact Ha|]. split.
  - apply (header_at_frame m m' a sz fr _ pv lo hi Hh Hs).
    unfold HEADER_SIZE in *. lia.
  - apply IH; auto. unfold HEADER_SIZE in *. lia.
Qed.

Lemma seg_frame m m' pv a bs lo hi :
  seg m pv a bs ->
  same_outside m m' lo hi ->
  a + span bs <= lo \/ hi <= a ->
  seg m' pv a bs.
Proof.
  revert pv a. induction bs as [|[sz fr] bs IH]; intros pv a H Hs Hd; [exact I|].
  pose proof (seg_sizes _ _ _ _ H) as Hsz. inversion Hsz as [|? ? Hz Hszr]; subst.
  destruct H as (Ha & Hh & Hc). cbn [fst span] in Hz, Hd.
  pose proof (span_nonneg _ Hszr) as Hn.
  split; [exact Ha|]. split.
  - apply (header_at_frame m m' a sz fr _ pv lo hi Hh Hs).
    unfold HEADER_SIZE in *. lia.
  - apply IH; auto. unfold HEADER_SIZE in *. lia.
Qed.

Lemma cursor_app a xs ys : ys <> [] -> cursor a (xs ++ ys) = a.
Proof. intro H. destruct xs; simpl; [destruct ys; [congruence|reflexivity] | reflexivity]. Qed.

Lemma chain_app m pv a pre rest e :
  rest <> [] ->
  chain m pv a (pre ++ rest) e <->
  seg m pv a pre /\ chain m (last_addr pv a pre) (a + span pre) rest e.
Proof.
  intro Hr. revert pv a. induction pre as [|[sz fr] pre IH]; intros pv a.
  - simpl. rewrite Z.add_0_r. tauto.
  - cbn [app chain seg last_addr span].
    rewrite cursor_app by exact Hr. rewrite IH.
    replace (a + HEADER_SIZE + sz + span pre) with (a + (HEADER_SIZE + sz + span pre)) by lia.
    tauto.
Qed.

(* ------------------------------------------------------------------ *)
(** *** Reading back what was written *)

Lemma load64_store64_eq m a b v : a = b -> load64 (store64 m a v) b = wrap v.
Proof. intros <-. apply load64_store64_same. Qed.

Lemma load8_store8_eq m a b v : a = b -> load8 (store8 m a v) b = v mod 256.
Proof. intros <-. apply load8_store8_same. Qed.

(** Peels writes off a read, innermost reads first. *)
Ltac mem_step :=
  match goal with
  | |- context [load64 (store64 ?m ?a ?v) ?b] =>
      first [ rewrite (load64_store64_eq m a b v) by lia
            | rewrite (load64_store64_other m a b v) by lia ]
  | |- context [load64 (store8 ?m ?a ?v) ?b] =>
      rewrite (load64_store8_other m a b v) by lia
  | |- context [load8 (store8 ?m ?a ?v) ?b] =>
      first [ rewrite (load8_store8_eq m a b v) by lia
            | rewrite (load8_store8_other m a b v) by lia ]
  | |- context [load8 (store64 ?m ?a ?v) ?b] =>
      rewrite (load8_store64_other m a b v) by lia
  | H : load64 ?m ?a = _ |- context [load64 ?m ?a] => rewrite H
  | H : load8 ?m ?a = _ |- context [load8 ?m ?a] => rewrite H
  | |- context [wrap ?x] => rewrite (wrap_small x) by (unfold SIZE_MOD; lia)
  | |- context [?x =? 0] =>
      first [ replace (x =? 0) with false by (symmetry; apply Z.eqb_neq; lia)
            | replace (x =? 0) with true by (symmetry; apply Z.eqb_eq; lia) ];
      cbv iota
  | |- context [1 mod 256] => change (1 mod 256) with 1
  | |- context [0 mod 256] => change (0 mod 256) with 0
  end.

Ltac fields :=
  unfold header_at, blk_size, blk_is_free, blk_next, blk_prev,
    set_size, set_is_free, set_next, set_prev,
    OFF_SIZE, OFF_IS_FREE, OFF_NEXT, OFF_PREV, HEADER_SIZE in *.

Lemma same_outside_refl m lo hi : same_outside m m lo hi.
Proof. intros x _. reflexivity. Qed.

Lemma same_outside_trans m1 m2 m3 lo hi :
  same_outside m1 m2 lo hi -> same_outside m2 m3 lo hi ->
  same_outside m1 m3 lo hi.
Proof. intros H1 H2 x Hx. rewrite H2, H1 by exact Hx. reflexivity. Qed.

Lemma same_outside_weaken m m' lo hi lo' hi' :
  same_outside m m' lo hi -> lo' <= lo -> hi <= hi' ->
  same_outside m m' lo' hi'.
Proof. intros H Hl Hh x Hx. apply H. lia. Qed.

Lemma same_outside_store64 m a v lo hi :
  lo <= a -> a + 8 <= hi -> same_outside m (store64 m a v) lo hi.
Proof.
  intros Hl Hh x Hx. unfold store64.
  replace ((a <=? x) && (x <? a + 8)) with false; [reflexivity|].
  symmetry. apply andb_false_iff.
  destruct (Z.leb_spec a x); [right; apply Z.ltb_ge; lia | left; reflexivity].
Qed.

Lemma same_outside_store8 m a v lo hi :
  lo <= a -> a < hi -> same_outside m (store8 m a v) lo hi.
Proof.
  intros Hl Hh x Hx. unfold store8.
  destruct (Z.eqb_spec x a); [lia | reflexivity].
Qed.

Lemma same_outside_memset m dst c n lo hi :
  lo <= dst -> dst + n <= hi -> same_outside m (memset m dst c n) lo hi.
Proof.
  intros Hl Hh x Hx. unfold memset.
  replace ((dst <=? x) && (x <? dst + n)) with false; [reflexivity|].
  symmetry. apply andb_false_iff.
  destruct (Z.leb_spec dst x); [right; apply Z.ltb_ge; lia | left; reflexivity].
Qed.

Lemma same_outside_memcpy m dst src n lo hi :
  lo <= dst -> dst + n <= hi -> same_outside m (memcpy m dst src n) lo hi.
Proof.
  intros Hl Hh x Hx. unfold memcpy.
  replace ((dst <=? x) && (x <? dst + n)) with false; [reflexivity|].
  symmetry. apply andb_false_iff.
  destruct (Z.leb_spec dst x); [right; apply Z.ltb_ge; lia | left; reflexivity].
Qed.

(** Chains a sequence of writes into one [same_outside] fact. *)
Ltac frame_writes :=
  repeat first
    [ apply same_outside_refl
    | eapply same_outside_trans;
      [| first [ apply same_outside_store64; lia
               | apply same_outside_store8; lia ] ] ].

(* ------------------------------------------------------------------ *)
(** *** The chain walks *)

Lemma cursor_pos m pv a bs e : chain m pv a bs e -> 0 <= cursor a bs.
Proof. destruct bs as [|[sz fr] bs]; cbn [chain cursor]; lia. Qed.

Lemma find_from_chain m pv a bs e need fuel :
  chain m pv a bs e ->
  (length bs < fuel)%nat ->
  find_from fuel m (cursor a bs) need = Some (first_fit a need bs).
Proof.
  revert pv a fuel. induction bs as [|[sz fr] bs IH]; intros pv a fuel Hc Hf.
  - destruct fuel; [inversion Hf|]. reflexivity.
  - destruct fuel; [inversion Hf|]. cbn [length] in Hf.
    destruct Hc as (Ha & (Hs & Hfr & Hn & Hp) & Hc).
    cbn [find_from cursor first_fit].
    replace (a =? 0) with false by (symmetry; apply Z.eqb_neq; lia).
    rewrite Hs, Hfr, Hn. unfold fits, is_free_block. cbn [fst snd].
    destruct (fr && (need <=? sz)); [reflexivity|].
    apply (IH a); [exact Hc | lia].
Qed.

Lemma count_free_cons sz fr bs :
  count_free ((sz, fr) :: bs) = (if fr then 1 else 0) + count_free bs.
Proof.
  unfold count_free. cbn [filter is_free_block snd].
  destruct fr; cbn [length]; lia.
Qed.

Lemma count_free_range bs : 0 <= count_free bs <= Z.of_nat (length bs).
Proof.
  unfold count_free. pose proof (filter_length_le is_free_block bs). lia.
Qed.

Lemma wrap_add_l x y : wrap (wrap x + y) = wrap (x + y).
Proof. unfold wrap. rewrite Zplus_mod_idemp_l. reflexivity. Qed.


Lemma wrap_sub_l x y : wrap (wrap x - y) = wrap (x - y).
Proof. unfold wrap. rewrite Zminus_mod_idemp_l. reflexivity. Qed.

Lemma count_blocks_chain m pv a bs e fuel total free_count :
  chain m pv a bs e ->
  (length bs < fuel)%nat ->
  count_blocks fuel m (cursor a bs) (wrap total) (wrap free_count) =
  Some (wrap (total + Z.of_nat (length bs)), wrap (free_count + count_free bs)).
Proof.
  revert pv a fuel total free_count.
  induction bs as [|[sz fr] bs IH]; intros pv a fuel total free_count Hc Hf.
  - destruct fuel; [inversion Hf|]. cbn [count_blocks cursor length].
    unfold count_free. cbn. rewrite !Z.add_0_r. reflexivity.
  - destruct fuel; [inversion Hf|]. cbn [length] in Hf.
    destruct Hc as (Ha & (Hs & Hfr & Hn & Hp) & Hc).
    cbn [count_blocks cursor].
    replace (a =? 0) with false by (symmetry; apply Z.eqb_neq; lia).
    rewrite Hfr, Hn, count_free_cons. cbn [length]. rewrite Nat2Z.inj_succ.
    rewrite wrap_add_l.
    replace (if fr then wrap (wrap free_count + 1) else wrap free_count)
      with (wrap (free_count + if fr then 1 else 0))
      by (destruct fr; [rewrite wrap_add_l | rewrite Z.add_0_r]; reflexivity).
    rewrite (IH a) by (auto; lia).
    f_equal. f_equal; f_equal; lia.
Qed.

(* ------------------------------------------------------------------ *)
(** *** Splitting a block *)

Lemma splitBlock_small st a need :
  wrap (blk_size (memory st) a - need) < HEADER_SIZE + MIN_BLOCK_SIZE ->
  splitBlock st a need = (st, false).
Proof.
  intro H. unfold splitBlock.
  replace (wrap (blk_size (memory st) a - need) <? HEADER_SIZE + MIN_BLOCK_SIZE)
    with true by (symmetry; apply Z.ltb_lt; exact H).
  reflexivity.
Qed.

Lemma splitBlock_chain st pv a sz post e need :
  chain (memory st) pv a ((sz, true) :: post) e ->
  e < SIZE_MOD ->
  0 <= need <= sz ->
  HEADER_SIZE + MIN_BLOCK_SIZE <= sz - need ->
  let st' := fst (splitBlock st a need) in
  self st' = self (with_stats st (stats_after_split (stats st))) /\
  chain (memory st') pv a
        ((need, true) :: (sz - need - HEADER_SIZE, true) :: post) e /\
  same_outside (memory st) (memory st') a e.
Proof.
  intros Hc He Hn Hs.
  pose proof (chain_sizes _ _ _ _ _ Hc) as Hsz.
  pose proof (chain_end _ _ _ _ _ Hc) as Hend.
  apply Forall_cons_iff in Hsz. destruct Hsz as [Hz Hszr]. cbn [fst] in Hz.
  pose proof (span_nonneg _ Hszr) as Hsp.
  destruct Hc as (Ha & (H1 & H2 & H3 & H4) & Hc).
  cbn [span] in Hend.
  unfold splitBlock. rewrite H1.
  unfold HEADER_SIZE, MIN_BLOCK_SIZE, SIZE_MOD in *.
  rewrite (wrap_small (sz - need)) by (unfold SIZE_MOD; lia).
  replace (sz - need <? 32 + 16) with false by (symmetry; apply Z.ltb_ge; lia).
  cbn [fst memory self with_stats with_memory].
  split; [reflexivity|].
  set (m := memory st) in *. clearbody m.
  destruct post as [|[s2 f2] post'].
  - cbn [cursor chain] in *. fields. repeat mem_step.
    split; [repeat split; try reflexivity; lia | frame_writes].
  - cbn [cursor chain] in Hc, H3 |- *.
    apply Forall_cons_iff in Hszr. destruct Hszr as [Hz2 Hszr]. cbn [fst] in Hz2.
    destruct Hc as (Ha2 & (G1 & G2 & G3 & G4) & Hc).
    cbn [span] in Hend, Hsp.
    pose proof (span_nonneg _ Hszr) as Hsp2.
    fields. repeat mem_step.
    replace (a + 32 + need + 32 + (sz - need - 32)) with (a + 32 + sz) by lia.
    match goal with
    | |- _ /\ same_outside m ?m' a e =>
        assert (Hout : same_outside m m' a (a + 32 + sz + 32)) by frame_writes
    end.
    split; [| eapply same_outside_weaken; [exact Hout | lia | lia]].
    repeat split; try reflexivity; try lia; try assumption.
    eapply chain_frame; [exact Hc | exact Hout | lia].
Qed.

(* ------------------------------------------------------------------ *)
(** *** Rewriting the middle of a chain *)

Lemma chain_set_is_free m pv a sz fr rest e f :
  chain m pv a ((sz, fr) :: rest) e ->
  chain (set_is_free m a f) pv a ((sz, f) :: rest) e /\
  same_outside m (set_is_free m a f) a (a + HEADER_SIZE).
Proof.
  intro Hc.
  pose proof (chain_sizes _ _ _ _ _ Hc) as Hsz.
  apply Forall_cons_iff in Hsz. destruct Hsz as [Hz Hszr]. cbn [fst] in Hz.
  destruct Hc as (Ha & (H1 & H2 & H3 & H4) & Hc).
  assert (Hout : same_outside m (set_is_free m a f) a (a + HEADER_SIZE)).
  { unfold set_is_free. apply same_outside_store8; unfold OFF_IS_FREE, HEADER_SIZE; lia. }
  split; [|exact Hout].
  cbn [chain]. split; [exact Ha|]. split.
  - fields. repeat mem_step. repeat split; try assumption.
    destruct f; reflexivity.
  - eapply chain_frame; [exact Hc | exact Hout | unfold HEADER_SIZE; lia].
Qed.

Lemma chain_update m m' pv a pre old new e :
  old <> [] -> new <> [] ->
  chain m pv a (pre ++ old) e ->
  (chain m (last_addr pv a pre) (a + span pre) old e ->
   chain m' (last_addr pv a pre) (a + span pre) new e /\
   same_outside m m' (a + span pre) e) ->
  chain m' pv a (pre ++ new) e.
Proof.
  intros Ho Hn Hc Hloc.
  apply chain_app in Hc; [|exact Ho]. destruct Hc as [Hseg Hc].
  destruct (Hloc Hc) as [Hc' Hout].
  apply chain_app; [exact Hn|]. split; [|exact Hc'].
  eapply seg_frame; [exact Hseg | exact Hout | lia].
Qed.

(* ------------------------------------------------------------------ *)
(** *** First fit on the list *)

Lemma first_fit_none a need bs :
  Forall (fun b => fits need b = false) bs -> first_fit a need bs = 0.
Proof.
  revert a. induction bs as [|[sz fr] bs IH]; intros a H; [reflexivity|].
  apply Forall_cons_iff in H. destruct H as [H1 H2].
  cbn [first_fit]. rewrite H1. apply IH. exact H2.
Qed.

Lemma first_fit_app a need pre sz post :
  Forall (fun b => fits need b = false) pre ->
  need <= sz ->
  first_fit a need (pre ++ (sz, true) :: post) = a + span pre.
Proof.
  revert a. induction pre as [|[s f] pre IH]; intros a H Hn.
  - cbn [app first_fit span]. unfold fits, is_free_block. cbn [fst snd].
    replace (need <=? sz) with true by (symmetry; apply Z.leb_le; exact Hn).
    cbn. lia.
  - apply Forall_cons_iff in H. destruct H as [H1 H2].
    cbn [app first_fit span]. rewrite H1, IH by assumption. lia.
Qed.

(** Either no block fits, or the list splits at its first fitting block. *)
Lemma first_fit_cases need bs :
  Forall (fun b => fits need b = false) bs \/
  exists pre sz post,
    bs = pre ++ (sz, true) :: post /\
    Forall (fun b => fits need b = false) pre /\ need <= sz.
Proof.
  induction bs as [|[sz fr] bs IH]; [left; constructor|].
  destruct (fits need (sz, fr)) eqn:Hf.
  - right. exists [], sz, bs. unfold fits, is_free_block in Hf. cbn [fst snd] in Hf.
    apply andb_true_iff in Hf. destruct Hf as [-> Hle]. apply Z.leb_le in Hle.
    repeat split; [constructor | exact Hle].
  - destruct IH as [IH | (pre & s & post & -> & Hp & Hle)].
    + left. constructor; assumption.
    + right. exists ((sz, fr) :: pre), s, post.
      repeat split; [constructor; assumption | exact Hle].
Qed.

(** The mask clears the three low bits. *)
Lemma alignSize_eq size :
  alignSize size = 8 * (wrap (size + 7) / 8).
Proof.
  unfold alignSize, ALIGNMENT. replace (size + 8 - 1) with (size + 7) by lia.
  set (x := wrap (size + 7)).
  assert (Hx : 0 <= x < 2 ^ 64) by apply wrap_range.
  unfold wrap at 1, SIZE_MOD. rewrite <- Z.land_ones by lia.
  rewrite (Z.land_comm (Z.lnot (8 - 1))), Z.land_assoc.
  rewrite Z.land_ones by lia. rewrite Z.mod_small by exact Hx.
  rewrite <- Z.ldiff_land. change (8 - 1) with (Z.ones 3).
  rewrite Z.ldiff_ones_r by lia.
  rewrite Z.shiftl_mul_pow2, Z.shiftr_div_pow2 by lia.
  change (2 ^ 3) with 8. lia.
Qed.

Lemma alignSize_range size : 0 <= alignSize size < SIZE_MOD.
Proof.
  rewrite alignSize_eq. pose proof (wrap_range (size + 7)) as H.
  pose proof (Z.mul_div_le (wrap (size + 7)) 8 ltac:(lia)).
  pose proof (Z.div_pos (wrap (size + 7)) 8 ltac:(lia) ltac:(lia)).
  lia.
Qed.

Lemma request_size_range size : MIN_BLOCK_SIZE <= request_size size < SIZE_MOD.
Proof.
  unfold request_size. pose proof (alignSize_range size).
  destruct (Z.ltb_spec (alignSize size) MIN_BLOCK_SIZE);
    unfold MIN_BLOCK_SIZE, SIZE_MOD in *; lia.
Qed.

(* ================================================================== *)
(** ** Well-formed heaps *)
(* ================================================================== *)

Lemma heap_chain_length st bs :
  heap_chain st bs -> Z.of_nat (length bs) < SIZE_MOD.
Proof.
  intros (Hs & He & _ & _ & Hc).
  pose proof (chain_sizes _ _ _ _ _ Hc) as Hsz.
  pose proof (span_length _ Hsz). pose proof (chain_end _ _ _ _ _ Hc).
  unfold HEADER_SIZE in *. lia.
Qed.

Lemma app_cons_not_nil' (A : Type) (xs ys : list A) : ys <> [] -> xs ++ ys <> [].
Proof. intros H E. apply app_eq_nil in E. tauto. Qed.

Lemma alloc_blocks_not_nil need sz post : alloc_blocks need sz ++ post <> [].
Proof. unfold alloc_blocks. destruct (_ <? _); discriminate. Qed.

(** Split decision and marking, on the window that starts at the chosen
    block. *)
Lemma take_block_chain st pv a sz post e need :
  chain (memory st) pv a ((sz, true) :: post) e ->
  e < SIZE_MOD ->
  0 <= need <= sz ->
  let st1 := fst (splitBlock st a need) in
  let st2 := with_memory st1 (set_is_free (memory st1) a false) in
  let split := negb (sz - need <? HEADER_SIZE + MIN_BLOCK_SIZE) in
  self st2 = self (with_stats st (if split then stats_after_split (stats st)
                                  else stats st)) /\
  chain (memory st2) pv a (alloc_blocks need sz ++ post) e /\
  same_outside (memory st) (memory st2) a e /\
  blk_size (memory st2) a = (if split then need else sz).
Proof.
  intros Hc He Hn st1 st2 split.
  pose proof (chain_sizes _ _ _ _ _ Hc) as Hsz.
  pose proof (chain_end _ _ _ _ _ Hc) as Hend. cbn [span] in Hend.
  apply Forall_cons_iff in Hsz. destruct Hsz as [Hz Hszr]. cbn [fst] in Hz.
  pose proof (span_nonneg _ Hszr) as Hsp.
  assert (Hsize : blk_size (memory st) a = sz) by (destruct Hc as (_ & (H & _) & _); exact H).
  unfold alloc_blocks. subst split.
  destruct (Z.ltb_spec (sz - need) (HEADER_SIZE + MIN_BLOCK_SIZE)) as [Hlt|Hge];
    cbn [negb].
  - assert (E : splitBlock st a need = (st, false)).
    { apply splitBlock_small. rewrite Hsize.
      rewrite wrap_small by (unfold SIZE_MOD in *; lia). exact Hlt. }
    subst st2 st1. rewrite E. cbn [fst with_memory self memory app].
    destruct (chain_set_is_free _ _ _ _ _ _ _ false Hc) as [Hc' Hout].
    split; [destruct st as [[] ?]; reflexivity|]. split; [exact Hc'|]. split.
    + eapply same_outside_weaken; [exact Hout | lia | unfold HEADER_SIZE in *; lia].
    + destruct Hc' as (_ & (H & _) & _). exact H.
  - destruct (splitBlock_chain st pv a sz post e need Hc He Hn Hge)
      as (Hself & Hc1 & Hout1).
    fold st1 in Hself, Hc1, Hout1.
    destruct (chain_set_is_free _ _ _ _ _ _ _ false Hc1) as [Hc2 Hout2].
    subst st2. cbn [with_memory self memory app].
    split; [exact Hself|]. split; [exact Hc2|]. split.
    + eapply same_outside_trans; [exact Hout1|].
      eapply same_outside_weaken; [exact Hout2 | lia | unfold HEADER_SIZE in *; lia].
    + destruct Hc2 as (_ & (H & _) & _). exact H.
Qed.

Lemma my_malloc_none st bs size fuel :
  heap_chain st bs ->
  size <> 0 ->
  (length bs < fuel)%nat ->
  Forall (fun b => fits (request_size size) b = false) bs ->
  my_malloc fuel st size =
  Some (0, st, [MallocOutOfMemory (request_size size)]).
Proof.
  intros (Hs & He & Hfl & Hne & Hc) Hsize Hfuel Hnone.
  unfold my_malloc.
  replace (size =? 0) with false by (symmetry; apply Z.eqb_neq; exact Hsize).
  fold (request_size size). unfold findFreeBlock. rewrite Hfl.
  replace (heap_start_ (self st)) with (cursor (heap_start_ (self st)) bs)
    by (destruct bs; [congruence | reflexivity]).
  rewrite (find_from_chain _ _ _ _ _ _ _ Hc Hfuel).
  rewrite first_fit_none by exact Hnone. reflexivity.
Qed.

Lemma my_malloc_found st pre sz post size fuel :
  let need := request_size size in
  let bs := pre ++ (sz, true) :: post in
  let bs' := pre ++ alloc_blocks need sz ++ post in
  let split := negb (sz - need <? HEADER_SIZE + MIN_BLOCK_SIZE) in
  let got := if split then need else sz in
  heap_chain st bs ->
  size <> 0 ->
  (length bs + 1 < fuel)%nat ->
  Forall (fun b => fits need b = false) pre ->
  need <= sz ->
  exists st',
    my_malloc fuel st size =
      Some (heap_start_ (self st) + span pre + HEADER_SIZE, st', []) /\
    self st' = self (with_stats st (stats_after_alloc (stats st) split got bs')) /\
    heap_chain st' bs' /\
    same_outside (memory st) (memory st') (heap_start_ (self st) + span pre)
                 (heap_end_ (self st)).
Proof.
  intros need bs bs' split got (Hs & He & Hfl & Hne & Hc) Hsize Hfuel Hpre Hle.
  pose proof (request_size_range size) as Hneed. fold need in Hneed.
  pose proof (chain_sizes _ _ _ _ _ Hc) as Hsz.
  assert (Hprez : 0 <= span pre).
  { apply span_nonneg. unfold bs in Hsz. apply Forall_app in Hsz. tauto. }
  set (h := heap_start_ (self st)) in *.
  set (a := h + span pre).
  (* split and mark *)
  pose (st1 := fst (splitBlock st a need)).
  pose (st2 := with_memory st1 (set_is_free (memory st1) a false)).
  assert (Hloc : self st2 = self (with_stats st (if split then stats_after_split (stats st)
                                                 else stats st)) /\
                 chain (memory st2) 0 h bs' (heap_end_ (self st)) /\
                 same_outside (memory st) (memory st2) a (heap_end_ (self st)) /\
                 blk_size (memory st2) a = got).
  { assert (Hw : chain (memory st) (last_addr 0 h pre) a ((sz, true) :: post)
                   (heap_end_ (self st))).
    { apply chain_app in Hc; [tauto | discriminate]. }
    destruct (take_block_chain st _ a sz post _ need Hw He
                ltac:(unfold MIN_BLOCK_SIZE in *; lia))
      as (H1 & H2 & H3 & H4).
    fold st1 in H1, H2, H3, H4. fold st2 in H1, H2, H3, H4.
    repeat split; try assumption.
    apply (chain_update (memory st) _ 0 h pre ((sz, true) :: post));
      [discriminate | apply alloc_blocks_not_nil | exact Hc |].
    intros _. split; assumption. }
  destruct Hloc as (Hself2 & Hc2 & Hout2 & Hgot).
  assert (Hself1 : self st1 = self (with_stats st (if split then stats_after_split (stats st)
                                                   else stats st))) by exact Hself2.
  assert (Hlen' : (length bs' <= length bs + 1)%nat).
  { unfold bs', bs, alloc_blocks. rewrite !length_app.
    destruct (_ <? _); cbn [length app]; lia. }
  assert (Hbs' : bs' <> []).
  { unfold bs'. apply app_cons_not_nil'. apply alloc_blocks_not_nil. }
  assert (Hfl2 : free_list_ (self st2) = h).
  { rewrite Hself2. cbn. exact Hfl. }
  assert (Hhc2 : heap_chain st2 bs').
  { unfold heap_chain. rewrite Hself2. cbn [self with_stats heap_start_ heap_end_ free_list_].
    repeat split; assumption. }
  pose proof (heap_chain_length _ _ Hhc2) as Hlenz.
  pose proof (count_free_range bs') as Hcf.
  eexists. split; [|split; [|split]].
  - unfold my_malloc.
    replace (size =? 0) with false by (symmetry; apply Z.eqb_neq; exact Hsize).
    fold (request_size size). fold need. unfold findFreeBlock. rewrite Hfl.
    replace h with (cursor h bs) at 1 by reflexivity || (unfold bs; destruct pre; reflexivity).
    rewrite (find_from_chain _ _ _ _ _ _ _ Hc) by lia.
    unfold bs. rewrite first_fit_app by assumption. fold a.
    replace (a =? 0) with false by (symmetry; apply Z.eqb_neq; lia).
    fold st1. cbv zeta. fold st2. rewrite Hgot.
    unfold updateStatsAfterAlloc, recalculateBlockCounts.
    cbn [with_stats self memory free_list_]. rewrite Hfl2.
    replace h with (cursor h bs') at 1 by (destruct bs'; [congruence | reflexivity]).
    change 0 with (wrap 0) at 1 2.
    rewrite (count_blocks_chain _ _ _ _ _ _ _ _ Hc2) by lia.
    rewrite !Z.add_0_l.
    rewrite (wrap_small (Z.of_nat (length bs'))), (wrap_small (count_free bs')) by lia.
    unfold getData. reflexivity.
  - cbn. unfold stats. cbn. rewrite Hself1. cbn. unfold stats_after_alloc, stats.
    destruct split; reflexivity.
  - unfold heap_chain. cbn. rewrite Hself1. cbn.
    repeat split; assumption.
  - cbn. exact Hout2.
Qed.

(* ------------------------------------------------------------------ *)
(** *** Coalescing *)

Lemma coalesceBlock_halves st block :
  coalesceBlock st block = coalesce_prev (coalesce_next st block) block.
Proof. reflexivity. Qed.

Lemma coalesce_next_chain st pv a sz post e :
  chain (memory st) pv a ((sz, true) :: post) e ->
  e < SIZE_MOD ->
  let st' := coalesce_next st a in
  chain (memory st') pv a
        ((fst (merge_next sz post), true) :: snd (merge_next sz post)) e /\
  same_outside (memory st) (memory st') a e /\
  self st' = self (with_stats st (if next_is_free post
                                  then stats_after_merge (stats st)
                                  else stats st)).
Proof.
  intros Hc He.
  pose proof (chain_sizes _ _ _ _ _ Hc) as Hsz.
  pose proof (chain_end _ _ _ _ _ Hc) as Hend. cbn [span] in Hend.
  apply Forall_cons_iff in Hsz. destruct Hsz as [Hz Hszr]. cbn [fst] in Hz.
  pose proof (span_nonneg _ Hszr) as Hsp.
  unfold coalesce_next.
  set (m := memory st) in *.
  destruct post as [|[s2 f2] post'].
  - (* last block *)
    destruct Hc as (Ha & (H1 & H2 & H3 & H4) & Hc). cbn [cursor] in H3.
    rewrite H3. cbn [Z.eqb negb andb merge_next next_is_free fst snd].
    fold m. split; [|split; [apply same_outside_refl | destruct st as [[] ?]; reflexivity]].
    cbn [chain cursor]. repeat split; assumption.
  - apply Forall_cons_iff in Hszr. destruct Hszr as [Hz2 Hszr]. cbn [fst] in Hz2.
    pose proof (span_nonneg _ Hszr) as Hsp2. cbn [span] in Hend, Hsp.
    pose proof Hc as Hc0.
    destruct Hc as (Ha & (H1 & H2 & H3 & H4) & (Ha2 & (G1 & G2 & G3 & G4) & Hc)).
    cbn [cursor] in H3. rewrite H3.
    replace (a + HEADER_SIZE + sz =? 0) with false
      by (symmetry; apply Z.eqb_neq; unfold HEADER_SIZE; lia).
    rewrite G2. cbn [negb andb].
    destruct f2; cbn [merge_next next_is_free fst snd].
    + (* absorb the next block *)
      cbv zeta. cbn [with_stats with_memory self memory]. fold m.
      split; [|split; [|reflexivity]].
      * destruct post' as [|[s3 f3] post''].
        -- cbn [cursor chain] in *. fields. unfold SIZE_MOD in *.
           repeat mem_step. repeat split; try reflexivity; try assumption; lia.
        -- cbn [cursor chain] in Hc, G3 |- *.
           apply Forall_cons_iff in Hszr. destruct Hszr as [Hz3 Hszr]. cbn [fst] in Hz3.
           pose proof (span_nonneg _ Hszr) as Hsp3. cbn [span] in Hend, Hsp2.
           destruct Hc as (Ha3 & (K1 & K2 & K3 & K4) & Hc).
           fields. unfold SIZE_MOD in *. repeat mem_step.
           replace (a + 32 + (sz + 32 + s2)) with (a + 32 + sz + 32 + s2) by lia.
           repeat split; try reflexivity; try assumption; try lia.
           apply (chain_frame m _ _ _ _ _ a (a + 32 + sz + 32 + s2 + 32) Hc);
             [frame_writes | lia].
      * destruct post' as [|[s3 f3] post''].
        -- cbn [cursor chain] in *. fields. unfold SIZE_MOD in *.
           repeat mem_step. frame_writes.
        -- cbn [cursor chain] in Hc, G3 |- *.
           apply Forall_cons_iff in Hszr. destruct Hszr as [Hz3 Hszr]. cbn [fst] in Hz3.
           pose proof (span_nonneg _ Hszr) as Hsp3. cbn [span] in Hend, Hsp2.
           destruct Hc as (Ha3 & (K1 & K2 & K3 & K4) & Hc).
           fields. unfold SIZE_MOD in *. repeat mem_step. frame_writes.
    + fold m. split; [exact Hc0|].
      split; [apply same_outside_refl | destruct st as [[] ?]; reflexivity].
Qed.

Lemma coalesce_prev_as_next st a b :
  blk_prev (memory st) b = a ->
  blk_next (memory st) a = b ->
  a <> 0 -> b <> 0 ->
  blk_is_free (memory st) a = true ->
  blk_is_free (memory st) b = true ->
  coalesce_prev st b = (coalesce_next st a, a).
Proof.
  intros Hp Hn Ha Hb Hfa Hfb. unfold coalesce_prev, coalesce_next.
  rewrite Hp, Hn, Hfa, Hfb.
  replace (a =? 0) with false by (symmetry; apply Z.eqb_neq; exact Ha).
  replace (b =? 0) with false by (symmetry; apply Z.eqb_neq; exact Hb).
  reflexivity.
Qed.

Lemma coalesce_prev_keep st b :
  blk_prev (memory st) b = 0 \/
  blk_is_free (memory st) (blk_prev (memory st) b) = false ->
  coalesce_prev st b = (st, b).
Proof.
  intros [H|H]; unfold coalesce_prev; rewrite H.
  - reflexivity.
  - rewrite andb_false_r. reflexivity.
Qed.

Lemma last_addr_snoc pv a pre b :
  last_addr pv a (pre ++ [b]) = a + span pre.
Proof.
  revert pv a. induction pre as [|[s f] pre IH]; intros pv a.
  - destruct b. cbn [app last_addr span]. lia.
  - cbn [app last_addr span]. rewrite IH. lia.
Qed.

Lemma merge_prev_not_nil pre cur post : merge_prev pre cur ++ post <> [].
Proof.
  unfold merge_prev. destruct (rev pre) as [|[s0 [|]] rp]; intro E;
    apply app_eq_nil in E; destruct E as [E _];
    apply app_eq_nil in E; destruct E as [_ E]; discriminate.
Qed.

Lemma heap_chain_intro st st' s bs' :
  self st' = self (with_stats st s) ->
  0 < heap_start_ (self st) ->
  heap_end_ (self st) < SIZE_MOD ->
  free_list_ (self st) = heap_start_ (self st) ->
  bs' <> [] ->
  chain (memory st') 0 (heap_start_ (self st)) bs' (heap_end_ (self st)) ->
  heap_chain st' bs'.
Proof.
  intros Hself Hs He Hfl Hne Hc. unfold heap_chain. rewrite Hself.
  cbn [self with_stats heap_start_ heap_end_ free_list_].
  split; [exact Hs|]. split; [exact He|]. split; [exact Hfl|].
  split; [exact Hne | exact Hc].
Qed.

Lemma my_free_live st pre sz post :
  let bs := pre ++ (sz, false) :: post in
  heap_chain st bs ->
  0 < sz ->
  exists st',
    my_free st (heap_start_ (self st) + span pre + HEADER_SIZE) = (st', []) /\
    heap_chain st' (free_blocks pre sz post) /\
    self st' =
      self (with_stats st
              (Nat.iter (merges pre post) stats_after_merge
                 (stats (updateStatsAfterFree st sz)))).
Proof.
  intros bs (Hs & He & Hfl & Hne & Hc) Hpos.
  pose proof (chain_sizes _ _ _ _ _ Hc) as Hsz.
  pose proof (chain_end _ _ _ _ _ Hc) as Hend.
  unfold bs in Hsz, Hend. rewrite span_app in Hend. cbn [span] in Hend.
  apply Forall_app in Hsz. destruct Hsz as [Hszpre Hsz].
  apply Forall_cons_iff in Hsz. destruct Hsz as [Hz Hszpost]. cbn [fst] in Hz.
  pose proof (span_nonneg _ Hszpre) as Hp0.
  pose proof (span_nonneg _ Hszpost) as Hp1.
  set (h := heap_start_ (self st)) in *.
  set (e := heap_end_ (self st)) in *.
  set (a := h + span pre).
  assert (Hw : chain (memory st) (last_addr 0 h pre) a ((sz, false) :: post) e).
  { apply chain_app in Hc; [tauto | discriminate]. }
  assert (Hfree : blk_is_free (memory st) a = false)
    by (destruct Hw as (_ & (_ & H & _) & _); exact H).
  assert (Hsize : blk_size (memory st) a = sz)
    by (destruct Hw as (_ & (H & _) & _); exact H).
  pose (st1 := updateStatsAfterFree st sz).
  pose (st2 := with_memory st1 (set_is_free (memory st1) a true)).
  pose (st3 := coalesce_next st2 a).
  (* the window after marking and the forward merge *)
  destruct (chain_set_is_free _ _ _ _ _ _ _ true Hw) as [Hw2 Hout2].
  change (set_is_free (memory st) a true) with (memory st2) in Hw2, Hout2.
  destruct (coalesce_next_chain st2 _ a sz post e Hw2 He) as (Hw3 & Hout3 & Hself3).
  fold st3 in Hw3, Hout3, Hself3.
  set (cur := fst (merge_next sz post)) in *.
  set (post' := snd (merge_next sz post)) in *.
  assert (Hc3 : chain (memory st3) 0 h (pre ++ (cur, true) :: post') e).
  { apply (chain_update (memory st) _ 0 h pre ((sz, false) :: post));
      [discriminate | discriminate | exact Hc |].
    intros _. split; [exact Hw3|]. fold a.
    eapply same_outside_trans; [|exact Hout3].
    eapply same_outside_weaken; [exact Hout2 | lia | unfold a, HEADER_SIZE in *; lia]. }
  assert (Hself3' : self st3 =
            self (with_stats st (Nat.iter (if next_is_free post then 1 else 0)%nat
                                   stats_after_merge (stats st1)))).
  { rewrite Hself3. destruct (next_is_free post); reflexivity. }
  (* what my_free reduces to *)
  assert (Hrun : my_free st (a + HEADER_SIZE) =
                 (fst (coalesce_prev st3 a), [])).
  { unfold my_free.
    replace (a + HEADER_SIZE =? 0) with false
      by (symmetry; apply Z.eqb_neq; unfold HEADER_SIZE; lia).
    unfold isValidPointer. fold h e.
    replace (h + HEADER_SIZE <=? a + HEADER_SIZE) with true
      by (symmetry; apply Z.leb_le; lia).
    replace (a + HEADER_SIZE <? e) with true
      by (symmetry; apply Z.ltb_lt; unfold a; lia).
    cbn [andb negb].
    replace (fromData (a + HEADER_SIZE)) with a by (unfold fromData; lia).
    rewrite Hfree, Hsize. fold st1. cbv zeta. fold st2.
    rewrite coalesceBlock_halves. reflexivity. }
  rewrite Hrun. unfold free_blocks, merges. fold cur post'.
  unfold merge_prev, prev_is_free.
  destruct (rev pre) as [|[s0 f0] rp] eqn:Hrev.
  - (* the freed block heads the chain *)
    assert (pre = []) by (apply (f_equal (@rev _)) in Hrev; rewrite rev_involutive in Hrev; exact Hrev).
    subst pre. cbn [app span last_addr] in *.
    assert (Hk : coalesce_prev st3 a = (st3, a)).
    { apply coalesce_prev_keep. left.
      destruct Hw3 as (_ & (_ & _ & _ & H) & _). exact H. }
    rewrite Hk. cbn [fst]. exists st3. split; [reflexivity|]. split.
    + apply (heap_chain_intro st _ _ _ Hself3'); try assumption; discriminate.
    + rewrite Hself3'. rewrite Nat.add_0_r. reflexivity.
  - assert (Hpre : pre = rev rp ++ [(s0, f0)]).
    { apply (f_equal (@rev _)) in Hrev. rewrite rev_involutive in Hrev. exact Hrev. }
    set (pre' := rev rp) in *.
    assert (Hszpre' : 0 <= span pre' /\ 0 <= s0 < SIZE_MOD).
    { rewrite Hpre in Hszpre. apply Forall_app in Hszpre. destruct Hszpre as [H1 H2].
      apply Forall_cons_iff in H2. cbn [fst] in H2. split; [apply span_nonneg; exact H1 | tauto]. }
    set (a0 := h + span pre').
    assert (Ha : a = a0 + HEADER_SIZE + s0).
    { unfold a, a0. rewrite Hpre, span_app. cbn [span]. lia. }
    assert (Hc3' : chain (memory st3) 0 h (pre' ++ (s0, f0) :: (cur, true) :: post') e).
    { rewrite Hpre, <- app_assoc in Hc3. exact Hc3. }
    assert (Hw0 : chain (memory st3) (last_addr 0 h pre') a0
                    ((s0, f0) :: (cur, true) :: post') e).
    { apply chain_app in Hc3'; [tauto | discriminate]. }
    pose proof Hw0 as Hw0'.
    destruct Hw0' as (Ha0 & (P1 & P2 & P3 & P4) & (Ha1 & (Q1 & Q2 & Q3 & Q4) & _)).
    cbn [cursor] in P3. rewrite <- Ha in P3, Q1, Q2, Q3, Q4, Ha1.
    destruct f0.
    + (* the previous block absorbs the freed one *)
      rewrite (coalesce_prev_as_next st3 a0 a) by (auto; lia). cbn [fst].
      destruct (coalesce_next_chain st3 _ a0 s0 ((cur, true) :: post') e Hw0 He)
        as (Hw4 & Hout4 & Hself4).
      cbn [merge_next next_is_free fst snd] in Hw4, Hself4.
      assert (Hself4' : self (coalesce_next st3 a0) =
                 self (with_stats st (stats_after_merge (stats st3)))).
      { rewrite Hself4. unfold with_stats. cbn [self]. rewrite Hself3'. reflexivity. }
      exists (coalesce_next st3 a0). split; [reflexivity|]. split.
      * apply (heap_chain_intro st _ _ _ Hself4'); try assumption.
        -- rewrite <- app_assoc. apply app_cons_not_nil'. discriminate.
        -- rewrite <- app_assoc. cbn [app].
           apply (chain_update (memory st3) _ 0 h pre' ((s0, true) :: (cur, true) :: post'));
             [discriminate | discriminate | exact Hc3' |].
           intros _. split; assumption.
      * rewrite Hself4'. unfold stats. rewrite Hself3'.
        cbn [self with_stats stats_]. rewrite Nat.add_comm. reflexivity.
    + assert (Hk : coalesce_prev st3 a = (st3, a)).
      { apply coalesce_prev_keep. right. rewrite Q4. exact P2. }
      rewrite Hk. cbn [fst]. exists st3. split; [reflexivity|]. split.
      * apply (heap_chain_intro st _ _ _ Hself3'); try assumption.
        -- rewrite <- app_assoc. apply app_cons_not_nil'. discriminate.
        -- rewrite <- app_assoc. exact Hc3.
      * rewrite Hself3'. rewrite Nat.add_0_r. reflexivity.
Qed.

(* ================================================================== *)
(** ** List-level facts about allocation and release *)
(* ================================================================== *)

Lemma used_sum_app xs ys : used_sum (xs ++ ys) = used_sum xs + used_sum ys.
Proof.
  unfold used_sum. induction xs as [|x xs IH]; cbn [app sum_sizes]; lia.
Qed.

Lemma count_free_app xs ys : count_free (xs ++ ys) = count_free xs + count_free ys.
Proof.
  unfold count_free. rewrite filter_app, length_app. lia.
Qed.

Lemma live_ptrs_app a xs ys :
  live_ptrs a (xs ++ ys) = live_ptrs a xs ++ live_ptrs (a + span xs) ys.
Proof.
  revert a. induction xs as [|[s f] xs IH]; intro a; cbn [app live_ptrs span].
  - rewrite Z.add_0_r. reflexivity.
  - rewrite IH, <- app_assoc.
    replace (a + HEADER_SIZE + s + span xs) with (a + (HEADER_SIZE + s + span xs)) by lia.
    reflexivity.
Qed.

Lemma no_adjacent_free_app p xs ys :
  no_adjacent_free p (xs ++ ys) <->
  no_adjacent_free p xs /\ no_adjacent_free (last_flag p xs) ys.
Proof.
  revert p. induction xs as [|[s f] xs IH]; intro p;
    cbn [app no_adjacent_free last_flag]; [tauto|].
  rewrite IH. tauto.
Qed.

Lemma last_flag_app p xs ys :
  last_flag p (xs ++ ys) = last_flag (last_flag p xs) ys.
Proof.
  revert p. induction xs as [|[s f] xs IH]; intro p; cbn [app last_flag];
    [reflexivity | apply IH].
Qed.

(** Weakening the flag of the block before the list. *)
Lemma no_adjacent_free_false p xs :
  no_adjacent_free p xs -> no_adjacent_free false xs.
Proof.
  destruct xs as [|[s f] xs]; cbn [no_adjacent_free]; [tauto|].
  intros [_ H]. split; [reflexivity | exact H].
Qed.

Lemma span_alloc_blocks need sz :
  span (alloc_blocks need sz) = HEADER_SIZE + sz.
Proof.
  unfold alloc_blocks. destruct (_ <? _); cbn [span]; lia.
Qed.

Lemma used_sum_alloc_blocks need sz :
  used_sum (alloc_blocks need sz) =
  if negb (sz - need <? HEADER_SIZE + MIN_BLOCK_SIZE) then need else sz.
Proof.
  unfold alloc_blocks, used_sum.
  destruct (_ <? _); cbn [sum_sizes is_free_block negb fst snd]; lia.
Qed.

Lemma live_ptrs_alloc_blocks a need sz :
  live_ptrs a (alloc_blocks need sz) = [a + HEADER_SIZE].
Proof.
  unfold alloc_blocks. destruct (_ <? _); reflexivity.
Qed.

(** Allocation adds exactly the returned pointer to the live ones. *)
Lemma live_ptrs_alloc h pre sz post need :
  Permutation
    ((h + span pre + HEADER_SIZE) :: live_ptrs h (pre ++ (sz, true) :: post))
    (live_ptrs h (pre ++ alloc_blocks need sz ++ post)).
Proof.
  rewrite !live_ptrs_app, live_ptrs_alloc_blocks, span_alloc_blocks.
  cbn [live_ptrs app].
  replace (h + span pre + (HEADER_SIZE + sz)) with (h + span pre + HEADER_SIZE + sz) by lia.
  apply Permutation_middle.
Qed.

Lemma no_adjacent_free_alloc pre sz post need :
  no_adjacent_free false (pre ++ (sz, true) :: post) ->
  no_adjacent_free false (pre ++ alloc_blocks need sz ++ post).
Proof.
  rewrite !no_adjacent_free_app. cbn [no_adjacent_free last_flag].
  intros (Hpre & _ & Hpost). split; [exact Hpre|].
  unfold alloc_blocks. destruct (_ <? _); cbn [no_adjacent_free last_flag].
  - split; [split; [apply andb_false_r | exact I]|].
    eapply no_adjacent_free_false. exact Hpost.
  - split; [split; [apply andb_false_r | split; [reflexivity | exact I]]|].
    exact Hpost.
Qed.

(* ------------------------------------------------------------------ *)
(** *** The two merges on the list *)

Lemma length_app_Z (xs ys : list block) :
  Z.of_nat (length (xs ++ ys)) = Z.of_nat (length xs) + Z.of_nat (length ys).
Proof. rewrite length_app. lia. Qed.

Lemma merge_next_facts a sz post :
  let cur := fst (merge_next sz post) in
  let post' := snd (merge_next sz post) in
  let k := if next_is_free post then 1 else 0 in
  cur + span post' = sz + span post /\
  used_sum post' = used_sum post /\
  Z.of_nat (length post') + k = Z.of_nat (length post) /\
  count_free post' + k = count_free post /\
  live_ptrs (a + HEADER_SIZE + cur) post' = live_ptrs (a + HEADER_SIZE + sz) post /\
  (no_adjacent_free false post -> no_adjacent_free true post') /\
  (0 <= sz -> Forall (fun b => 0 <= fst b) post -> sz <= cur).
Proof.
  destruct post as [|[s2 [|]] post'];
    cbn [merge_next next_is_free fst snd span length live_ptrs app].
  - repeat split; try reflexivity; try lia; auto.
  - rewrite count_free_cons. unfold used_sum. cbn [sum_sizes is_free_block snd negb].
    rewrite Nat2Z.inj_succ.
    replace (a + HEADER_SIZE + (sz + HEADER_SIZE + s2))
      with (a + HEADER_SIZE + sz + HEADER_SIZE + s2) by lia.
    repeat split; try reflexivity; try lia.
    + cbn [no_adjacent_free]. tauto.
    + intros Hz Hall. apply Forall_cons_iff in Hall. cbn [fst] in Hall.
      unfold HEADER_SIZE. lia.
  - repeat split; try reflexivity; try lia.
    cbn [no_adjacent_free] in *. tauto.
Qed.

Lemma rev_cases (pre : list block) :
  pre = [] /\ rev pre = [] \/
  exists pre' s0 f0, pre = pre' ++ [(s0, f0)] /\ rev pre = (s0, f0) :: rev pre'.
Proof.
  destruct (rev pre) as [|[s0 f0] rp] eqn:Hrev.
  - left. split; [|reflexivity].
    apply (f_equal (@rev _)) in Hrev. rewrite rev_involutive in Hrev. exact Hrev.
  - right. exists (rev rp), s0, f0.
    apply (f_equal (@rev _)) in Hrev. rewrite rev_involutive in Hrev.
    cbn [rev] in Hrev. split; [exact Hrev | rewrite rev_involutive; reflexivity].
Qed.

Lemma merge_prev_facts h pre cur :
  let R := merge_prev pre cur in
  let k := if prev_is_free pre then 1 else 0 in
  span R = span pre + HEADER_SIZE + cur /\
  used_sum R = used_sum pre /\
  Z.of_nat (length R) + k = Z.of_nat (length pre) + 1 /\
  count_free R + k = count_free pre + 1 /\
  live_ptrs h R = live_ptrs h pre /\
  (no_adjacent_free false pre -> no_adjacent_free false R) /\
  last_flag false R = true.
Proof.
  unfold merge_prev, prev_is_free.
  destruct (rev_cases pre) as [[-> Hr] | (pre' & s0 & f0 & -> & Hr)]; rewrite Hr.
  - cbn [app span length live_ptrs last_flag no_adjacent_free].
    unfold used_sum, count_free. cbn.
    repeat split; try reflexivity; lia.
  - rewrite rev_involutive. destruct f0.
    + rewrite !span_app, !used_sum_app, !length_app_Z, !count_free_app,
        !live_ptrs_app, !last_flag_app.
      cbn [span length live_ptrs app last_flag].
      rewrite !count_free_cons. unfold used_sum, count_free.
      cbn [sum_sizes is_free_block snd negb filter length].
      repeat split; try reflexivity; try lia.
      rewrite !no_adjacent_free_app. cbn [no_adjacent_free]. tauto.
    + rewrite !span_app, !used_sum_app, !length_app_Z, !count_free_app,
        !live_ptrs_app, !last_flag_app.
      cbn [span length live_ptrs app last_flag].
      rewrite !count_free_cons. unfold used_sum, count_free.
      cbn [sum_sizes is_free_block snd negb filter length fst].
      rewrite !app_nil_r.
      repeat split; try reflexivity; try lia.
      rewrite !no_adjacent_free_app. cbn [no_adjacent_free last_flag].
      rewrite !last_flag_app. cbn [last_flag].
      intros (H1 & H2 & _). repeat split; auto.
Qed.

(** Everything the accounting and G5 need to know about a release. *)
Lemma free_blocks_facts h pre sz post :
  let bs := pre ++ (sz, false) :: post in
  let bs' := free_blocks pre sz post in
  let k := Z.of_nat (merges pre post) in
  used_sum bs' + sz = used_sum bs /\
  Z.of_nat (length bs') + k = Z.of_nat (length bs) /\
  count_free bs' + k = count_free bs + 1 /\
  Permutation ((h + span pre + HEADER_SIZE) :: live_ptrs h bs') (live_ptrs h bs) /\
  (no_adjacent_free false bs -> no_adjacent_free false bs').
Proof.
  intros bs bs' k. unfold bs, bs', k, free_blocks, merges.
  destruct (merge_next_facts (h + span pre) sz post)
    as (N1 & N2 & N3 & N4 & N5 & N6 & _).
  destruct (merge_prev_facts h pre (fst (merge_next sz post)))
    as (P1 & P2 & P3 & P4 & P5 & P6 & P7).
  rewrite !used_sum_app, !length_app_Z, !count_free_app, !live_ptrs_app.
  rewrite P1, P5. cbn [length live_ptrs app]. rewrite count_free_cons, Nat2Z.inj_succ.
  replace (used_sum ((sz, false) :: post)) with (sz + used_sum post) by reflexivity.
  replace (h + (span pre + HEADER_SIZE + fst (merge_next sz post)))
    with (h + span pre + HEADER_SIZE + fst (merge_next sz post)) by lia.
  rewrite N5.
  split; [lia|]. split; [destruct (next_is_free post), (prev_is_free pre); lia|].
  split; [destruct (next_is_free post), (prev_is_free pre); lia|].
  split; [apply Permutation_middle|].
  rewrite !no_adjacent_free_app. cbn [no_adjacent_free]. rewrite P7.
  intros (H1 & _ & H3). split; [apply P6; exact H1 | apply N6; exact H3].
Qed.

(* ================================================================== *)
(** ** The heap invariant *)
(* ================================================================== *)

Lemma used_sum_bound bs :
  Forall (fun b => 0 <= fst b < SIZE_MOD) bs ->
  0 <= used_sum bs /\ used_sum bs + HEADER_SIZE * Z.of_nat (length bs) <= span bs.
Proof.
  unfold used_sum.
  induction 1 as [|[sz fr] bs H _ IH]; cbn [sum_sizes span length fst snd is_free_block] in *.
  - lia.
  - rewrite Nat2Z.inj_succ. unfold HEADER_SIZE in *. destruct fr; cbn [negb]; lia.
Qed.

Lemma Inv_span st bs : Inv st bs -> span bs = heap_size_ (self st).
Proof.
  intros ((_ & _ & _ & _ & Hc) & He & _). apply chain_end in Hc. lia.
Qed.

Lemma Inv_sizes st bs : Inv st bs -> Forall (fun b => 0 <= fst b < SIZE_MOD) bs.
Proof. intros ((_ & _ & _ & _ & Hc) & _). eapply chain_sizes; eauto. Qed.

Lemma initializeHeap_Inv st :
  region_ok (self st) ->
  Inv (initializeHeap st) [(heap_size_ (self st) - HEADER_SIZE, true)].
Proof.
  intros (Hs & He & Hlt & Hsz).
  assert (Hm : header_at (memory (initializeHeap st)) (heap_start_ (self st))
                 (heap_size_ (self st) - HEADER_SIZE) true 0 0).
  { unfold initializeHeap. cbn [memory]. fields. unfold SIZE_MOD in *.
    repeat mem_step. repeat split; reflexivity. }
  unfold Inv, heap_chain, accounting, stats.
  cbn [initializeHeap self heap_start_ heap_end_ heap_size_ free_list_ stats_
       total_heap_size used_memory free_memory block_count free_block_count length].
  destruct Hm as (M1 & M2 & M3 & M4).
  cbn [initializeHeap memory] in M1. rewrite M1.
  repeat split; try assumption; try reflexivity; try discriminate;
    try (unfold HEADER_SIZE in *; lia).
  - cbn [chain]. unfold HEADER_SIZE in *. lia.
  - constructor; [|constructor]. cbn [fst snd]. discriminate.
Qed.

(** Both constructors end in [initializeHeap]; given a usable region they
    return an engine that satisfies the invariant. *)
Lemma construct_sized_Inv host m heap_size :
  0 < host -> host + heap_size < SIZE_MOD -> HEADER_SIZE <= heap_size ->
  exists st,
    construct_sized host m heap_size = inr st /\
    Inv st [(heap_size - HEADER_SIZE, true)].
Proof.
  intros Hh Hlt Hsz. unfold construct_sized.
  replace (host =? 0) with false by (symmetry; apply Z.eqb_neq; lia).
  eexists. split; [reflexivity|].
  apply (initializeHeap_Inv
           (mkState (mkAllocator host (host + heap_size) heap_size 0 zero_stats true) m)).
  unfold region_ok. cbn [self heap_start_ heap_end_ heap_size_]. auto.
Qed.

Lemma construct_adopted_Inv region m size :
  0 < region -> region + size < SIZE_MOD ->
  HEADER_SIZE + MIN_BLOCK_SIZE <= size ->
  exists st,
    construct_adopted region m size = inr st /\
    Inv st [(size - HEADER_SIZE, true)].
Proof.
  intros Hh Hlt Hsz. unfold construct_adopted.
  replace (region =? 0) with false by (symmetry; apply Z.eqb_neq; lia).
  replace (size <? HEADER_SIZE + MIN_BLOCK_SIZE) with false
    by (symmetry; apply Z.ltb_ge; exact Hsz).
  cbn [orb]. eexists. split; [reflexivity|].
  apply (initializeHeap_Inv
           (mkState (mkAllocator region (region + size) size 0 zero_stats false) m)).
  unfold region_ok. cbn [self heap_start_ heap_end_ heap_size_].
  unfold HEADER_SIZE, MIN_BLOCK_SIZE in *. repeat split; lia.
Qed.

Lemma construct_adopted_rejects region m size :
  region = 0 \/ size < HEADER_SIZE + MIN_BLOCK_SIZE ->
  construct_adopted region m size = inl invalid_argument.
Proof.
  intros [->|H]; unfold construct_adopted; [reflexivity|].
  replace (size <? HEADER_SIZE + MIN_BLOCK_SIZE) with true
    by (symmetry; apply Z.ltb_lt; exact H).
  rewrite orb_true_r. reflexivity.
Qed.

Lemma live_min_alloc pre sz post need :
  MIN_BLOCK_SIZE <= need <= sz ->
  live_min (pre ++ (sz, true) :: post) ->
  live_min (pre ++ alloc_blocks need sz ++ post).
Proof.
  unfold live_min. intros Hn H.
  apply Forall_app in H. destruct H as [H1 H2].
  apply Forall_cons_iff in H2. destruct H2 as [_ H2].
  apply Forall_app. split; [exact H1|]. apply Forall_app. split; [|exact H2].
  unfold alloc_blocks. destruct (_ <? _); repeat constructor; cbn [fst snd];
    intros; try discriminate; lia.
Qed.

(** The outcome of [my_malloc] on a well-formed heap: either nothing
    changes and null is returned, or the first fitting block is taken. *)
Lemma my_malloc_Inv st bs size fuel :
  Inv st bs ->
  (length bs + 1 < fuel)%nat ->
  (exists d, my_malloc fuel st size = Some (0, st, d)) \/
  (exists st' pre sz post,
     let need := request_size size in
     let split := negb (sz - need <? HEADER_SIZE + MIN_BLOCK_SIZE) in
     let got := if split then need else sz in
     let bs' := pre ++ alloc_blocks need sz ++ post in
     bs = pre ++ (sz, true) :: post /\
     Forall (fun b => fits need b = false) pre /\
     need <= sz /\
     size <> 0 /\
     my_malloc fuel st size =
       Some (heap_start_ (self st) + span pre + HEADER_SIZE, st', []) /\
     self st' = self (with_stats st (stats_after_alloc (stats st) split got bs')) /\
     same_outside (memory st) (memory st') (heap_start_ (self st) + span pre)
                  (heap_end_ (self st)) /\
     Inv st' bs').
Proof.
  intros HI Hfuel.
  destruct (Z.eq_dec size 0) as [->|Hsize].
  { left. exists []. reflexivity. }
  pose proof HI as (Hhc & Hend & Hlive & Hacc).
  destruct (first_fit_cases (request_size size) bs)
    as [Hnone | (pre & sz & post & Hbs & Hpre & Hle)].
  { left. eexists. apply (my_malloc_none st bs); auto. lia. }
  right. subst bs.
  destruct (my_malloc_found st pre sz post size fuel Hhc Hsize Hfuel Hpre Hle)
    as (st' & Hrun & Hself & Hhc' & Hout).
  exists st', pre, sz, post. cbv zeta.
  split; [reflexivity|]. split; [exact Hpre|]. split; [exact Hle|].
  split; [exact Hsize|]. split; [exact Hrun|]. split; [exact Hself|].
  split; [exact Hout|].
  pose proof (request_size_range size) as Hneed.
  set (need := request_size size) in *.
  set (bs' := pre ++ alloc_blocks need sz ++ post) in *.
  set (got := if negb (sz - need <? HEADER_SIZE + MIN_BLOCK_SIZE) then need else sz) in *.
  assert (Hspan : span bs' = heap_size_ (self st)).
  { destruct Hhc' as (_ & _ & _ & _ & Hc'). apply chain_end in Hc'.
    rewrite Hself in Hc'. cbn [self with_stats heap_start_ heap_end_] in Hc'. lia. }
  assert (Hsz' : Forall (fun b => 0 <= fst b < SIZE_MOD) bs').
  { destruct Hhc' as (_ & _ & _ & _ & Hc'). eapply chain_sizes; eauto. }
  destruct (used_sum_bound _ Hsz') as [Hu0 Hu1].
  assert (Hlen : 1 <= Z.of_nat (length bs')).
  { destruct Hhc' as (_ & _ & _ & Hne & _). destruct bs'; [congruence|].
    cbn [length]. lia. }
  assert (Hused : used_sum bs' = used_sum (pre ++ (sz, true) :: post) + got).
  { unfold bs'. rewrite !used_sum_app, used_sum_alloc_blocks.
    fold got. replace (used_sum ((sz, true) :: post)) with (used_sum post) by reflexivity.
    lia. }
  assert (Hlt : heap_size_ (self st) < SIZE_MOD).
  { destruct Hhc as (Hs & He & _). lia. }
  destruct Hacc as (A1 & A2 & A3 & A4 & A5).
  unfold Inv. split; [exact Hhc'|]. split; [|split].
  - rewrite Hself. cbn [self with_stats heap_start_ heap_end_ heap_size_]. exact Hend.
  - apply live_min_alloc; [lia | exact Hlive].
  - unfold accounting, stats. rewrite Hself.
    cbn [self with_stats stats_ heap_size_ stats_after_alloc
         total_heap_size used_memory free_memory block_count free_block_count].
    fold bs'. unfold stats in *. unfold HEADER_SIZE in *.
    rewrite !wrap_small by lia.
    repeat split; try assumption; try lia.
Qed.

Lemma live_ptrs_in h bs p :
  In p (live_ptrs h bs) ->
  exists pre sz post,
    bs = pre ++ (sz, false) :: post /\ p = h + span pre + HEADER_SIZE.
Proof.
  revert h. induction bs as [|[s f] bs IH]; intros h Hin; [destruct Hin|].
  cbn [live_ptrs] in Hin. apply in_app_or in Hin. destruct Hin as [Hin|Hin].
  - destruct f; [destruct Hin|]. destruct Hin as [<-|[]].
    exists [], s, bs. cbn [app span]. split; [reflexivity | lia].
  - destruct (IH _ Hin) as (pre & sz & post & -> & ->).
    exists ((s, f) :: pre), sz, post. cbn [app span]. split; [reflexivity | lia].
Qed.

Lemma payloads_in h bs p :
  In p (payloads h bs) ->
  exists pre sz f post,
    bs = pre ++ (sz, f) :: post /\ p = h + span pre + HEADER_SIZE.
Proof.
  revert h. induction bs as [|[s f] bs IH]; intros h Hin; [destruct Hin|].
  cbn [payloads] in Hin. destruct Hin as [<-|Hin].
  - exists [], s, f, bs. cbn [app span]. split; [reflexivity | lia].
  - destruct (IH _ Hin) as (pre & sz & f' & post & -> & ->).
    exists ((s, f) :: pre), sz, f', post. cbn [app span]. split; [reflexivity | lia].
Qed.

Lemma free_blocks_Forall (P : block -> Prop) pre sz post :
  (forall x, P (x, true)) ->
  Forall P pre -> Forall P post ->
  Forall P (free_blocks pre sz post).
Proof.
  intros Hfree Hpre Hpost. unfold free_blocks, merge_prev.
  apply Forall_app. split.
  - destruct (rev_cases pre) as [[-> Hr] | (pre' & s0 & f0 & -> & Hr)]; rewrite Hr.
    + repeat constructor. apply Hfree.
    + apply Forall_app in Hpre. destruct Hpre as [Hpre Hlast].
      destruct f0.
      * rewrite rev_involutive. apply Forall_app. split; [exact Hpre|].
        repeat constructor. apply Hfree.
      * apply Forall_app. split; [|repeat constructor; apply Hfree].
        apply Forall_app. split; [exact Hpre|].
        exact Hlast.
  - destruct post as [|[s2 [|]] post']; cbn [merge_next snd]; try assumption.
    apply Forall_cons_iff in Hpost. tauto.
Qed.

Lemma live_min_free pre sz post :
  live_min (pre ++ (sz, false) :: post) -> live_min (free_blocks pre sz post).
Proof.
  unfold live_min. intro H. apply Forall_app in H. destruct H as [H1 H2].
  apply Forall_cons_iff in H2. destruct H2 as [_ H2].
  apply free_blocks_Forall; [cbn [snd]; discriminate | exact H1 | exact H2].
Qed.

Lemma my_free_Inv_live st pre sz post :
  Inv st (pre ++ (sz, false) :: post) ->
  exists st',
    my_free st (heap_start_ (self st) + span pre + HEADER_SIZE) = (st', []) /\
    self st' =
      self (with_stats st
              (Nat.iter (merges pre post) stats_after_merge
                 (stats (updateStatsAfterFree st sz)))) /\
    Inv st' (free_blocks pre sz post).
Proof.
  intros HI. pose proof HI as (Hhc & Hend & Hlive & Hacc).
  assert (Hpos : 0 < sz).
  { unfold live_min in Hlive. apply Forall_app in Hlive. destruct Hlive as [_ H].
    apply Forall_cons_iff in H. destruct H as [H _]. cbn [fst snd] in H.
    specialize (H eq_refl). unfold MIN_BLOCK_SIZE in H. lia. }
  destruct (my_free_live st pre sz post Hhc Hpos) as (st' & Hrun & Hhc' & Hself).
  exists st'. split; [exact Hrun|]. split; [exact Hself|].
  set (bs := pre ++ (sz, false) :: post) in *.
  set (bs' := free_blocks pre sz post) in *.
  destruct (free_blocks_facts (heap_start_ (self st)) pre sz post)
    as (F1 & F2 & F3 & _ & _).
  fold bs bs' in F1, F2, F3.
  assert (Hsz' : Forall (fun b => 0 <= fst b < SIZE_MOD) bs').
  { destruct Hhc' as (_ & _ & _ & _ & Hc'). eapply chain_sizes; eauto. }
  destruct (used_sum_bound _ Hsz') as [Hu0 Hu1].
  assert (Hspan : span bs' = heap_size_ (self st)).
  { destruct Hhc' as (_ & _ & _ & _ & Hc'). apply chain_end in Hc'.
    rewrite Hself in Hc'. cbn [self with_stats heap_start_ heap_end_] in Hc'. lia. }
  assert (Hlen : 1 <= Z.of_nat (length bs')).
  { destruct Hhc' as (_ & _ & _ & Hne & _). destruct bs'; [congruence|].
    cbn [length]. lia. }
  pose proof (count_free_range bs') as Hcf.
  pose proof (heap_chain_length _ _ Hhc) as Hlenz.
  pose proof (count_free_range bs) as Hcf0.
  assert (Hlt : heap_size_ (self st) < SIZE_MOD).
  { destruct Hhc as (Hs & He & _). lia. }
  destruct Hacc as (A1 & A2 & A3 & A4 & A5).
  unfold Inv. split; [exact Hhc'|]. split; [|split].
  - rewrite Hself. cbn [self with_stats heap_start_ heap_end_ heap_size_]. exact Hend.
  - apply live_min_free. exact Hlive.
  - pose proof (span_length _ (Inv_sizes _ _ HI)) as Hsl.
    pose proof (Inv_span _ _ HI) as Hsp0.
    unfold accounting, stats. rewrite Hself. unfold merges in *.
    destruct (next_is_free post), (prev_is_free pre);
      cbn [Nat.add Nat.iter nat_rect];
      unfold updateStatsAfterFree, stats_after_merge, with_stats in *;
      unfold stats in *;
      cbn [self stats_ heap_size_
           total_heap_size used_memory free_memory block_count free_block_count] in *;
      unfold HEADER_SIZE, SIZE_MOD in *;
      repeat match goal with
             | |- context [wrap ?x] => rewrite (wrap_small x) by (unfold SIZE_MOD; lia)
             end;
      repeat split; try assumption; try lia.
Qed.

(* ================================================================== *)
(** ** Concrete engines used as test inputs *)
(* ================================================================== *)

Lemma engine_4096_constructed :
  construct_sized 4096 dirty_memory 4096 = inr engine_4096.
Proof. reflexivity. Qed.

Lemma engine_4096_Inv : Inv engine_4096 [(4064, true)].
Proof.
  apply (initializeHeap_Inv
           (mkState (mkAllocator 4096 (4096 + 4096) 4096 0 zero_stats true)
                    dirty_memory)).
  unfold region_ok, SIZE_MOD, HEADER_SIZE. cbn. lia.
Qed.

(* ================================================================== *)
(** ** Allocation: first fit *)
(* ================================================================== *)

Lemma request_size_max size :
  request_size size = Z.max (alignSize size) MIN_BLOCK_SIZE.
Proof.
  unfold request_size. destruct (Z.ltb_spec (alignSize size) MIN_BLOCK_SIZE); lia.
Qed.

Lemma fits_false_iff need b :
  fits need b = false <-> (snd b = true -> fst b < need).
Proof.
  unfold fits, is_free_block. destruct b as [sz [|]]; cbn [fst snd andb].
  - rewrite Z.leb_gt. tauto.
  - split; [discriminate | reflexivity].
Qed.

Lemma engine_one_block_chain :
  heap_chain engine_one_block [(104, false); (3928, true)].
Proof.
  destruct engine_4096_Inv as (Hhc & _).
  destruct (my_malloc_found engine_4096 [] 4064 [] 100 3%nat Hhc
              ltac:(lia) ltac:(simpl; lia) ltac:(constructor)
              ltac:(vm_compute; discriminate))
    as (st' & Hrun & _ & Hhc' & _).
  unfold engine_one_block. rewrite Hrun. exact Hhc'.
Qed.

Lemma engine_two_blocks_run :
  my_malloc 4 engine_one_block 50 = Some (4264, engine_two_blocks, []).
Proof.
  destruct (my_malloc_found engine_one_block [(104, false)] 3928 [] 50 4%nat
              engine_one_block_chain ltac:(lia) ltac:(simpl; lia))
    as (st' & Hrun & _).
  - constructor; [reflexivity | constructor].
  - vm_compute. discriminate.
  - unfold engine_two_blocks. rewrite Hrun. reflexivity.
Qed.

(** Up to [SIZE_MAX - 7] the code's rounding is the specification's. *)
Lemma request_size_spec_need size :
  0 <= size <= SIZE_MAX - 7 -> request_size size = spec_need size.
Proof.
  intro H. rewrite request_size_max. unfold spec_need, align_8, ALIGNMENT.
  rewrite alignSize_eq.
  rewrite wrap_small by (unfold SIZE_MAX, SIZE_MOD in *; lia).
  replace (size + 8 - 1) with (size + 7) by lia. reflexivity.
Qed.

(** C3, as stated, fails: for the request [SIZE_MAX] the [need] of the
    specification is [2^64], which no block of the fresh 4096-byte engine
    holds, yet [my_malloc] answers the first payload address and prints
    nothing: the rounding wrapped to 0 and 16 bytes were asked for. *)
Lemma C3_counterexample :
  0 < SIZE_MAX /\
  heap_chain engine_4096 [(4064, true)] /\
  Forall (fun b => fits (spec_need SIZE_MAX) b = false) [(4064, true)] /\
  result_ptr (my_malloc 3 engine_4096 SIZE_MAX) = Some 4128 /\
  result_diag (my_malloc 3 engine_4096 SIZE_MAX) = Some [].
Proof.
  split; [reflexivity|]. split; [exact (proj1 engine_4096_Inv)|].
  split; [constructor; [reflexivity | constructor]|].
  split; vm_compute; reflexivity.
Qed.

(** C3, amended: for a request [0 < size <= SIZE_MAX - 7] on a
    well-formed chain, the size [my_malloc] looks for is the [need] of
    the specification, the least multiple of 8 not below [size], raised
    to [MIN_BLOCK_SIZE]; if the chain is [pre ++ (sz, free) :: post]
    where no block of [pre] is free with at least [need] bytes and
    [need <= sz], it returns the payload address of that block and leaves
    its header marked not free; if no block of the chain fits, it returns
    null, prints the out-of-memory diagnostic for [need] and leaves the
    state as it was. *)
Theorem C3_first_fit_allocation :
  forall st bs size fuel,
    heap_chain st bs ->
    0 < size <= SIZE_MAX - 7 ->
    (length bs + 1 < fuel)%nat ->
    let need := spec_need size in
    (if alignSize size <? MIN_BLOCK_SIZE then MIN_BLOCK_SIZE else alignSize size) = need /\
    (forall pre sz post,
        bs = pre ++ (sz, true) :: post ->
        Forall (fun b => fits need b = false) pre ->
        need <= sz ->
        let B := heap_start_ (self st) + span pre in
        exists st',
          my_malloc fuel st size = Some (getData B, st', []) /\
          blk_is_free (memory st) B = true /\
          blk_is_free (memory st') B = false) /\
    (Forall (fun b => fits need b = false) bs ->
     my_malloc fuel st size = Some (0, st, [MallocOutOfMemory need])).
Proof.
  intros st bs size fuel Hhc Hsize Hfuel need.
  assert (Hneed : request_size size = need)
    by (apply request_size_spec_need; lia).
  split; [exact Hneed|]. rewrite <- Hneed. split.
  - intros pre sz post -> Hpre Hle.
    destruct (my_malloc_found st pre sz post size fuel Hhc
                ltac:(lia) Hfuel Hpre Hle) as (st' & Hrun & Hself & Hhc' & _).
    exists st'. split; [exact Hrun|].
    destruct Hhc as (_ & _ & _ & _ & Hc).
    destruct Hhc' as (_ & _ & _ & _ & Hc').
    rewrite Hself in Hc'. cbn [self with_stats heap_start_ heap_end_] in Hc'.
    apply chain_app in Hc; [|discriminate].
    apply chain_app in Hc'; [|apply alloc_blocks_not_nil].
    destruct Hc as (_ & _ & (_ & Hf & _) & _).
    destruct Hc' as (_ & Hc'). split; [exact Hf|].
    unfold alloc_blocks in Hc'.
    destruct (_ <? _); destruct Hc' as (_ & (_ & Hf' & _) & _); exact Hf'.
  - intro Hnone. apply (my_malloc_none st bs); auto; lia.
Qed.

Lemma C3_first_fit_allocation_witness :
  exists st',
    my_malloc 4 engine_one_block 50 =
      Some (getData (4096 + span [(104, false)]), st', []) /\
    blk_is_free (memory engine_one_block) (4096 + span [(104, false)]) = true /\
    blk_is_free (memory st') (4096 + span [(104, false)]) = false.
Proof.
  destruct (C3_first_fit_allocation engine_one_block [(104, false); (3928, true)]
              50 4%nat engine_one_block_chain)
    as (_ & Hfound & _).
  - unfold SIZE_MAX, SIZE_MOD. lia.
  - simpl. lia.
  - apply (Hfound [(104, false)] 3928 []).
    + reflexivity.
    + constructor; [reflexivity | constructor].
    + vm_compute. discriminate.
Defined.

(** C5: when no free block of the chain has at least [need] bytes,
    [my_malloc] returns null and the whole state -- allocator fields,
    counters and every byte of memory, hence every header -- is the one
    it was called with. *)
Theorem C5_out_of_memory_leaves_state :
  forall st bs size fuel,
    heap_chain st bs ->
    0 < size ->
    (length bs < fuel)%nat ->
    Forall (fun b => snd b = true -> fst b < request_size size) bs ->
    exists d, my_malloc fuel st size = Some (0, st, d).
Proof.
  intros st bs size fuel Hhc Hsize Hfuel Hnone.
  eexists. apply (my_malloc_none st bs); auto; [lia|].
  eapply Forall_impl; [|exact Hnone]. intros b Hb. apply fits_false_iff. exact Hb.
Qed.

Lemma C5_out_of_memory_leaves_state_witness :
  exists d, my_malloc 2 engine_4096 5000 = Some (0, engine_4096, d).
Proof.
  destruct engine_4096_Inv as (Hhc & _).
  apply (C5_out_of_memory_leaves_state engine_4096 [(4064, true)] 5000 2%nat Hhc).
  - lia.
  - simpl; lia.
  - constructor; [|constructor]. cbn [fst snd]. intros _. vm_compute. reflexivity.
Defined.

(* ================================================================== *)
(** ** Release: the guards *)
(* ================================================================== *)

Lemma my_free_guarded st ptr :
  ptr = 0 \/
  isValidPointer (self st) ptr = false \/
  blk_is_free (memory st) (fromData ptr) = true ->
  fst (my_free st ptr) = st.
Proof.
  intros H. unfold my_free.
  destruct (Z.eqb_spec ptr 0) as [E|NE]; [reflexivity|].
  destruct (isValidPointer (self st) ptr) eqn:V; cbn [negb]; [|reflexivity].
  destruct H as [H|[H|H]]; [contradiction | discriminate |].
  rewrite H. reflexivity.
Qed.

(** C4: [my_free] returns with the state untouched whenever the pointer
    is null, or fails the range check (one [FreeInvalidPointer] line), or
    the header recovered from it is already marked free (one
    [FreeDoubleFree] line); only a non-null, in-range pointer whose header
    is not free gets past the guards. *)
Theorem C4_free_guards :
  forall st ptr,
    ptr = 0 \/
    isValidPointer (self st) ptr = false \/
    blk_is_free (memory st) (fromData ptr) = true ->
    my_free st ptr =
    (st,
     if ptr =? 0 then []
     else if isValidPointer (self st) ptr then [FreeDoubleFree]
          else [FreeInvalidPointer]).
Proof.
  intros st ptr H. unfold my_free.
  destruct (Z.eqb_spec ptr 0) as [E|NE]; [reflexivity|].
  destruct (isValidPointer (self st) ptr) eqn:V; cbn [negb]; [|reflexivity].
  destruct H as [H|[H|H]]; [contradiction | discriminate |].
  rewrite H. reflexivity.
Qed.

Lemma C4_free_guards_witness :
  my_free engine_4096 0 = (engine_4096, []) /\
  my_free engine_4096 5000000 = (engine_4096, [FreeInvalidPointer]) /\
  my_free engine_4096 4128 = (engine_4096, [FreeDoubleFree]).
Proof.
  split; [|split].
  - apply (C4_free_guards engine_4096 0). left. reflexivity.
  - apply (C4_free_guards engine_4096 5000000). right. left. reflexivity.
  - apply (C4_free_guards engine_4096 4128). right. right. vm_compute. reflexivity.
Defined.

(* ================================================================== *)
(** ** Reallocation that fits in place *)
(* ================================================================== *)

(** C7: for a non-null pointer that passes the range check and a request
    [new_size > 0] whose aligned size is at most the size stored in the
    block's header, [my_realloc] returns the same pointer, prints nothing
    and returns the very state it was given: no split, no header write,
    no counter update. *)
Theorem C7_realloc_fits_in_place :
  forall fuel st p new_size,
    p <> 0 ->
    isValidPointer (self st) p = true ->
    0 < new_size ->
    alignSize new_size <= blk_size (memory st) (fromData p) ->
    my_realloc fuel st p new_size = Some (p, st, []).
Proof.
  intros fuel st p new_size Hp Hv Hn Hfit. unfold my_realloc.
  replace (p =? 0) with false by (symmetry; apply Z.eqb_neq; exact Hp).
  replace (new_size =? 0) with false by (symmetry; apply Z.eqb_neq; lia).
  rewrite Hv. cbn [negb].
  replace (alignSize new_size <=? blk_size (memory st) (fromData p)) with true
    by (symmetry; apply Z.leb_le; exact Hfit).
  reflexivity.
Qed.

Lemma C7_realloc_fits_in_place_witness :
  my_realloc 0 engine_one_block 4128 60 = Some (4128, engine_one_block, []).
Proof.
  apply (C7_realloc_fits_in_place 0 engine_one_block 4128 60).
  - lia.
  - reflexivity.
  - lia.
  - vm_compute. discriminate.
Defined.

(* ================================================================== *)
(** ** Requests close to [SIZE_MAX] *)
(* ================================================================== *)

Lemma alignSize_wraps size :
  SIZE_MAX - 7 < size <= SIZE_MAX -> alignSize size = 0.
Proof.
  intro H. rewrite alignSize_eq. unfold SIZE_MAX, wrap, SIZE_MOD in *.
  replace ((size + 7) mod 2 ^ 64) with (size + 7 - 2 ^ 64).
  - rewrite Z.div_small by lia. reflexivity.
  - apply Z.mod_unique with (q := 1); lia.
Qed.

(** C9: for every request in [(SIZE_MAX - 7, SIZE_MAX]] the alignment
    wraps to [0], so [my_malloc] looks for [MIN_BLOCK_SIZE = 16] bytes and
    behaves exactly as for a request of 16; on a freshly initialised
    region of at least 96 bytes it succeeds and hands out the first
    block, whose payload is 16 bytes. *)
Theorem C9_near_max_request_wraps :
  forall size,
    SIZE_MAX - 7 < size <= SIZE_MAX ->
    alignSize size = 0 /\
    request_size size = MIN_BLOCK_SIZE /\
    (forall fuel st, my_malloc fuel st size = my_malloc fuel st MIN_BLOCK_SIZE) /\
    (forall st,
        region_ok (self st) ->
        3 * (HEADER_SIZE) <= heap_size_ (self st) ->
        exists st',
          my_malloc 3 (initializeHeap st) size =
            Some (getData (heap_start_ (self st)), st', []) /\
          blk_size (memory st') (heap_start_ (self st)) = MIN_BLOCK_SIZE /\
          blk_is_free (memory st') (heap_start_ (self st)) = false).
Proof.
  intros size H.
  pose proof (alignSize_wraps size H) as Ha.
  assert (Hr : request_size size = MIN_BLOCK_SIZE).
  { unfold request_size. rewrite Ha. reflexivity. }
  split; [exact Ha|]. split; [exact Hr|]. split.
  - intros fuel st. unfold my_malloc.
    replace (size =? 0) with false
      by (symmetry; apply Z.eqb_neq; unfold SIZE_MAX, SIZE_MOD in H; lia).
    rewrite Ha. reflexivity.
  - intros st Hreg Hbig.
    destruct (initializeHeap_Inv st Hreg) as (Hhc & _).
    set (st0 := initializeHeap st) in *.
    set (sz := heap_size_ (self st) - HEADER_SIZE) in *.
    assert (Hsize : size <> 0) by (unfold SIZE_MAX, SIZE_MOD in H; lia).
    assert (Hle : request_size size <= sz)
      by (rewrite Hr; unfold sz, MIN_BLOCK_SIZE, HEADER_SIZE in *; lia).
    destruct (my_malloc_found st0 [] sz [] size 3%nat Hhc Hsize
                ltac:(simpl; lia) ltac:(constructor) Hle)
      as (st' & Hrun & Hself & Hhc' & _).
    cbn [span] in Hrun. rewrite Z.add_0_r in Hrun.
    exists st'. split; [exact Hrun|].
    destruct Hhc' as (_ & _ & _ & _ & Hc').
    rewrite Hself in Hc'. cbn [self with_stats heap_start_ heap_end_ app span] in Hc'.
    unfold alloc_blocks in Hc'. rewrite Hr in Hc'.
    replace (sz - MIN_BLOCK_SIZE <? HEADER_SIZE + MIN_BLOCK_SIZE) with false in Hc'
      by (symmetry; apply Z.ltb_ge; unfold sz, MIN_BLOCK_SIZE, HEADER_SIZE in *; lia).
    destruct Hc' as (_ & (H1 & H2 & _) & _).
    change (heap_start_ (self st0)) with (heap_start_ (self st)) in H1, H2.
    split; assumption.
Qed.

Lemma C9_near_max_request_wraps_witness :
  alignSize SIZE_MAX = 0 /\
  request_size SIZE_MAX = MIN_BLOCK_SIZE /\
  my_malloc 3 engine_4096 SIZE_MAX = my_malloc 3 engine_4096 MIN_BLOCK_SIZE /\
  exists st',
    my_malloc 3 engine_4096 SIZE_MAX = Some (getData 4096, st', []) /\
    blk_size (memory st') 4096 = MIN_BLOCK_SIZE /\
    blk_is_free (memory st') 4096 = false.
Proof.
  destruct (C9_near_max_request_wraps SIZE_MAX) as (H1 & H2 & H3 & H4).
  - unfold SIZE_MAX, SIZE_MOD. lia.
  - split; [exact H1|]. split; [exact H2|]. split; [apply H3|].
    apply (H4 (mkState (mkAllocator 4096 (4096 + 4096) 4096 0 zero_stats true)
                       dirty_memory)).
    + unfold region_ok, SIZE_MOD, HEADER_SIZE. cbn. lia.
    + unfold HEADER_SIZE. cbn. lia.
Defined.

(* ================================================================== *)
(** ** Move operations *)
(* ================================================================== *)

(** C8, as stated, fails: the source of a move construction keeps its
    counters (here [block_count = 1]). *)
Lemma C8_counterexample :
  ~ inert (snd (move_construct (self engine_4096))).
Proof.
  intros (_ & _ & _ & _ & (_ & _ & _ & _ & _ & H & _)).
  vm_compute in H. discriminate.
Qed.

(** C8, amended: after move construction, and after move assignment from
    a different object, the moved-from allocator has null [heap_start_],
    [heap_end_] and [free_list_] and does not own memory, while its
    counters and [heap_size_] are the ones it had; the destination holds
    the source's former fields; a self move assignment changes nothing. *)
Theorem C8_moved_from_is_emptied :
  (forall other,
      emptied other (snd (move_construct other)) /\
      fst (move_construct other) = other) /\
  (forall s this other,
      this <> other ->
      emptied (s other) (fst (move_assign s this other) other) /\
      fst (move_assign s this other) this = s other) /\
  (forall s k, move_assign s k k = (s, [])).
Proof.
  split; [|split].
  - intro other. split; [|destruct other; reflexivity].
    unfold emptied. cbn. repeat split; reflexivity.
  - intros s this other Hne. unfold move_assign.
    replace (Nat.eqb this other) with false by (symmetry; apply Nat.eqb_neq; exact Hne).
    cbn [fst]. unfold put, emptied, moved_from.
    rewrite !Nat.eqb_refl.
    replace (Nat.eqb other this) with false
      by (symmetry; apply Nat.eqb_neq; intro E; apply Hne; symmetry; exact E).
    replace (Nat.eqb this other) with false by (symmetry; apply Nat.eqb_neq; exact Hne).
    cbn. split; [repeat split; reflexivity | destruct (s other); reflexivity].
  - intros s k. unfold move_assign. rewrite Nat.eqb_refl. reflexivity.
Qed.

Lemma C8_moved_from_is_emptied_witness :
  let s := fun k : nat => match k with
                          | O => self engine_4096
                          | _ => mkAllocator 0 0 0 0 zero_stats false
                          end in
  emptied (s 0%nat) (fst (move_assign s 1 0) 0%nat) /\
  fst (move_assign s 1 0) 1%nat = s 0%nat.
Proof.
  intro s.
  destruct C8_moved_from_is_emptied as (_ & H & _).
  apply (H s 1%nat 0%nat). discriminate.
Defined.

(* ================================================================== *)
(** ** Zeroed allocation *)
(* ================================================================== *)




(* ================================================================== *)
(** ** Recounting the chain *)
(* ================================================================== *)

Lemma wrap_drift_sub a d : wrap (wrap (a + d) - 1) = wrap (wrap (a - 1) + d).
Proof. rewrite wrap_sub_l, wrap_add_l. f_equal. lia. Qed.

Lemma wrap_drift_add a d : wrap (wrap (a + d) + 1) = wrap (wrap (a + 1) + d).
Proof. rewrite !wrap_add_l. f_equal. lia. Qed.

Lemma drift_stats_after_merge d1 d2 st m :
  with_stats (with_memory (drift d1 d2 st) m)
             (stats_after_merge (stats (drift d1 d2 st))) =
  drift d1 d2 (with_stats (with_memory st m) (stats_after_merge (stats st))).
Proof.
  unfold drift, with_stats, with_memory, stats, stats_after_merge.
  cbn [memory self stats_ heap_start_ heap_end_ heap_size_ free_list_ owns_memory_
       total_heap_size used_memory free_memory total_allocations total_frees
       block_count free_block_count coalesce_count split_count].
  rewrite !wrap_drift_sub. reflexivity.
Qed.

Lemma coalesce_next_drift d1 d2 st block :
  coalesce_next (drift d1 d2 st) block = drift d1 d2 (coalesce_next st block).
Proof.
  unfold coalesce_next. change (memory (drift d1 d2 st)) with (memory st).
  destruct (negb _ && _); [|reflexivity].
  cbv zeta. apply drift_stats_after_merge.
Qed.

Lemma coalesce_prev_drift d1 d2 st block :
  coalesce_prev (drift d1 d2 st) block =
  (drift d1 d2 (fst (coalesce_prev st block)), snd (coalesce_prev st block)).
Proof.
  unfold coalesce_prev. change (memory (drift d1 d2 st)) with (memory st).
  destruct (negb _ && _); [|reflexivity].
  cbv zeta. cbn [fst snd]. rewrite drift_stats_after_merge. reflexivity.
Qed.

Lemma updateStatsAfterFree_drift d1 d2 st size :
  updateStatsAfterFree (drift d1 d2 st) size =
  drift d1 d2 (updateStatsAfterFree st size).
Proof.
  unfold drift, updateStatsAfterFree, with_stats, stats.
  cbn [memory self stats_ heap_start_ heap_end_ heap_size_ free_list_ owns_memory_
       total_heap_size used_memory free_memory total_allocations total_frees
       block_count free_block_count coalesce_count split_count].
  rewrite wrap_drift_add. reflexivity.
Qed.

Lemma my_free_drift st ptr d1 d2 :
  my_free (drift d1 d2 st) ptr =
  (drift d1 d2 (fst (my_free st ptr)), snd (my_free st ptr)).
Proof.
  unfold my_free.
  change (isValidPointer (self (drift d1 d2 st)) ptr)
    with (isValidPointer (self st) ptr).
  change (memory (drift d1 d2 st)) with (memory st).
  destruct (ptr =? 0); [reflexivity|].
  destruct (negb _); [reflexivity|].
  destruct (blk_is_free (memory st) (fromData ptr)); [reflexivity|].
  cbv zeta. rewrite updateStatsAfterFree_drift.
  change (memory (drift d1 d2 (updateStatsAfterFree st (blk_size (memory st) (fromData ptr)))))
    with (memory st).
  change (memory (updateStatsAfterFree st (blk_size (memory st) (fromData ptr))))
    with (memory st).
  set (st1 := updateStatsAfterFree st (blk_size (memory st) (fromData ptr))).
  change (with_memory (drift d1 d2 st1) (set_is_free (memory st) (fromData ptr) true))
    with (drift d1 d2 (with_memory st1 (set_is_free (memory st) (fromData ptr) true))).
  rewrite !coalesceBlock_halves, coalesce_next_drift, coalesce_prev_drift.
  reflexivity.
Qed.

Lemma my_realloc_grows st ptr new_size :
  grows_in_place st ptr new_size = true ->
  exists st',
    (forall fuel, my_realloc fuel st ptr new_size = Some (ptr, st', [])) /\
    (forall fuel d1 d2,
        my_realloc fuel (drift d1 d2 st) ptr new_size =
        Some (ptr, drift d1 d2 st', [])).
Proof.
  unfold grows_in_place. intro H.
  repeat (apply andb_true_iff in H; destruct H as [H ?]).
  match goal with H1 : (negb _ && blk_is_free _ _) = true |- _ => rename H1 into Hnext end.
  match goal with H1 : (alignSize _ <=? wrap _) = true |- _ => rename H1 into Hcomb end.
  match goal with H1 : negb (alignSize _ <=? _) = true |- _ => rename H1 into Hbig end.
  match goal with H1 : isValidPointer _ _ = true |- _ => rename H1 into Hvalid end.
  match goal with H1 : negb (new_size =? 0) = true |- _ => rename H1 into Hn end.
  apply negb_true_iff in H, Hn, Hbig.
  eexists. split.
  - intro fuel. unfold my_realloc.
    rewrite H, Hn, Hvalid. cbn [negb]. rewrite Hbig, Hnext, Hcomb. reflexivity.
  - intros fuel d1 d2. unfold my_realloc.
    change (self (drift d1 d2 st)) with
      (mkAllocator (heap_start_ (self st)) (heap_end_ (self st)) (heap_size_ (self st))
                   (free_list_ (self st)) (stats (drift d1 d2 st)) (owns_memory_ (self st))).
    change (memory (drift d1 d2 st)) with (memory st).
    unfold isValidPointer in *. cbn [heap_start_ heap_end_].
    rewrite H, Hn, Hvalid. cbn [negb]. rewrite Hbig, Hnext, Hcomb.
    unfold drift, with_stats, with_memory, stats, stats_after_expand.
    cbn [memory self stats_ heap_start_ heap_end_ heap_size_ free_list_ owns_memory_
         total_heap_size used_memory free_memory total_allocations total_frees
         block_count free_block_count coalesce_count split_count].
    rewrite !wrap_drift_sub. reflexivity.
Qed.

(** A chain read from memory describes one list only. *)
Lemma chain_unique m pv a bs1 bs2 e :
  chain m pv a bs1 e -> chain m pv a bs2 e ->
  cursor a bs1 = cursor a bs2 -> bs1 = bs2.
Proof.
  revert pv a bs2. induction bs1 as [|[s1 f1] bs1 IH]; intros pv a bs2 H1 H2 Hcur.
  - destruct bs2 as [|[s2 f2] bs2]; [reflexivity|].
    destruct H2 as (Ha & _). cbn [cursor] in Hcur. lia.
  - destruct bs2 as [|[s2 f2] bs2].
    + destruct H1 as (Ha & _). cbn [cursor] in Hcur. lia.
    + destruct H1 as (_ & (A1 & A2 & A3 & _) & H1).
      destruct H2 as (_ & (B1 & B2 & B3 & _) & H2).
      assert (E1 : s2 = s1) by congruence. assert (E2 : f2 = f1) by congruence.
      rewrite E1, E2 in *. f_equal.
      apply (IH a (a + HEADER_SIZE + s1)); auto. congruence.
Qed.

Lemma heap_chain_unique st bs1 bs2 :
  heap_chain st bs1 -> heap_chain st bs2 -> bs1 = bs2.
Proof.
  intros (_ & _ & _ & N1 & H1) (_ & _ & _ & N2 & H2).
  eapply chain_unique; eauto.
  destruct bs1; [congruence|]. destruct bs2; [congruence|]. reflexivity.
Qed.

(** Outside the grow-in-place branch, a growing [my_realloc] is a
    [my_malloc] of the aligned size, a copy and a [my_free]. *)
Lemma my_realloc_relocates fuel st ptr new_size :
  ptr <> 0 -> new_size <> 0 ->
  isValidPointer (self st) ptr = true ->
  blk_size (memory st) (fromData ptr) < alignSize new_size ->
  grows_in_place st ptr new_size = false ->
  my_realloc fuel st ptr new_size =
  match my_malloc fuel st (alignSize new_size) with
  | None => None
  | Some (q, st1, d) =>
      if q =? 0 then Some (0, st1, d)
      else
        let st2 := with_memory st1
                     (memcpy (memory st1) q ptr (blk_size (memory st) (fromData ptr))) in
        Some (q, fst (my_free st2 ptr), d ++ snd (my_free st2 ptr))
  end.
Proof.
  intros NE NE0 Hvalid Hbig Hgrow. unfold my_realloc.
  replace (ptr =? 0) with false by (symmetry; apply Z.eqb_neq; exact NE).
  replace (new_size =? 0) with false by (symmetry; apply Z.eqb_neq; exact NE0).
  rewrite Hvalid. cbn [negb].
  replace (alignSize new_size <=? blk_size (memory st) (fromData ptr)) with false
    by (symmetry; apply Z.leb_gt; exact Hbig).
  unfold grows_in_place in Hgrow. rewrite Hvalid in Hgrow.
  replace (ptr =? 0) with false in Hgrow by (symmetry; apply Z.eqb_neq; exact NE).
  replace (new_size =? 0) with false in Hgrow by (symmetry; apply Z.eqb_neq; exact NE0).
  replace (alignSize new_size <=? blk_size (memory st) (fromData ptr)) with false in Hgrow
    by (symmetry; apply Z.leb_gt; exact Hbig).
  cbn [negb andb] in Hgrow. cbv zeta.
  assert (Hm : forall r : option (Z * State * list Diag),
             (match r with
             | Some (new_ptr, st0, d) =>
                 if new_ptr =? 0 then Some (0, st0, d)
                 else let '(st1, d') :=
                        my_free (with_memory st0
                                   (memcpy (memory st0) new_ptr ptr
                                      (blk_size (memory st) (fromData ptr)))) ptr in
                      Some (new_ptr, st1, d ++ d')
             | None => None
             end) =
             match r with
             | Some (q, st1, d) =>
                 if q =? 0 then Some (0, st1, d)
                 else Some (q,
                            fst (my_free (with_memory st1
                                   (memcpy (memory st1) q ptr
                                      (blk_size (memory st) (fromData ptr)))) ptr),
                            d ++ snd (my_free (with_memory st1
                                   (memcpy (memory st1) q ptr
                                      (blk_size (memory st) (fromData ptr)))) ptr))
             | None => None
             end).
  { intros [[[q st1] d]|]; [|reflexivity].
    destruct (q =? 0); [reflexivity|].
    destruct (my_free _ ptr); reflexivity. }
  rewrite <- Hm.
  destruct (negb (blk_next (memory st) (fromData ptr) =? 0) &&
            blk_is_free (memory st) (blk_next (memory st) (fromData ptr)));
    [|reflexivity].
  cbn [andb] in Hgrow. rewrite Hgrow. reflexivity.
Qed.

(** C10: whatever [block_count] and [free_block_count] held before, a
    [my_malloc] on a well-formed chain returns, and when it succeeds it
    leaves the two counters equal to the number of blocks and of free
    blocks of the chain it leaves; the relocating [my_realloc] allocates
    through that same [my_malloc]; [my_free] and the grow-in-place branch
    of [my_realloc] only add to or subtract from the two counters, so an
    error [d1], [d2] in them before the call is still there after it, and
    the grow-in-place branch needs no fuel for a walk. *)
Theorem C10_recount_on_allocation_only :
  (forall st bs size fuel,
      heap_chain st bs ->
      (length bs + 1 < fuel)%nat ->
      (exists r, my_malloc fuel st size = Some r) /\
      forall p st' d,
        my_malloc fuel st size = Some (p, st', d) ->
        p <> 0 ->
        exists bs',
          heap_chain st' bs' /\
          block_count (stats st') = Z.of_nat (length bs') /\
          free_block_count (stats st') = count_free bs') /\
  (forall fuel st ptr new_size,
      ptr <> 0 -> new_size <> 0 ->
      isValidPointer (self st) ptr = true ->
      blk_size (memory st) (fromData ptr) < alignSize new_size ->
      grows_in_place st ptr new_size = false ->
      my_realloc fuel st ptr new_size =
      match my_malloc fuel st (alignSize new_size) with
      | None => None
      | Some (q, st1, d) =>
          if q =? 0 then Some (0, st1, d)
          else
            let st2 := with_memory st1
                         (memcpy (memory st1) q ptr
                                 (blk_size (memory st) (fromData ptr))) in
            Some (q, fst (my_free st2 ptr), d ++ snd (my_free st2 ptr))
      end) /\
  (forall st ptr d1 d2,
      my_free (drift d1 d2 st) ptr =
      (drift d1 d2 (fst (my_free st ptr)), snd (my_free st ptr))) /\
  (forall st ptr new_size,
      grows_in_place st ptr new_size = true ->
      exists st',
        my_realloc 0 st ptr new_size = Some (ptr, st', []) /\
        forall d1 d2,
          my_realloc 0 (drift d1 d2 st) ptr new_size =
          Some (ptr, drift d1 d2 st', [])).
Proof.
  split; [|split; [|split]].
  - intros st bs size fuel Hhc Hfuel.
    destruct (Z.eq_dec size 0) as [->|Hsize].
    { split; [eexists; reflexivity|]. intros p st' d Hrun Hp.
      unfold my_malloc in Hrun. cbn [Z.eqb] in Hrun. inversion Hrun. congruence. }
    destruct (first_fit_cases (request_size size) bs)
      as [Hnone | (pre & sz & post & -> & Hpre & Hle)].
    { pose proof (my_malloc_none st bs size fuel Hhc Hsize ltac:(lia) Hnone) as Hrun0.
      split; [eexists; exact Hrun0|]. intros p st' d Hrun Hp.
      rewrite Hrun0 in Hrun. inversion Hrun. congruence. }
    destruct (my_malloc_found st pre sz post size fuel Hhc Hsize Hfuel Hpre Hle)
      as (st1 & Hrun1 & Hself & Hhc' & _).
    split; [eexists; exact Hrun1|]. intros p st' d Hrun Hp.
    rewrite Hrun1 in Hrun. inversion Hrun; subst.
    eexists. split; [exact Hhc'|].
    unfold stats. rewrite Hself.
    cbn [self with_stats stats_ stats_after_alloc block_count free_block_count].
    split; reflexivity.
  - apply my_realloc_relocates.
  - apply my_free_drift.
  - intros st ptr new_size H.
    destruct (my_realloc_grows st ptr new_size H) as (st' & H1 & H2).
    exists st'. split; [apply H1 | intros; apply H2].
Qed.

Lemma C10_recount_on_allocation_only_witness :
  block_count (stats engine_drifted) = 7 /\
  exists p st' d bs',
    my_malloc 4 engine_drifted 50 = Some (p, st', d) /\
    heap_chain st' bs' /\
    block_count (stats st') = Z.of_nat (length bs') /\
    free_block_count (stats st') = count_free bs'.
Proof.
  split; [reflexivity|].
  assert (Hhc : heap_chain engine_drifted [(104, false); (3928, true)]).
  { exact engine_one_block_chain. }
  assert (Hptr : result_ptr (my_malloc 4 engine_drifted 50) = Some 4264)
    by (vm_compute; reflexivity).
  destruct (my_malloc 4 engine_drifted 50) as [[[p st'] d]|] eqn:Hrun; [|discriminate].
  assert (Hp : p <> 0) by (cbn in Hptr; inversion Hptr; lia).
  destruct C10_recount_on_allocation_only as (H & _).
  destruct (H engine_drifted _ 50 4%nat Hhc ltac:(simpl; lia)) as (_ & H').
  destruct (H' p st' d Hrun Hp) as (bs' & H1 & H2 & H3).
  exists p, st', d, bs'.
  split; [reflexivity|]. split; [exact H1|]. split; assumption.
Defined.

(* ================================================================== *)
(** ** The accounting invariant across the public operations *)
(* ================================================================== *)

Lemma chain_block_header m pv a pre sz f post e :
  chain m pv a (pre ++ (sz, f) :: post) e ->
  blk_size m (a + span pre) = sz /\ blk_is_free m (a + span pre) = f.
Proof.
  intro Hc. apply chain_app in Hc; [|discriminate].
  destruct Hc as (_ & _ & (H1 & H2 & _) & _). split; assumption.
Qed.

(** Writing inside the payload of a block leaves the chain alone. *)
Lemma chain_payload_write m m' pv a pre sz f post e :
  chain m pv a (pre ++ (sz, f) :: post) e ->
  same_outside m m' (a + span pre + HEADER_SIZE) (a + span pre + HEADER_SIZE + sz) ->
  chain m' pv a (pre ++ (sz, f) :: post) e.
Proof.
  intros Hc Hout.
  pose proof (chain_sizes _ _ _ _ _ Hc) as Hsz.
  apply Forall_app in Hsz. destruct Hsz as [Hszpre Hsz].
  apply Forall_cons_iff in Hsz. destruct Hsz as [Hz Hszpost]. cbn [fst] in Hz.
  pose proof (span_nonneg _ Hszpre) as Hp0.
  apply chain_app in Hc; [|discriminate]. destruct Hc as (Hseg & Ha & Hh & Hc).
  apply chain_app; [discriminate|]. split.
  - eapply seg_frame; [exact Hseg | exact Hout | unfold HEADER_SIZE; lia].
  - split; [exact Ha|]. split.
    + eapply header_at_frame; [exact Hh | exact Hout | lia].
    + eapply chain_frame; [exact Hc | exact Hout | lia].
Qed.

Lemma Inv_payload_write st pre sz f post m' :
  Inv st (pre ++ (sz, f) :: post) ->
  same_outside (memory st) m'
    (heap_start_ (self st) + span pre + HEADER_SIZE)
    (heap_start_ (self st) + span pre + HEADER_SIZE + sz) ->
  Inv (with_memory st m') (pre ++ (sz, f) :: post).
Proof.
  intros ((Hs & He & Hfl & Hne & Hc) & Hend & Hlive & Hacc) Hout.
  unfold Inv, heap_chain. cbn [with_memory self memory].
  repeat (split; [assumption|]).
  split; [|split; [assumption|split; assumption]].
  split; [assumption|]. split; [assumption|]. split; [assumption|]. split; [assumption|].
  eapply chain_payload_write; eauto.
Qed.

Lemma Inv_region st bs : Inv st bs -> region_ok (self st).
Proof.
  intros HI. pose proof (Inv_span _ _ HI) as Hsp.
  pose proof (span_length _ (Inv_sizes _ _ HI)) as Hl.
  destruct HI as ((Hs & He & _ & Hne & _) & Hend & _).
  unfold region_ok. repeat split; try assumption.
  destruct bs; [congruence|]. cbn [length] in Hl. unfold HEADER_SIZE in *. lia.
Qed.

Lemma my_free_Inv st bs ptr :
  Inv st bs ->
  ptr = 0 \/ isValidPointer (self st) ptr = false \/
  In ptr (payloads (heap_start_ (self st)) bs) ->
  exists bs', Inv (fst (my_free st ptr)) bs'.
Proof.
  intros HI [H|[H|H]].
  - rewrite my_free_guarded by auto. exists bs. exact HI.
  - rewrite my_free_guarded by auto. exists bs. exact HI.
  - destruct (payloads_in _ _ _ H) as (pre & sz & f & post & -> & ->).
    destruct f.
    + rewrite my_free_guarded; [eexists; exact HI|].
      right. right. destruct HI as ((_ & _ & _ & _ & Hc) & _).
      replace (fromData (heap_start_ (self st) + span pre + HEADER_SIZE))
        with (heap_start_ (self st) + span pre) by (unfold fromData; lia).
      apply (chain_block_header _ _ _ _ _ _ _ _ Hc).
    + destruct (my_free_Inv_live st pre sz post HI) as (st' & Hrun & _ & HI').
      rewrite Hrun. eexists. exact HI'.
Qed.

Lemma alignSize_ge x : 0 <= x <= SIZE_MAX - 7 -> x <= alignSize x.
Proof.
  intro H. rewrite alignSize_eq.
  rewrite wrap_small by (unfold SIZE_MAX, SIZE_MOD in *; lia).
  pose proof (Z.div_mod (x + 7) 8 ltac:(lia)).
  pose proof (Z.mod_pos_bound (x + 7) 8 ltac:(lia)). lia.
Qed.

Lemma alignSize_bound x : alignSize x <= SIZE_MAX - 7.
Proof.
  rewrite alignSize_eq. pose proof (wrap_range (x + 7)) as H.
  unfold SIZE_MAX, SIZE_MOD in *.
  pose proof (Z.div_lt_upper_bound (wrap (x + 7)) 8 (2 ^ 61) ltac:(lia) ltac:(lia)).
  lia.
Qed.

Lemma alignSize_idem x : alignSize (alignSize x) = alignSize x.
Proof.
  pose proof (alignSize_bound x) as Hb. pose proof (alignSize_range x) as Hr.
  rewrite (alignSize_eq (alignSize x)).
  rewrite wrap_small by (unfold SIZE_MAX, SIZE_MOD in *; lia).
  rewrite (alignSize_eq x) at 1 2.
  set (q := wrap (x + 7) / 8).
  replace (8 * q + 7) with (q * 8 + 7) by lia.
  rewrite Z.div_add_l by lia. change (7 / 8) with 0. lia.
Qed.

Lemma live_ptrs_payloads h bs p :
  In p (live_ptrs h bs) -> In p (payloads h bs).
Proof.
  revert h. induction bs as [|[s f] bs IH]; intros h Hin; [destruct Hin|].
  cbn [live_ptrs payloads] in *. apply in_app_or in Hin. destruct Hin as [Hin|Hin].
  - destruct f; [destruct Hin|]. destruct Hin as [<-|[]]. left. reflexivity.
  - right. apply IH. exact Hin.
Qed.

(** The block [my_malloc] hands out, as the head of what replaces the
    chosen free block. *)
Lemma alloc_blocks_head need sz :
  exists tail,
    alloc_blocks need sz =
    ((if negb (sz - need <? HEADER_SIZE + MIN_BLOCK_SIZE) then need else sz), false)
      :: tail.
Proof.
  unfold alloc_blocks. destruct (_ <? _); cbn [negb]; eexists; reflexivity.
Qed.

(** A successful [my_malloc] followed by a write of at most [n] bytes,
    [n] no larger than the request, at the returned pointer. *)
Lemma my_malloc_then_fill st bs size fuel n :
  Inv st bs ->
  (length bs + 1 < fuel)%nat ->
  0 <= n <= request_size size ->
  (exists d, my_malloc fuel st size = Some (0, st, d)) \/
  (exists p st' d bs',
      my_malloc fuel st size = Some (p, st', d) /\ p <> 0 /\
      Inv st' bs' /\
      heap_start_ (self st') = heap_start_ (self st) /\
      Permutation (p :: live_ptrs (heap_start_ (self st)) bs)
                  (live_ptrs (heap_start_ (self st)) bs') /\
      forall m', same_outside (memory st') m' p (p + n) ->
                 Inv (with_memory st' m') bs').
Proof.
  intros HI Hfuel Hn.
  destruct (my_malloc_Inv st bs size fuel HI Hfuel)
    as [Hnull | (st' & pre & sz & post & Hfound)]; [left; exact Hnull|].
  cbv zeta in Hfound.
  destruct Hfound as (-> & Hpre & Hle & Hsize & Hrun & Hself & _ & HI').
  right. eexists _, st', _, _. split; [exact Hrun|].
  pose proof (Inv_sizes _ _ HI) as Hsz. apply Forall_app in Hsz.
  destruct Hsz as [Hszpre _]. pose proof (span_nonneg _ Hszpre) as Hp0.
  assert (Hh : heap_start_ (self st') = heap_start_ (self st)) by (rewrite Hself; reflexivity).
  destruct HI as ((Hs & _) & _).
  split; [unfold HEADER_SIZE; lia|]. split; [exact HI'|]. split; [exact Hh|].
  split; [apply live_ptrs_alloc|].
  intros m' Hout.
  destruct (alloc_blocks_head (request_size size) sz) as (tail & Hab).
  rewrite Hab in HI' |- *. cbn [app] in HI' |- *.
  apply Inv_payload_write; [exact HI'|]. rewrite Hh.
  eapply same_outside_weaken; [exact Hout | lia |].
  destruct (negb _); lia.
Qed.

Lemma my_calloc_Inv st bs count size fuel :
  Inv st bs ->
  (length bs + 1 < fuel)%nat ->
  wrap (count * size) <= SIZE_MAX - 7 ->
  exists p st' d bs',
    my_calloc fuel st count size = Some (p, st', d) /\ Inv st' bs'.
Proof.
  intros HI Hfuel Hsmall. unfold my_calloc.
  destruct (negb (count =? 0) && negb (wrap (count * size) / count =? size)).
  { eexists _, _, _, bs. split; [reflexivity | exact HI]. }
  set (total := wrap (count * size)) in *.
  assert (Hn : 0 <= total <= request_size total).
  { pose proof (wrap_range (count * size)) as Hr. fold total in Hr.
    pose proof (alignSize_ge total ltac:(lia)).
    rewrite request_size_max. lia. }
  destruct (my_malloc_then_fill st bs total fuel total HI Hfuel Hn)
    as [(d & Hrun) | (p & st' & d & bs' & Hrun & Hp & HI' & _ & _ & Hfill)];
    rewrite Hrun.
  - cbn [Z.eqb]. eexists _, _, _, bs. split; [reflexivity | exact HI].
  - replace (p =? 0) with false by (symmetry; apply Z.eqb_neq; exact Hp).
    eexists _, _, _, bs'. split; [reflexivity|].
    apply Hfill. apply same_outside_memset; lia.
Qed.

Lemma my_realloc_Inv st bs ptr new_size fuel :
  Inv st bs ->
  (length bs + 1 < fuel)%nat ->
  ptr = 0 \/ isValidPointer (self st) ptr = false \/
  In ptr (live_ptrs (heap_start_ (self st)) bs) ->
  grows_in_place st ptr new_size = false ->
  exists p st' d bs',
    my_realloc fuel st ptr new_size = Some (p, st', d) /\ Inv st' bs'.
Proof.
  intros HI Hfuel Hptr Hgrow. unfold my_realloc.
  destruct (Z.eqb_spec ptr 0) as [E|NE].
  { destruct (my_malloc_Inv st bs new_size fuel HI Hfuel)
      as [(d & Hrun) | (st' & pre & sz & post & Hfound)].
    - rewrite Hrun. eexists _, _, _, bs. split; [reflexivity | exact HI].
    - cbv zeta in Hfound. destruct Hfound as (_ & _ & _ & _ & Hrun & _ & _ & HI').
      rewrite Hrun. eexists _, _, _, _. split; [reflexivity | exact HI']. }
  destruct (Z.eqb_spec new_size 0) as [E0|NE0].
  { destruct (my_free_Inv st bs ptr HI) as (bs' & HI').
    - destruct Hptr as [H|[H|H]]; auto. right. right. apply live_ptrs_payloads. exact H.
    - destruct (my_free st ptr) as [st' d]. eexists _, _, _, bs'.
      split; [reflexivity | exact HI']. }
  destruct (isValidPointer (self st) ptr) eqn:Hvalid; cbn [negb].
  2:{ eexists _, _, _, bs. split; [reflexivity | exact HI]. }
  destruct (Z.leb_spec (alignSize new_size) (blk_size (memory st) (fromData ptr)))
    as [Hfit|Hbig].
  { eexists _, _, _, bs. split; [reflexivity | exact HI]. }
  (* the grow-in-place branch is excluded *)
  unfold grows_in_place in Hgrow. rewrite Hvalid in Hgrow.
  replace (ptr =? 0) with false in Hgrow by (symmetry; apply Z.eqb_neq; exact NE).
  replace (new_size =? 0) with false in Hgrow by (symmetry; apply Z.eqb_neq; exact NE0).
  replace (alignSize new_size <=? blk_size (memory st) (fromData ptr)) with false in Hgrow
    by (symmetry; apply Z.leb_gt; exact Hbig).
  cbn [negb andb] in Hgrow.
  set (old_size := blk_size (memory st) (fromData ptr)) in *.
  assert (Hreloc :
    (if negb (blk_next (memory st) (fromData ptr) =? 0) &&
        blk_is_free (memory st) (blk_next (memory st) (fromData ptr))
     then
       if alignSize new_size <=?
          wrap (wrap (old_size + HEADER_SIZE) +
                blk_size (memory st) (blk_next (memory st) (fromData ptr)))
       then true else false
     else false) = false).
  { destruct (negb _ && _); [|reflexivity]. cbn [andb] in Hgrow. rewrite Hgrow. reflexivity. }
  cbv zeta.
  match goal with
  | |- exists p st' d bs', (if ?c1 then if ?c2 then ?x else ?r else ?r') = _ /\ _ =>
      replace (if c1 then if c2 then x else r else r') with r
        by (destruct c1; [destruct c2; [discriminate Hreloc | reflexivity] | reflexivity])
  end.
  (* relocation *)
  assert (Hlive : In ptr (live_ptrs (heap_start_ (self st)) bs)).
  { destruct Hptr as [H|[H|H]]; [contradiction | congruence | exact H]. }
  pose proof (blk_size_range (memory st) (fromData ptr)) as Hold. fold old_size in Hold.
  assert (Hn : 0 <= old_size <= request_size (alignSize new_size)).
  { rewrite request_size_max, alignSize_idem. lia. }
  destruct (my_malloc_then_fill st bs (alignSize new_size) fuel old_size HI Hfuel Hn)
    as [(d & Hrun) | (p & st' & d & bs' & Hrun & Hp & HI' & Hh & Hperm & Hfill)];
    rewrite Hrun.
  - cbn [Z.eqb]. eexists _, _, _, bs. split; [reflexivity | exact HI].
  - replace (p =? 0) with false by (symmetry; apply Z.eqb_neq; exact Hp).
    set (st2 := with_memory st' (memcpy (memory st') p ptr old_size)).
    assert (HI2 : Inv st2 bs').
    { apply Hfill. apply same_outside_memcpy; lia. }
    assert (Hlive' : In ptr (live_ptrs (heap_start_ (self st2)) bs')).
    { change (heap_start_ (self st2)) with (heap_start_ (self st')). rewrite Hh.
      eapply Permutation_in; [exact Hperm|]. right. exact Hlive. }
    destruct (live_ptrs_in _ _ _ Hlive') as (pre & sz & post & -> & Eptr).
    destruct (my_free_Inv_live st2 pre sz post HI2) as (st3 & Hfree & _ & HI3).
    rewrite <- Eptr in Hfree. rewrite Hfree.
    eexists _, _, _, _. split; [reflexivity | exact HI3].
Qed.

Lemma engine_one_block_run :
  my_malloc 3 engine_4096 100 = Some (4128, engine_one_block, []).
Proof.
  unfold engine_one_block.
  assert (Hp : result_ptr (my_malloc 3 engine_4096 100) = Some 4128)
    by (vm_compute; reflexivity).
  assert (Hd : result_diag (my_malloc 3 engine_4096 100) = Some [])
    by (vm_compute; reflexivity).
  destruct (my_malloc 3 engine_4096 100) as [[[p st] d]|]; [|discriminate].
  cbn in Hp, Hd. inversion Hp. inversion Hd. reflexivity.
Qed.

(* ================================================================== *)
(** ** Zeroed allocation: the bytes cleared *)
(* ================================================================== *)



(* ================================================================== *)
(** ** Accounting after the public operations *)
(* ================================================================== *)

(** C1, as stated, fails: one [my_malloc(100)] on a fresh 4096-byte engine
    leaves the chain [104 used; 3928 free] while [free_memory] is 3960 and
    [used + free + block_count * 32] is 4128, not 4096. *)
Lemma C1_counterexample :
  my_malloc 3 engine_4096 100 = Some (4128, engine_one_block, []) /\
  heap_chain engine_one_block [(104, false); (3928, true)] /\
  ~ G6 (stats engine_one_block) [(104, false); (3928, true)].
Proof.
  split; [exact engine_one_block_run|]. split; [exact engine_one_block_chain|].
  intros (_ & H & _). vm_compute in H. discriminate.
Qed.

(** The slip in [my_realloc]: growing in place enlarges the block but
    leaves [used_memory] and [free_memory] as they were. *)
Example realloc_grow_in_place_skips_memory_counters :
  let r := my_realloc 0 engine_one_block 4128 200 in
  result_ptr r = Some 4128 /\
  option_map (fun x => blk_size (memory (snd (fst x))) 4096) r = Some 4064 /\
  option_map (fun x => blk_is_free (memory (snd (fst x))) 4096) r = Some false /\
  option_map (fun x => used_memory (stats (snd (fst x)))) r = Some 104 /\
  option_map (fun x => free_memory (stats (snd (fst x)))) r = Some 3960.
Proof. vm_compute. repeat split; reflexivity. Qed.

Lemma span_sums bs :
  span bs = used_sum bs + free_sum bs + HEADER_SIZE * Z.of_nat (length bs).
Proof.
  unfold used_sum, free_sum.
  induction bs as [|[s f] bs IH]; cbn [span sum_sizes length is_free_block fst snd].
  - lia.
  - rewrite Nat2Z.inj_succ, IH. destruct f; cbn [negb]; lia.
Qed.

(** Under the invariant, [free_memory] is the free payload plus the
    headers of all blocks but one. *)
Lemma Inv_free_memory st bs :
  Inv st bs ->
  free_memory (stats st) =
  free_sum bs + HEADER_SIZE * (Z.of_nat (length bs) - 1).
Proof.
  intro HI. pose proof (Inv_span _ _ HI) as Hsp. rewrite span_sums in Hsp.
  destruct HI as (_ & _ & _ & (A1 & A2 & A3 & _)). lia.
Qed.

(** C1, amended: [reset] (that is [initializeHeap], which both
    constructors run) establishes, and every call a caller may make
    ([caller_ok]) preserves, the invariant [Inv]; the calls are
    [my_malloc], [reset], [my_free] of a null, out-of-range or
    block-payload pointer, [my_calloc] of a total of at most
    [SIZE_MAX - 7], and [my_realloc] of a null, out-of-range or in-use
    pointer that does not grow its block in place.  [Inv] says: the
    chain tiles the region,
    [used_memory] is the sum of the sizes of the blocks in use,
    [block_count] and [free_block_count] are the chain's totals, and
    [used_memory + free_memory + HEADER_SIZE = total_heap_size]; each
    operation returns when given more fuel than the chain has blocks. *)
Theorem C1_accounting_after_public_operations :
  (forall st,
      region_ok (self st) ->
      Inv (reset st) [(heap_size_ (self st) - HEADER_SIZE, true)]) /\
  (forall st bs op fuel,
      Inv st bs ->
      caller_ok st bs op ->
      (length bs + 1 < fuel)%nat ->
      exists p st' d bs',
        run_op fuel st op = Some (p, st', d) /\ Inv st' bs').
Proof.
  split; [exact initializeHeap_Inv|].
  intros st bs op fuel HI Hok Hfuel. destruct op; cbn [run_op caller_ok] in *.
  - destruct (my_malloc_Inv st bs size fuel HI Hfuel)
      as [(d & Hrun) | (st' & pre & sz & post & Hfound)].
    + eexists _, _, _, bs. split; [exact Hrun | exact HI].
    + cbv zeta in Hfound. destruct Hfound as (_ & _ & _ & _ & Hrun & _ & _ & HI').
      eexists _, _, _, _. split; [exact Hrun | exact HI'].
  - destruct (my_free_Inv st bs ptr HI Hok) as (bs' & HI').
    destruct (my_free st ptr) as [st' d]. eexists _, _, _, bs'.
    split; [reflexivity | exact HI'].
  - destruct Hok as [Hptr Hgrow]. apply (my_realloc_Inv st bs); assumption.
  - apply (my_calloc_Inv st bs); assumption.
  - eexists _, _, _, _. split; [reflexivity|].
    apply initializeHeap_Inv. eapply Inv_region. exact HI.
Qed.

Lemma C1_accounting_after_public_operations_witness :
  exists p st' d bs',
    run_op 3 engine_4096 (OpMalloc 100) = Some (p, st', d) /\ Inv st' bs'.
Proof.
  destruct C1_accounting_after_public_operations as [_ H].
  apply (H engine_4096 [(4064, true)] (OpMalloc 100) 3%nat).
  - exact engine_4096_Inv.
  - exact I.
  - simpl. lia.
Defined.

(* ================================================================== *)
(** ** Allocate a sequence, then free everything *)
(* ================================================================== *)

Lemma length_alloc_blocks need sz :
  (length (alloc_blocks need sz) <= 2)%nat.
Proof. unfold alloc_blocks. destruct (_ <? _); cbn [length]; lia. Qed.

Lemma alloc_all_Inv sizes : forall st bs fuel,
  Inv st bs ->
  no_adjacent_free false bs ->
  (length bs + length sizes < fuel)%nat ->
  exists ps st1 bs1,
    alloc_all fuel st sizes = Some (ps, st1) /\
    Inv st1 bs1 /\
    no_adjacent_free false bs1 /\
    heap_start_ (self st1) = heap_start_ (self st) /\
    heap_size_ (self st1) = heap_size_ (self st) /\
    coalesce_count (stats st1) = coalesce_count (stats st) /\
    (Forall (fun p => p <> 0) ps ->
     Permutation (ps ++ live_ptrs (heap_start_ (self st)) bs)
                 (live_ptrs (heap_start_ (self st)) bs1)).
Proof.
  induction sizes as [|n sizes IH]; intros st bs fuel HI Hnaf Hfuel.
  - exists [], st, bs. cbn [alloc_all app].
    repeat (split; [first [reflexivity | assumption]|]).
    intros _. apply Permutation_refl.
  - cbn [length] in Hfuel. cbn [alloc_all].
    destruct (my_malloc_Inv st bs n fuel HI ltac:(lia))
      as [(d & Hrun) | (st' & pre & sz & post & Hfound)].
    + rewrite Hrun.
      destruct (IH st bs fuel HI Hnaf ltac:(lia))
        as (ps & st1 & bs1 & Hall & HI1 & Hnaf1 & Hh & Hhs & Hcc & _).
      rewrite Hall. exists (0 :: ps), st1, bs1.
      repeat (split; [first [reflexivity | assumption]|]).
      intro Hnz. apply Forall_cons_iff in Hnz. tauto.
    + cbv zeta in Hfound.
      destruct Hfound as (-> & Hpre & Hle & Hsize & Hrun & Hself & _ & HI').
      rewrite Hrun.
      set (bs' := pre ++ alloc_blocks (request_size n) sz ++ post) in *.
      assert (Hlen : (length bs' <= S (length (pre ++ (sz, true) :: post)))%nat).
      { unfold bs'. rewrite !length_app. cbn [length].
        pose proof (length_alloc_blocks (request_size n) sz). lia. }
      assert (Hh' : heap_start_ (self st') = heap_start_ (self st))
        by (rewrite Hself; reflexivity).
      destruct (IH st' bs' fuel HI' (no_adjacent_free_alloc _ _ _ _ Hnaf) ltac:(lia))
        as (ps & st1 & bs1 & Hall & HI1 & Hnaf1 & Hh & Hhs & Hcc & Hperm).
      rewrite Hall. eexists (_ :: ps), st1, bs1.
      split; [reflexivity|]. split; [exact HI1|]. split; [exact Hnaf1|].
      split; [congruence|].
      split; [rewrite Hhs, Hself; reflexivity|].
      split; [rewrite Hcc; unfold stats; rewrite Hself; reflexivity|].
      intro Hnz. apply Forall_cons_iff in Hnz. destruct Hnz as [_ Hnz].
      specialize (Hperm Hnz). rewrite Hh' in Hperm.
      eapply Permutation_trans; [|exact Hperm].
      cbn [app]. apply Permutation_sym.
      eapply Permutation_trans; [apply Permutation_app_head;
                                 apply Permutation_sym; apply live_ptrs_alloc|].
      apply Permutation_sym. apply Permutation_middle.
Qed.

Lemma iter_merge_counters k s :
  split_count (Nat.iter k stats_after_merge s) = split_count s /\
  (coalesce_count s + Z.of_nat k < SIZE_MOD -> 0 <= coalesce_count s ->
   coalesce_count (Nat.iter k stats_after_merge s) = coalesce_count s + Z.of_nat k).
Proof.
  induction k as [|k IH].
  - split; [reflexivity | intros; cbn [Nat.iter nat_rect]; lia].
  - destruct IH as [IH1 IH2].
    change (Nat.iter (S k) stats_after_merge s)
      with (stats_after_merge (Nat.iter k stats_after_merge s)).
    cbn [stats_after_merge split_count coalesce_count].
    split; [exact IH1|]. intros Hlt H0.
    rewrite IH2 by lia. rewrite wrap_small by lia. lia.
Qed.

Lemma free_all_Inv qs : forall st bs,
  Inv st bs ->
  no_adjacent_free false bs ->
  Permutation qs (live_ptrs (heap_start_ (self st)) bs) ->
  0 <= coalesce_count (stats st) ->
  coalesce_count (stats st) + Z.of_nat (length bs) < SIZE_MOD ->
  exists bs2,
    Inv (free_all st qs) bs2 /\
    no_adjacent_free false bs2 /\
    live_ptrs (heap_start_ (self st)) bs2 = [] /\
    heap_start_ (self (free_all st qs)) = heap_start_ (self st) /\
    heap_size_ (self (free_all st qs)) = heap_size_ (self st) /\
    split_count (stats (free_all st qs)) = split_count (stats st) /\
    coalesce_count (stats st) <= coalesce_count (stats (free_all st qs)).
Proof.
  induction qs as [|q qs IH]; intros st bs HI Hnaf Hperm Hc0 Hcb.
  - exists bs. cbn [free_all]. apply Permutation_nil in Hperm.
    repeat (split; [first [reflexivity | assumption]|]). lia.
  - assert (Hin : In q (live_ptrs (heap_start_ (self st)) bs)).
    { eapply Permutation_in; [exact Hperm | left; reflexivity]. }
    destruct (live_ptrs_in _ _ _ Hin) as (pre & sz & post & -> & ->).
    destruct (my_free_Inv_live st pre sz post HI) as (st' & Hrun & Hself & HI').
    destruct (free_blocks_facts (heap_start_ (self st)) pre sz post)
      as (_ & F2 & _ & F4 & F5).
    cbn [free_all]. rewrite Hrun. cbn [fst].
    set (s1 := stats (updateStatsAfterFree st sz)) in *.
    assert (Hs1 : split_count s1 = split_count (stats st) /\
                  coalesce_count s1 = coalesce_count (stats st)) by (split; reflexivity).
    destruct Hs1 as [Hs1 Hs2].
    destruct (iter_merge_counters (merges pre post) s1) as [K1 K2].
    assert (Hcc : coalesce_count (stats st') =
                  coalesce_count (stats st) + Z.of_nat (merges pre post)).
    { unfold stats at 1. rewrite Hself. cbn [self with_stats stats_].
      rewrite K2 by lia. lia. }
    assert (Hsc : split_count (stats st') = split_count (stats st)).
    { unfold stats at 1. rewrite Hself. cbn [self with_stats stats_]. congruence. }
    assert (Hh : heap_start_ (self st') = heap_start_ (self st))
      by (rewrite Hself; reflexivity).
    assert (Hhs : heap_size_ (self st') = heap_size_ (self st))
      by (rewrite Hself; reflexivity).
    destruct (IH st' (free_blocks pre sz post) HI' (F5 Hnaf))
      as (bs2 & HI2 & Hnaf2 & Hlive2 & Hh2 & Hhs2 & Hsc2 & Hcc2).
    + rewrite Hh. eapply Permutation_cons_inv.
      eapply Permutation_trans; [exact Hperm|]. apply Permutation_sym. exact F4.
    + lia.
    + lia.
    + exists bs2. rewrite Hh in Hlive2.
      split; [exact HI2|]. split; [exact Hnaf2|]. split; [exact Hlive2|].
      split; [congruence|]. split; [congruence|]. split; [congruence | lia].
Qed.

Lemma live_ptrs_nil_all_free h bs :
  live_ptrs h bs = [] -> Forall (fun b => snd b = true) bs.
Proof.
  revert h. induction bs as [|[s f] bs IH]; intros h H; [constructor|].
  cbn [live_ptrs] in H. apply app_eq_nil in H. destruct H as [H1 H2].
  constructor; [|eapply IH; exact H2].
  destruct f; [reflexivity | discriminate].
Qed.

Lemma all_free_single bs :
  bs <> [] ->
  Forall (fun b => snd b = true) bs ->
  no_adjacent_free false bs ->
  exists s, bs = [(s, true)].
Proof.
  intros Hne Hall Hnaf. destruct bs as [|[s f] bs]; [congruence|].
  apply Forall_cons_iff in Hall. destruct Hall as [Hf Hall]. cbn [snd] in Hf. subst f.
  destruct bs as [|[s2 f2] bs]; [exists s; reflexivity|].
  apply Forall_cons_iff in Hall. destruct Hall as [Hf2 _]. cbn [snd] in Hf2. subst f2.
  cbn [no_adjacent_free] in Hnaf. destruct Hnaf as (_ & Hbad & _). discriminate.
Qed.

(** C6: on a freshly initialised engine, allocate any sequence of sizes;
    if every allocation succeeded, then freeing the returned pointers in
    any order leaves the chain as one free block of
    [heap_size - HEADER_SIZE] bytes at the start of the region, with
    [split_count] as the allocations left it and [coalesce_count] not
    below its value before the frees; the allocations all return when the
    fuel exceeds the number of requests by two. *)
Theorem C6_free_everything_restores_single_block :
  forall st0 sizes fuel,
    region_ok (self st0) ->
    (length sizes + 1 < fuel)%nat ->
    exists ps st1,
      alloc_all fuel (initializeHeap st0) sizes = Some (ps, st1) /\
      (Forall (fun p => p <> 0) ps ->
       forall qs,
         Permutation ps qs ->
         let st2 := free_all st1 qs in
         heap_chain st2 [(heap_size_ (self st0) - HEADER_SIZE, true)] /\
         header_at (memory st2) (free_list_ (self st2))
                   (total_heap_size (stats st2) - HEADER_SIZE) true 0 0 /\
         split_count (stats st2) = split_count (stats st1) /\
         coalesce_count (stats st1) <= coalesce_count (stats st2)).
Proof.
  intros st0 sizes fuel Hreg Hfuel.
  pose proof (initializeHeap_Inv st0 Hreg) as HI0.
  set (fresh := initializeHeap st0) in *.
  set (H0 := heap_size_ (self st0)) in *.
  assert (Hnaf0 : no_adjacent_free false [(H0 - HEADER_SIZE, true)])
    by (cbn [no_adjacent_free]; auto).
  destruct (alloc_all_Inv sizes fresh _ fuel HI0 Hnaf0 ltac:(cbn [length]; lia))
    as (ps & st1 & bs1 & Hall & HI1 & Hnaf1 & Hh1 & Hhs1 & Hcc1 & Hperm1).
  exists ps, st1. split; [exact Hall|].
  intros Hnz qs Hperm st2.
  specialize (Hperm1 Hnz). cbn [live_ptrs app] in Hperm1. rewrite app_nil_r in Hperm1.
  assert (Hc0 : coalesce_count (stats st1) = 0) by (rewrite Hcc1; reflexivity).
  destruct HI1 as (Hhc1 & Hrest1). pose proof (heap_chain_length _ _ Hhc1) as Hlen1.
  destruct (free_all_Inv qs st1 bs1 (conj Hhc1 Hrest1) Hnaf1)
    as (bs2 & HI2 & Hnaf2 & Hlive2 & Hh2 & Hhs2 & Hsc2 & Hcc2).
  - rewrite Hh1. eapply Permutation_trans; [apply Permutation_sym; exact Hperm|].
    exact Hperm1.
  - lia.
  - lia.
  - fold st2 in HI2, Hh2, Hhs2, Hsc2, Hcc2.
    pose proof HI2 as (Hhc2 & _ & _ & (A1 & _)).
    destruct (all_free_single bs2) as (s & ->).
    + destruct Hhc2 as (_ & _ & _ & Hne & _). exact Hne.
    + eapply live_ptrs_nil_all_free. exact Hlive2.
    + exact Hnaf2.
    + pose proof (Inv_span _ _ HI2) as Hsp. cbn [span] in Hsp.
      assert (Hs : s = H0 - HEADER_SIZE).
      { rewrite Hhs2, Hhs1 in Hsp. change (heap_size_ (self fresh)) with H0 in Hsp. lia. }
      subst s. split; [exact Hhc2|]. split; [|split; [exact Hsc2 | exact Hcc2]].
      destruct Hhc2 as (_ & _ & Hfl & _ & (_ & Hhdr & _)).
      rewrite Hfl, A1, Hhs2, Hhs1. exact Hhdr.
Qed.

Lemma C6_free_everything_restores_single_block_witness :
  exists st1,
    alloc_all 5 engine_4096 [100; 200; 50] = Some ([4128; 4264; 4496], st1) /\
    let st2 := free_all st1 [4264; 4128; 4496] in
    heap_chain st2 [(4096 - HEADER_SIZE, true)] /\
    header_at (memory st2) (free_list_ (self st2))
              (total_heap_size (stats st2) - HEADER_SIZE) true 0 0 /\
    split_count (stats st2) = split_count (stats st1) /\
    coalesce_count (stats st1) <= coalesce_count (stats st2).
Proof.
  destruct (C6_free_everything_restores_single_block
              (mkState (mkAllocator 4096 (4096 + 4096) 4096 0 zero_stats true)
                       dirty_memory)
              [100; 200; 50] 5%nat)
    as (ps & st1 & Hall & H).
  - unfold region_ok, SIZE_MOD, HEADER_SIZE. cbn. lia.
  - simpl. lia.
  - fold engine_4096 in Hall.
    assert (Hps : option_map fst (alloc_all 5 engine_4096 [100; 200; 50]) =
                  Some [4128; 4264; 4496]) by (vm_compute; reflexivity).
    rewrite Hall in Hps. cbn [option_map fst] in Hps. inversion Hps. subst ps.
    exists st1. split; [exact Hall|].
    apply H.
    + repeat constructor; lia.
    + apply perm_swap.
Defined.

(* ================================================================== *)
(** ** Rounding and the block a request gets *)
(* ================================================================== *)

(** X1: [alignSize] always returns a multiple of 8 and is idempotent; for
    a request of at most [SIZE_MAX - 7] it is the least multiple of 8 that
    is not below the request. *)
Theorem alignSize_least_multiple :
  forall size,
    alignSize size mod 8 = 0 /\
    alignSize (alignSize size) = alignSize size /\
    (0 <= size <= SIZE_MAX - 7 ->
     size <= alignSize size < size + 8 /\
     forall k, size <= 8 * k -> alignSize size <= 8 * k).
Proof.
  intro size. split; [|split].
  - rewrite alignSize_eq. rewrite Z.mul_comm. apply Z.mod_mul. lia.
  - apply alignSize_idem.
  - intro H. pose proof (alignSize_ge size H) as Hge.
    rewrite alignSize_eq in *.
    rewrite wrap_small in * by (unfold SIZE_MAX, SIZE_MOD in *; lia).
    pose proof (Z.div_mod (size + 7) 8 ltac:(lia)) as Hd.
    pose proof (Z.mod_pos_bound (size + 7) 8 ltac:(lia)) as Hm.
    split; [lia|]. intros k Hk.
    assert ((size + 7) / 8 < k + 1); [|lia].
    apply Z.div_lt_upper_bound; lia.
Qed.

Lemma alignSize_least_multiple_witness :
  100 <= alignSize 100 < 100 + 8 /\ alignSize 100 <= 8 * 13.
Proof.
  destruct (alignSize_least_multiple 100) as (_ & _ & H).
  destruct H as [H1 H2]; [unfold SIZE_MAX, SIZE_MOD; lia|].
  split; [exact H1 | apply H2; lia].
Defined.

(** X2: on a well-formed chain, a [my_malloc] that returns a non-null
    pointer prints nothing, leaves the region fields alone, and the
    pointer passes [isValidPointer]; the header recovered from it with
    [fromData] is marked in use and its size is at least the rounded
    request and less than that plus [sizeof(MemoryBlock) + MIN_BLOCK_SIZE]
    (the slack a refused split leaves); when the request is at most
    [SIZE_MAX - 7] the block is at least as large as the request. *)
Theorem my_malloc_block_contract :
  forall st bs size fuel p st' d,
    heap_chain st bs ->
    (length bs + 1 < fuel)%nat ->
    my_malloc fuel st size = Some (p, st', d) ->
    p <> 0 ->
    let B := fromData p in
    d = [] /\
    heap_start_ (self st') = heap_start_ (self st) /\
    heap_end_ (self st') = heap_end_ (self st) /\
    isValidPointer (self st') p = true /\
    blk_is_free (memory st) B = true /\
    blk_is_free (memory st') B = false /\
    request_size size <= blk_size (memory st') B
      < request_size size + (HEADER_SIZE + MIN_BLOCK_SIZE) /\
    (0 <= size <= SIZE_MAX - 7 -> size <= blk_size (memory st') B).
Proof.
  intros st bs size fuel p st' d Hhc Hfuel Hrun Hp B.
  destruct (Z.eq_dec size 0) as [->|Hsize].
  { unfold my_malloc in Hrun. cbn [Z.eqb] in Hrun. inversion Hrun. congruence. }
  destruct (first_fit_cases (request_size size) bs)
    as [Hnone | (pre & sz & post & -> & Hpre & Hle)].
  { rewrite (my_malloc_none st bs size fuel Hhc Hsize ltac:(lia) Hnone) in Hrun.
    inversion Hrun. congruence. }
  destruct (my_malloc_found st pre sz post size fuel Hhc Hsize Hfuel Hpre Hle)
    as (st1 & Hrun1 & Hself & Hhc' & _).
  rewrite Hrun1 in Hrun. inversion Hrun; subst p st1 d. clear Hrun.
  pose proof (request_size_range size) as Hneed.
  destruct Hhc as (Hs & He & Hfl & Hne & Hc).
  pose proof (chain_sizes _ _ _ _ _ Hc) as Hsz.
  apply Forall_app in Hsz. destruct Hsz as [Hszpre Hsz].
  apply Forall_cons_iff in Hsz. destruct Hsz as [Hz Hszpost]. cbn [fst] in Hz.
  pose proof (span_nonneg _ Hszpre) as Hp0. pose proof (span_nonneg _ Hszpost) as Hp1.
  pose proof (chain_end _ _ _ _ _ Hc) as Hend. rewrite span_app in Hend. cbn [span] in Hend.
  destruct (chain_block_header _ _ _ _ _ _ _ _ Hc) as [_ Hfree0].
  destruct Hhc' as (_ & _ & _ & _ & Hc').
  rewrite Hself in Hc'. cbn [self with_stats heap_start_ heap_end_] in Hc'.
  destruct (alloc_blocks_head (request_size size) sz) as (tail & Hab).
  rewrite Hab in Hc'. cbn [app] in Hc'.
  destruct (chain_block_header _ _ _ _ _ _ _ _ Hc') as [Hsize' Hfree'].
  subst B.
  replace (fromData (heap_start_ (self st) + span pre + HEADER_SIZE))
    with (heap_start_ (self st) + span pre) by (unfold fromData; lia).
  rewrite Hsize', Hfree'.
  split; [reflexivity|]. split; [rewrite Hself; reflexivity|].
  split; [rewrite Hself; reflexivity|].
  split.
  { unfold isValidPointer. rewrite Hself. cbn [self with_stats heap_start_ heap_end_].
    apply andb_true_iff. split; [apply Z.leb_le | apply Z.ltb_lt];
      unfold MIN_BLOCK_SIZE, HEADER_SIZE in *; lia. }
  split; [exact Hfree0|]. split; [reflexivity|].
  assert (Hgot : request_size size <=
                 (if negb (sz - request_size size <? HEADER_SIZE + MIN_BLOCK_SIZE)
                  then request_size size else sz)
                 < request_size size + (HEADER_SIZE + MIN_BLOCK_SIZE)).
  { destruct (Z.ltb_spec (sz - request_size size) (HEADER_SIZE + MIN_BLOCK_SIZE));
      cbn [negb]; unfold MIN_BLOCK_SIZE, HEADER_SIZE in *; lia. }
  split; [exact Hgot|].
  intro Hsmall. pose proof (alignSize_ge size Hsmall).
  assert (size <= request_size size) by (rewrite request_size_max; lia). lia.
Qed.

Lemma my_malloc_block_contract_witness :
  isValidPointer (self engine_one_block) 4128 = true /\
  blk_is_free (memory engine_one_block) (fromData 4128) = false /\
  100 <= blk_size (memory engine_one_block) (fromData 4128).
Proof.
  destruct engine_4096_Inv as (Hhc & _).
  destruct (my_malloc_block_contract engine_4096 _ 100 3%nat 4128 engine_one_block []
              Hhc ltac:(simpl; lia) engine_one_block_run ltac:(lia))
    as (_ & _ & _ & H1 & _ & H2 & _ & H3).
  split; [exact H1|]. split; [exact H2|].
  apply H3. unfold SIZE_MAX, SIZE_MOD. lia.
Defined.

(* ================================================================== *)
(** ** Neighbouring free blocks *)
(* ================================================================== *)

Lemma my_malloc_outcomes st bs size fuel p st' d :
  Inv st bs ->
  (length bs + 1 < fuel)%nat ->
  my_malloc fuel st size = Some (p, st', d) ->
  (p = 0 /\ st' = st) \/
  (exists pre sz post,
     let need := request_size size in
     let split := negb (sz - need <? HEADER_SIZE + MIN_BLOCK_SIZE) in
     let got := if split then need else sz in
     let bs' := pre ++ alloc_blocks need sz ++ post in
     bs = pre ++ (sz, true) :: post /\
     need <= sz /\
     p = heap_start_ (self st) + span pre + HEADER_SIZE /\
     self st' = self (with_stats st (stats_after_alloc (stats st) split got bs')) /\
     Inv st' bs').
Proof.
  intros HI Hfuel Hrun.
  destruct (my_malloc_Inv st bs size fuel HI Hfuel)
    as [(d0 & Hrun0) | (st1 & pre & sz & post & Hfound)].
  - left. rewrite Hrun0 in Hrun. inversion Hrun. split; reflexivity.
  - right. cbv zeta in Hfound.
    destruct Hfound as (Hbs & _ & Hle & _ & Hrun1 & Hself & _ & HI').
    rewrite Hrun1 in Hrun. inversion Hrun; subst p st1 d.
    exists pre, sz, post. cbv zeta. repeat (split; [assumption || reflexivity|]).
    exact HI'.
Qed.

Lemma my_free_outcomes st bs ptr :
  Inv st bs ->
  ptr = 0 \/ isValidPointer (self st) ptr = false \/
  In ptr (payloads (heap_start_ (self st)) bs) ->
  fst (my_free st ptr) = st \/
  (exists pre sz post,
     bs = pre ++ (sz, false) :: post /\
     ptr = heap_start_ (self st) + span pre + HEADER_SIZE /\
     self (fst (my_free st ptr)) =
       self (with_stats st
               (Nat.iter (merges pre post) stats_after_merge
                  (stats (updateStatsAfterFree st sz)))) /\
     Inv (fst (my_free st ptr)) (free_blocks pre sz post)).
Proof.
  intros HI [H|[H|H]].
  - left. apply my_free_guarded. auto.
  - left. apply my_free_guarded. auto.
  - destruct (payloads_in _ _ _ H) as (pre & sz & f & post & -> & ->).
    destruct f.
    + left. apply my_free_guarded. right. right.
      destruct HI as ((_ & _ & _ & _ & Hc) & _).
      replace (fromData (heap_start_ (self st) + span pre + HEADER_SIZE))
        with (heap_start_ (self st) + span pre) by (unfold fromData; lia).
      apply (chain_block_header _ _ _ _ _ _ _ _ Hc).
    + right. destruct (my_free_Inv_live st pre sz post HI) as (st' & Hrun & Hself & HI').
      exists pre, sz, post. rewrite Hrun. cbn [fst].
      repeat (split; [assumption || reflexivity|]). exact HI'.
Qed.

Lemma engine_one_block_Inv : Inv engine_one_block [(104, false); (3928, true)].
Proof.
  destruct (my_malloc_outcomes engine_4096 _ 100 3%nat 4128 engine_one_block []
              engine_4096_Inv) as [[E _] | (pre & sz & post & Hout)].
  - cbn [length]. lia.
  - exact engine_one_block_run.
  - discriminate E.
  - cbv zeta in Hout. destruct Hout as (_ & _ & _ & _ & HI).
    pose proof HI as (Hhc & _).
    rewrite (heap_chain_unique _ _ _ engine_one_block_chain Hhc). exact HI.
Qed.

(** X3: G5 is kept: on a well-formed heap in which no two neighbouring
    blocks are both free, that still holds of the chain left by any
    [my_malloc] and by any [my_free] of a null, out-of-range or
    block-payload pointer ([coalesceBlock] merges on both sides). *)
Theorem no_adjacent_free_kept :
  forall st bs,
    Inv st bs ->
    no_adjacent_free false bs ->
    (forall size fuel p st' d,
        (length bs + 1 < fuel)%nat ->
        my_malloc fuel st size = Some (p, st', d) ->
        exists bs', Inv st' bs' /\ no_adjacent_free false bs') /\
    (forall ptr,
        ptr = 0 \/ isValidPointer (self st) ptr = false \/
        In ptr (payloads (heap_start_ (self st)) bs) ->
        exists bs', Inv (fst (my_free st ptr)) bs' /\ no_adjacent_free false bs').
Proof.
  intros st bs HI Hnaf. split.
  - intros size fuel p st' d Hfuel Hrun.
    destruct (my_malloc_outcomes _ _ _ _ _ _ _ HI Hfuel Hrun)
      as [[_ ->] | (pre & sz & post & Hout)].
    + exists bs. split; assumption.
    + cbv zeta in Hout. destruct Hout as (-> & _ & _ & _ & HI').
      eexists. split; [exact HI'|]. apply no_adjacent_free_alloc. exact Hnaf.
  - intros ptr Hptr.
    destruct (my_free_outcomes _ _ _ HI Hptr) as [-> | (pre & sz & post & -> & _ & _ & HI')].
    + exists bs. split; assumption.
    + eexists. split; [exact HI'|].
      destruct (free_blocks_facts (heap_start_ (self st)) pre sz post)
        as (_ & _ & _ & _ & F). apply F. exact Hnaf.
Qed.

Lemma engine_4096_no_adjacent_free : no_adjacent_free false [(4064, true)].
Proof. cbn. auto. Qed.

Lemma engine_one_block_no_adjacent_free :
  no_adjacent_free false [(104, false); (3928, true)].
Proof. cbn. auto. Qed.

(** The split of the fresh 4064-byte block by [my_malloc(100)], then the
    merge of the released block with its free right neighbour. *)
Lemma no_adjacent_free_kept_witness :
  (exists bs', Inv engine_one_block bs' /\ no_adjacent_free false bs') /\
  (exists bs',
      Inv (fst (my_free engine_one_block 4128)) bs' /\ no_adjacent_free false bs').
Proof.
  split.
  - destruct (no_adjacent_free_kept engine_4096 _ engine_4096_Inv
                engine_4096_no_adjacent_free) as [H _].
    apply (H 100 3%nat 4128 engine_one_block []).
    + cbn [length]. lia.
    + exact engine_one_block_run.
  - destruct (no_adjacent_free_kept engine_one_block _ engine_one_block_Inv
                engine_one_block_no_adjacent_free) as [_ H].
    apply (H 4128). right. right. left. reflexivity.
Defined.

(* ================================================================== *)
(** ** Alignment of sizes and payloads *)
(* ================================================================== *)

Lemma request_size_well_sized size :
  request_size size mod ALIGNMENT = 0 /\ MIN_BLOCK_SIZE <= request_size size.
Proof.
  pose proof (request_size_range size) as Hr. split; [|lia].
  unfold request_size, ALIGNMENT, MIN_BLOCK_SIZE.
  destruct (_ <? _); [reflexivity|].
  rewrite alignSize_eq. rewrite Z.mul_comm. apply Z.mod_mul. lia.
Qed.

Lemma well_sized_span bs : well_sized bs -> span bs mod ALIGNMENT = 0.
Proof.
  unfold well_sized, ALIGNMENT.
  induction 1 as [|[s f] bs [H _] _ IH]; cbn [span fst] in *; [reflexivity|].
  unfold HEADER_SIZE.
  apply Z.mod_divide in H; [|lia]. apply Z.mod_divide in IH; [|lia].
  apply Z.mod_divide; [lia|].
  apply Z.divide_add_r; [apply Z.divide_add_r|]; try assumption.
  exists 4. reflexivity.
Qed.

Lemma well_sized_alloc pre sz post need :
  need mod ALIGNMENT = 0 -> MIN_BLOCK_SIZE <= need <= sz ->
  well_sized (pre ++ (sz, true) :: post) ->
  well_sized (pre ++ alloc_blocks need sz ++ post).
Proof.
  unfold well_sized. intros Hm Hn H.
  apply Forall_app in H. destruct H as [H1 H2].
  apply Forall_cons_iff in H2. destruct H2 as [[Hs1 Hs2] H2]. cbn [fst] in Hs1, Hs2.
  apply Forall_app. split; [exact H1|]. apply Forall_app. split; [|exact H2].
  unfold alloc_blocks, ALIGNMENT, MIN_BLOCK_SIZE, HEADER_SIZE in *.
  destruct (Z.ltb_spec (sz - need) (32 + 16));
    repeat (apply Forall_cons; [split; cbn [fst]|]); try apply Forall_nil;
    try lia; Z.div_mod_to_equations; lia.
Qed.

Lemma well_sized_free pre sz post :
  well_sized (pre ++ (sz, false) :: post) ->
  well_sized (free_blocks pre sz post).
Proof.
  unfold well_sized. intro H.
  apply Forall_app in H. destruct H as [Hpre H].
  apply Forall_cons_iff in H. destruct H as [[Hs1 Hs2] Hpost]. cbn [fst] in Hs1, Hs2.
  unfold free_blocks, merge_prev.
  assert (Hcur : fst (merge_next sz post) mod ALIGNMENT = 0 /\
                 MIN_BLOCK_SIZE <= fst (merge_next sz post) /\
                 Forall (fun b => fst b mod ALIGNMENT = 0 /\ MIN_BLOCK_SIZE <= fst b)
                        (snd (merge_next sz post))).
  { destruct post as [|[s2 [|]] post']; cbn [merge_next fst snd]; auto.
    apply Forall_cons_iff in Hpost. destruct Hpost as [[H1 H2] Hpost]. cbn [fst] in H1, H2.
    unfold ALIGNMENT, MIN_BLOCK_SIZE, HEADER_SIZE in *.
    split; [Z.div_mod_to_equations; lia|]. split; [lia | exact Hpost]. }
  destruct Hcur as (C1 & C2 & Hpost').
  apply Forall_app. split; [|exact Hpost'].
  destruct (rev_cases pre) as [[-> Hr] | (pre' & s0 & f0 & -> & Hr)]; rewrite Hr.
  - apply Forall_cons; [split; assumption | apply Forall_nil].
  - apply Forall_app in Hpre. destruct Hpre as [Hpre Hlast].
    apply Forall_cons_iff in Hlast. destruct Hlast as [[L1 L2] _]. cbn [fst] in L1, L2.
    destruct f0.
    + rewrite rev_involutive. apply Forall_app. split; [exact Hpre|].
      apply Forall_cons; [|apply Forall_nil]. cbn [fst].
      unfold ALIGNMENT, MIN_BLOCK_SIZE, HEADER_SIZE in *.
      split; [Z.div_mod_to_equations; lia | lia].
    + apply Forall_app. split; [|apply Forall_cons; [split; assumption | apply Forall_nil]].
      apply Forall_app. split; [exact Hpre|].
      apply Forall_cons; [split; assumption | apply Forall_nil].
Qed.

(** X4: G3 and G4 are kept: when the region starts at a multiple of 8
    and every block size is a multiple of 8 and at least
    [MIN_BLOCK_SIZE] -- as after [initializeHeap] on a region whose size
    is a multiple of 8 and at least 48 -- then every pointer [my_malloc]
    returns is a multiple of 8, and the sizes of the chain left by
    [my_malloc] and by [my_free] are again multiples of 8 and at least
    [MIN_BLOCK_SIZE]. *)
Theorem sizes_and_payloads_stay_aligned :
  (forall st,
      heap_size_ (self st) mod ALIGNMENT = 0 ->
      HEADER_SIZE + MIN_BLOCK_SIZE <= heap_size_ (self st) ->
      well_sized [(heap_size_ (self st) - HEADER_SIZE, true)]) /\
  (forall st bs,
      Inv st bs ->
      heap_start_ (self st) mod ALIGNMENT = 0 ->
      well_sized bs ->
      (forall size fuel p st' d,
          (length bs + 1 < fuel)%nat ->
          my_malloc fuel st size = Some (p, st', d) ->
          p mod ALIGNMENT = 0 /\
          exists bs', Inv st' bs' /\ well_sized bs') /\
      (forall ptr,
          ptr = 0 \/ isValidPointer (self st) ptr = false \/
          In ptr (payloads (heap_start_ (self st)) bs) ->
          exists bs', Inv (fst (my_free st ptr)) bs' /\ well_sized bs')).
Proof.
  split.
  - intros st Hm Hsz. apply Forall_cons; [|apply Forall_nil]. cbn [fst].
    unfold ALIGNMENT, MIN_BLOCK_SIZE, HEADER_SIZE in *.
    split; [Z.div_mod_to_equations; lia | lia].
  - intros st bs HI Hh Hws. split.
    + intros size fuel p st' d Hfuel Hrun.
      destruct (my_malloc_outcomes _ _ _ _ _ _ _ HI Hfuel Hrun)
        as [[-> ->] | (pre & sz & post & Hout)].
      * split; [reflexivity|]. exists bs. split; assumption.
      * cbv zeta in Hout. destruct Hout as (-> & Hle & -> & _ & HI').
        destruct (request_size_well_sized size) as [R1 R2].
        split.
        -- assert (Hsp : span pre mod ALIGNMENT = 0).
           { apply well_sized_span. unfold well_sized in *.
             apply Forall_app in Hws. tauto. }
           unfold ALIGNMENT, HEADER_SIZE in *. Z.div_mod_to_equations. lia.
        -- eexists. split; [exact HI'|]. apply well_sized_alloc; auto.
    + intros ptr Hptr.
      destruct (my_free_outcomes _ _ _ HI Hptr)
        as [-> | (pre & sz & post & -> & _ & _ & HI')].
      * exists bs. split; assumption.
      * eexists. split; [exact HI'|]. apply well_sized_free. exact Hws.
Qed.

Lemma sizes_and_payloads_stay_aligned_witness :
  4128 mod ALIGNMENT = 0 /\
  exists bs', Inv engine_one_block bs' /\ well_sized bs'.
Proof.
  destruct sizes_and_payloads_stay_aligned as [H0 H].
  assert (Hws : well_sized [(4064, true)]).
  { apply (H0 (mkState (mkAllocator 4096 (4096 + 4096) 4096 0 zero_stats true)
                       dirty_memory)).
    - reflexivity.
    - unfold HEADER_SIZE, MIN_BLOCK_SIZE. cbn. lia. }
  destruct (H engine_4096 _ engine_4096_Inv eq_refl Hws) as [Hm _].
  apply (Hm 100 3%nat 4128 engine_one_block []).
  - simpl. lia.
  - exact engine_one_block_run.
Defined.

(* ================================================================== *)
(** ** Release after allocation, active allocations, separation *)
(* ================================================================== *)

(** The pointer [my_malloc] answers is read off the list of blocks. *)
Lemma my_malloc_ptr st bs size fuel :
  heap_chain st bs ->
  (length bs + 1 < fuel)%nat ->
  result_ptr (my_malloc fuel st size) =
  Some (if size =? 0 then 0
        else if first_fit (heap_start_ (self st)) (request_size size) bs =? 0 then 0
             else getData (first_fit (heap_start_ (self st)) (request_size size) bs)).
Proof.
  intros Hhc Hfuel.
  destruct (Z.eqb_spec size 0) as [->|Hsize]; [reflexivity|].
  destruct (first_fit_cases (request_size size) bs)
    as [Hnone | (pre & sz & post & -> & Hpre & Hle)].
  - rewrite (my_malloc_none st bs size fuel Hhc Hsize) by (exact Hnone || lia).
    rewrite first_fit_none by exact Hnone. reflexivity.
  - destruct (my_malloc_found st pre sz post size fuel Hhc Hsize Hfuel Hpre Hle)
      as (st' & Hrun & _).
    rewrite Hrun, first_fit_app by assumption. cbn [result_ptr option_map fst].
    destruct Hhc as (Hs & _ & _ & _ & Hc).
    pose proof (chain_sizes _ _ _ _ _ Hc) as Hsz.
    apply Forall_app in Hsz. destruct Hsz as [Hsz _].
    pose proof (span_nonneg _ Hsz).
    replace (heap_start_ (self st) + span pre =? 0) with false
      by (symmetry; apply Z.eqb_neq; lia).
    reflexivity.
Qed.

Lemma no_adjacent_free_last pre sz post :
  no_adjacent_free false (pre ++ (sz, true) :: post) ->
  prev_is_free pre = false /\ next_is_free post = false /\
  merge_prev pre sz = pre ++ [(sz, true)] /\ merge_next sz post = (sz, post).
Proof.
  rewrite no_adjacent_free_app. cbn [no_adjacent_free].
  intros (_ & Hl & Hpost).
  assert (Hn : next_is_free post = false /\ merge_next sz post = (sz, post)).
  { destruct post as [|[s2 [|]] post']; cbn [no_adjacent_free] in Hpost;
      cbn [next_is_free merge_next]; auto.
    destruct Hpost as [Hpost _]. discriminate. }
  destruct Hn as [Hn1 Hn2].
  unfold prev_is_free, merge_prev.
  destruct (rev_cases pre) as [[-> Hr] | (pre' & s0 & f0 & -> & Hr)]; rewrite Hr.
  - auto.
  - rewrite last_flag_app in Hl. cbn [last_flag] in Hl. rewrite andb_true_r in Hl.
    subst f0. auto.
Qed.

Lemma free_blocks_alloc_blocks pre sz post need :
  no_adjacent_free false (pre ++ (sz, true) :: post) ->
  exists got tail,
    alloc_blocks need sz = (got, false) :: tail /\
    free_blocks pre got (tail ++ post) = pre ++ (sz, true) :: post.
Proof.
  intro Hg. destruct (no_adjacent_free_last _ _ _ Hg) as (_ & _ & Hp & Hn).
  unfold alloc_blocks, free_blocks.
  destruct (sz - need <? HEADER_SIZE + MIN_BLOCK_SIZE).
  - exists sz, []. split; [reflexivity|]. cbn [app]. rewrite Hn. cbn [fst snd].
    rewrite Hp, <- app_assoc. reflexivity.
  - exists need, [(sz - need - HEADER_SIZE, true)]. split; [reflexivity|].
    cbn [app merge_next fst snd].
    replace (need + HEADER_SIZE + (sz - need - HEADER_SIZE)) with sz by lia.
    rewrite Hp, <- app_assoc. reflexivity.
Qed.

(** X5: under G5, freeing the pointer [my_malloc] has just returned
    restores the list of blocks the request found: the split remainder
    is merged back, the byte counters return to their values, and every
    later request is answered with the pointer it would have got
    before. *)
Theorem malloc_then_free_restores_layout :
  forall st bs size fuel p st1 d,
    Inv st bs ->
    no_adjacent_free false bs ->
    (length bs + 1 < fuel)%nat ->
    my_malloc fuel st size = Some (p, st1, d) ->
    p <> 0 ->
    let st2 := fst (my_free st1 p) in
    Inv st2 bs /\
    used_memory (stats st2) = used_memory (stats st) /\
    free_memory (stats st2) = free_memory (stats st) /\
    forall size',
      result_ptr (my_malloc fuel st2 size') = result_ptr (my_malloc fuel st size').
Proof.
  intros st bs size fuel p st1 d HI Hg Hfuel Hrun Hp st2.
  destruct (my_malloc_outcomes _ _ _ _ _ _ _ HI Hfuel Hrun)
    as [[E _] | (pre & sz & post & Hout)]; [contradiction|].
  cbv zeta in Hout. destruct Hout as (-> & Hle & -> & Hself & HI1).
  destruct (free_blocks_alloc_blocks pre sz post (request_size size) Hg)
    as (got & tail & Hab & Hfb).
  rewrite Hab in HI1. cbn [app] in HI1.
  assert (Hh1 : heap_start_ (self st1) = heap_start_ (self st))
    by (rewrite Hself; reflexivity).
  destruct (my_free_Inv_live st1 pre got (tail ++ post) HI1) as (st2' & Hfree & Hself2 & HI2).
  rewrite Hh1 in Hfree. rewrite Hfb in HI2.
  assert (E2 : st2 = st2') by (unfold st2; rewrite Hfree; reflexivity).
  rewrite <- E2 in HI2, Hself2. clear E2 Hfree st2'.
  assert (Hh2 : heap_start_ (self st2) = heap_start_ (self st))
    by (rewrite Hself2; exact Hh1).
  assert (Hs2 : heap_size_ (self st2) = heap_size_ (self st))
    by (rewrite Hself2; cbn; rewrite Hself; reflexivity).
  split; [exact HI2|].
  destruct HI as (Hhc & _ & _ & (A1 & A2 & A3 & _)).
  destruct HI2 as (Hhc2 & _ & _ & (B1 & B2 & B3 & _)).
  split; [congruence|]. split; [rewrite Hs2 in B1; lia|].
  intro size'.
  rewrite (my_malloc_ptr st2 _ size' fuel Hhc2 Hfuel).
  rewrite (my_malloc_ptr st _ size' fuel Hhc Hfuel).
  rewrite Hh2. reflexivity.
Qed.

Lemma malloc_then_free_restores_layout_witness :
  Inv (fst (my_free engine_one_block 4128)) [(4064, true)].
Proof.
  apply (malloc_then_free_restores_layout engine_4096 [(4064, true)] 100 3%nat
           4128 engine_one_block []).
  - exact engine_4096_Inv.
  - cbn. auto.
  - cbn [length]. lia.
  - exact engine_one_block_run.
  - lia.
Defined.

Lemma active_after_alloc s split got bs' n :
  active_allocations s = n -> 0 <= n -> n + 1 < SIZE_MOD ->
  active_allocations (stats_after_alloc s split got bs') = n + 1.
Proof.
  unfold active_allocations, stats_after_alloc. cbn [total_allocations total_frees].
  intros H H0 H1. rewrite wrap_sub_l.
  replace (total_allocations s + 1 - total_frees s)
    with ((total_allocations s - total_frees s) + 1) by lia.
  rewrite <- wrap_add_l, H. apply wrap_small. lia.
Qed.

Lemma active_iter_merge k s :
  active_allocations (Nat.iter k stats_after_merge s) = active_allocations s.
Proof.
  induction k as [|k IH]; [reflexivity|].
  change (Nat.iter (S k) stats_after_merge s)
    with (stats_after_merge (Nat.iter k stats_after_merge s)).
  rewrite <- IH. reflexivity.
Qed.

Lemma active_after_free st sz n :
  active_allocations (stats st) = n + 1 -> 0 <= n -> n + 1 < SIZE_MOD ->
  active_allocations (stats (updateStatsAfterFree st sz)) = n.
Proof.
  unfold active_allocations, updateStatsAfterFree, stats.
  cbn [with_stats self stats_ total_allocations total_frees].
  intros H H0 H1.
  replace (wrap (total_allocations (stats_ (self st)) -
                 wrap (total_frees (stats_ (self st)) + 1)))
    with (wrap (wrap (total_allocations (stats_ (self st)) -
                      total_frees (stats_ (self st))) - 1)).
  - rewrite H. replace (n + 1 - 1) with n by lia. apply wrap_small. lia.
  - rewrite wrap_sub_l. unfold wrap.
    rewrite (Zminus_mod (total_allocations _) ((_ + 1) mod SIZE_MOD)).
    rewrite Z.mod_mod by (unfold SIZE_MOD; lia).
    rewrite <- Zminus_mod. f_equal. lia.
Qed.

Lemma live_count_bound st bs :
  Inv st bs ->
  Z.of_nat (length (live_ptrs (heap_start_ (self st)) bs)) + 1 < SIZE_MOD.
Proof.
  intros HI. pose proof HI as ((_ & He & _ & _ & Hc) & Hend & _).
  pose proof (Inv_sizes _ _ HI) as Hsz. pose proof (Inv_span _ _ HI) as Hsp.
  pose proof (span_length _ Hsz) as Hl.
  assert (Hle : (length (live_ptrs (heap_start_ (self st)) bs) <= length bs)%nat).
  { clear. generalize (heap_start_ (self st)).
    induction bs as [|[s [|]] bs IH]; intro a; cbn [live_ptrs app length].
    - lia.
    - specialize (IH (a + HEADER_SIZE + s)). lia.
    - specialize (IH (a + HEADER_SIZE + s)). lia. }
  destruct HI as ((Hs & _) & _). unfold HEADER_SIZE, SIZE_MOD in *. lia.
Qed.

(** X6: the number [printStats] shows as active allocations,
    [total_allocations - total_frees] on [size_t], is the number of
    blocks in use: it is 0 after [initializeHeap], and once it equals
    that number, it still does after every [my_malloc] and every
    [my_free] of a pointer that is null, out of range or a payload of
    the chain. *)
Theorem active_allocations_counts_live_blocks :
  (forall st, active_allocations (stats (initializeHeap st)) = 0) /\
  (forall st bs,
      Inv st bs ->
      active_allocations (stats st) =
        Z.of_nat (length (live_ptrs (heap_start_ (self st)) bs)) ->
      (forall size fuel p st' d,
          (length bs + 1 < fuel)%nat ->
          my_malloc fuel st size = Some (p, st', d) ->
          exists bs',
            Inv st' bs' /\
            active_allocations (stats st') =
              Z.of_nat (length (live_ptrs (heap_start_ (self st')) bs'))) /\
      (forall ptr,
          ptr = 0 \/ isValidPointer (self st) ptr = false \/
          In ptr (payloads (heap_start_ (self st)) bs) ->
          exists bs',
            Inv (fst (my_free st ptr)) bs' /\
            active_allocations (stats (fst (my_free st ptr))) =
              Z.of_nat (length (live_ptrs (heap_start_ (self (fst (my_free st ptr)))) bs')))).
Proof.
  split; [reflexivity|].
  intros st bs HI Hact. split.
  - intros size fuel p st' d Hfuel Hrun.
    destruct (my_malloc_outcomes _ _ _ _ _ _ _ HI Hfuel Hrun)
      as [[-> ->] | (pre & sz & post & Hout)].
    + exists bs. split; assumption.
    + cbv zeta in Hout. destruct Hout as (-> & Hle & -> & Hself & HI').
      eexists. split; [exact HI'|].
      pose proof (live_count_bound _ _ HI') as Hb.
      unfold stats. rewrite Hself. cbn [self with_stats stats_ heap_start_].
      pose proof (Permutation_length
                    (live_ptrs_alloc (heap_start_ (self st)) pre sz post (request_size size)))
        as Hlen.
      cbn [length] in Hlen.
      rewrite Hself in Hb. cbn [self with_stats heap_start_] in Hb.
      rewrite <- Hlen in Hb |- *. rewrite Nat2Z.inj_succ in Hb |- *.
      unfold Z.succ in *. apply active_after_alloc; [exact Hact | lia | lia].
  - intros ptr Hptr.
    destruct (my_free_outcomes _ _ _ HI Hptr)
      as [-> | (pre & sz & post & -> & _ & Hself & HI')].
    + exists bs. split; assumption.
    + eexists. split; [exact HI'|].
      pose proof (live_count_bound _ _ HI) as Hb.
      unfold stats at 1. rewrite Hself. cbn [self with_stats stats_ heap_start_].
      rewrite active_iter_merge.
      destruct (free_blocks_facts (heap_start_ (self st)) pre sz post)
        as (_ & _ & _ & Hperm & _).
      cbv zeta in Hperm. apply Permutation_length in Hperm. cbn [length] in Hperm.
      rewrite <- Hperm in Hb, Hact. rewrite Nat2Z.inj_succ in Hb, Hact.
      unfold Z.succ in *. apply active_after_free; [exact Hact | lia | lia].
Qed.

Lemma active_allocations_counts_live_blocks_witness :
  exists bs',
    Inv engine_one_block bs' /\
    active_allocations (stats engine_one_block) =
      Z.of_nat (length (live_ptrs (heap_start_ (self engine_one_block)) bs')).
Proof.
  destruct active_allocations_counts_live_blocks as [_ H].
  destruct (H engine_4096 _ engine_4096_Inv eq_refl) as [Hm _].
  apply (Hm 100 3%nat 4128 engine_one_block []).
  - simpl. lia.
  - exact engine_one_block_run.
Defined.

(** X7: the block [my_malloc] returns lies inside the region and is
    separated from every block that was in use: between the payload of
    the one and the payload of the other there is at least one header. *)
Theorem my_malloc_disjoint_from_live :
  forall st bs size fuel p st' d,
    Inv st bs ->
    (length bs + 1 < fuel)%nat ->
    my_malloc fuel st size = Some (p, st', d) ->
    p <> 0 ->
    let n := blk_size (memory st') (fromData p) in
    heap_start_ (self st) + HEADER_SIZE <= p /\
    p + n <= heap_end_ (self st) /\
    forall q,
      In q (live_ptrs (heap_start_ (self st)) bs) ->
      let k := blk_size (memory st) (fromData q) in
      q + k + HEADER_SIZE <= p \/ p + n + HEADER_SIZE <= q.
Proof.
  intros st bs size fuel p st' d HI Hfuel Hrun Hp n.
  destruct (my_malloc_outcomes _ _ _ _ _ _ _ HI Hfuel Hrun)
    as [[E _] | (pre & sz & post & Hout)]; [contradiction|].
  cbv zeta in Hout. destruct Hout as (-> & Hle & -> & Hself & HI').
  set (h := heap_start_ (self st)) in *.
  pose proof (Inv_sizes _ _ HI) as Hsz. pose proof (Inv_span _ _ HI) as Hsp.
  destruct HI as ((_ & _ & _ & _ & Hc) & Hend & _). fold h in Hc, Hend.
  rewrite span_app in Hsp. cbn [span] in Hsp.
  apply Forall_app in Hsz. destruct Hsz as [Hszpre Hsz].
  apply Forall_cons_iff in Hsz. destruct Hsz as [Hz Hszpost]. cbn [fst] in Hz.
  pose proof (span_nonneg _ Hszpre) as Hp0.
  pose proof (span_nonneg _ Hszpost) as Hp1.
  pose proof (request_size_range size) as Hneed.
  (* the size of the returned block *)
  assert (Hn : MIN_BLOCK_SIZE <= n <= sz).
  { destruct (alloc_blocks_head (request_size size) sz) as (tail & Hab).
    rewrite Hab in HI'. cbn [app] in HI'.
    destruct HI' as ((_ & _ & _ & _ & Hc') & _).
    apply chain_block_header in Hc'. destruct Hc' as [Hc' _].
    assert (Hh' : heap_start_ (self st') = h) by (rewrite Hself; reflexivity).
    rewrite Hh' in Hc'. unfold n, fromData.
    replace (h + span pre + HEADER_SIZE - HEADER_SIZE) with (h + span pre) by lia.
    rewrite Hc'. destruct (negb _); lia. }
  split; [lia|]. split; [lia|].
  intros q Hq k. rewrite live_ptrs_app in Hq. cbn [live_ptrs app] in Hq.
  apply in_app_or in Hq. destruct Hq as [Hq | Hq].
  - left. apply live_ptrs_in in Hq. destruct Hq as (pre2 & s & post2 & -> & ->).
    rewrite <- app_assoc in Hc. cbn [app] in Hc.
    apply chain_block_header in Hc. destruct Hc as [Hc _].
    unfold k, fromData.
    replace (h + span pre2 + HEADER_SIZE - HEADER_SIZE) with (h + span pre2) by lia.
    rewrite Hc. rewrite span_app. cbn [span].
    apply Forall_app in Hszpre. destruct Hszpre as [_ H2].
    apply Forall_cons_iff in H2. destruct H2 as [_ H2].
    pose proof (span_nonneg _ H2). lia.
  - right. apply live_ptrs_in in Hq. destruct Hq as (post2 & s & post3 & -> & ->).
    apply Forall_app in Hszpost. destruct Hszpost as [H2 _].
    pose proof (span_nonneg _ H2). lia.
Qed.

(** A second request on a heap whose first block, at payload 4128, is in
    use: the new block lies after it. *)
Lemma my_malloc_disjoint_from_live_witness :
  4096 + HEADER_SIZE <= 4264 /\
  4264 + blk_size (memory engine_two_blocks) (fromData 4264) <= 4096 + 4096 /\
  (4128 + blk_size (memory engine_one_block) (fromData 4128) + HEADER_SIZE <= 4264 \/
   4264 + blk_size (memory engine_two_blocks) (fromData 4264) + HEADER_SIZE <= 4128).
Proof.
  destruct (my_malloc_disjoint_from_live engine_one_block _ 50 4%nat 4264
              engine_two_blocks [] engine_one_block_Inv) as (H1 & H2 & H3).
  - cbn [length]. lia.
  - exact engine_two_blocks_run.
  - lia.
  - split; [exact H1|]. split; [exact H2|].
    apply (H3 4128). left. reflexivity.
Defined.

(* ================================================================== *)
(** ** What a release writes *)
(* ================================================================== *)

Lemma same_off_refl P m : same_off P m m.
Proof. intros x _. reflexivity. Qed.

Lemma same_off_trans P m1 m2 m3 :
  same_off P m1 m2 -> same_off P m2 m3 -> same_off P m1 m3.
Proof. intros H1 H2 x Hx. rewrite H2, H1 by exact Hx. reflexivity. Qed.

Lemma same_off_weaken (P Q : Z -> Prop) m m' :
  same_off P m m' -> (forall x, P x -> Q x) -> same_off Q m m'.
Proof. intros H HPQ x Hx. apply H. intro HP. apply Hx, HPQ, HP. Qed.

Lemma same_off_store64 (P : Z -> Prop) m a v :
  (forall x, a <= x < a + 8 -> P x) -> same_off P m (store64 m a v).
Proof.
  intros HP x Hx. unfold store64.
  destruct (Z.leb_spec a x); [|reflexivity].
  destruct (Z.ltb_spec x (a + 8)); [|reflexivity].
  exfalso. apply Hx, HP. lia.
Qed.

Lemma same_off_store8 (P : Z -> Prop) m a v :
  P a -> same_off P m (store8 m a v).
Proof.
  intros HP x Hx. unfold store8.
  destruct (Z.eqb_spec x a); [subst; contradiction | reflexivity].
Qed.

Lemma in_links_app a xs ys x :
  in_links a (xs ++ ys) x <-> in_links a xs x \/ in_links (a + span xs) ys x.
Proof.
  revert a. induction xs as [|[s f] xs IH]; intro a; cbn [app in_links span].
  - rewrite Z.add_0_r. tauto.
  - rewrite IH.
    replace (a + HEADER_SIZE + s + span xs) with (a + (HEADER_SIZE + s + span xs)) by lia.
    tauto.
Qed.

Lemma in_links_range a bs x :
  Forall (fun b => 0 <= fst b < SIZE_MOD) bs ->
  in_links a bs x -> a <= x < a + span bs.
Proof.
  intro H. revert a. induction H as [|[s f] bs Hs Hbs IH]; intros a; cbn [in_links span].
  - tauto.
  - cbn [fst] in Hs. pose proof (span_nonneg bs Hbs). intros [Hx | Hx].
    +
      unfold OFF_IS_FREE, OFF_NEXT, HEADER_SIZE in *. lia.
    + apply IH in Hx. unfold HEADER_SIZE in *. lia.
Qed.

Lemma in_links_merge_next a sz post x :
  in_links (a + HEADER_SIZE + fst (merge_next sz post)) (snd (merge_next sz post)) x ->
  in_links (a + HEADER_SIZE + sz) post x.
Proof.
  destruct post as [|[s2 [|]] post']; cbn [merge_next fst snd in_links]; auto.
  replace (a + HEADER_SIZE + (sz + HEADER_SIZE + s2))
    with (a + HEADER_SIZE + sz + HEADER_SIZE + s2) by lia.
  auto.
Qed.

(** Chains a sequence of header writes into one [same_off] fact. *)
Ltac link_writes :=
  repeat first
    [ apply same_off_refl
    | eapply same_off_trans;
      [| apply same_off_store64; intros;
         first [ left; lia | right; left; lia | right; right; left; lia ] ] ].

(** The forward merge writes link fields only. *)
Lemma coalesce_next_links st pv a sz post e :
  chain (memory st) pv a ((sz, true) :: post) e ->
  e < SIZE_MOD ->
  same_off (in_links a ((sz, true) :: post)) (memory st) (memory (coalesce_next st a)).
Proof.
  intros Hc He.
  pose proof (chain_sizes _ _ _ _ _ Hc) as Hsz.
  pose proof (chain_end _ _ _ _ _ Hc) as Hend. cbn [span] in Hend.
  apply Forall_cons_iff in Hsz. destruct Hsz as [Hz Hszr]. cbn [fst] in Hz.
  pose proof (span_nonneg _ Hszr) as Hsp.
  unfold coalesce_next.
  set (m := memory st) in *.
  destruct post as [|[s2 f2] post'].
  - destruct Hc as (Ha & (H1 & H2 & H3 & H4) & Hc). cbn [cursor] in H3.
    rewrite H3. cbn [Z.eqb negb andb]. apply same_off_refl.
  - apply Forall_cons_iff in Hszr. destruct Hszr as [Hz2 Hszr]. cbn [fst] in Hz2.
    pose proof (span_nonneg _ Hszr) as Hsp2. cbn [span] in Hend, Hsp.
    destruct Hc as (Ha & (H1 & H2 & H3 & H4) & (Ha2 & (G1 & G2 & G3 & G4) & Hc)).
    cbn [cursor] in H3. rewrite H3.
    replace (a + HEADER_SIZE + sz =? 0) with false
      by (symmetry; apply Z.eqb_neq; unfold HEADER_SIZE; lia).
    rewrite G2. cbn [negb andb].
    destruct f2; [|apply same_off_refl].
    cbv zeta. cbn [with_stats with_memory self memory]. fold m.
    destruct post' as [|[s3 f3] post''].
    + cbn [cursor chain in_links] in *. fields. unfold SIZE_MOD in *.
      repeat mem_step. link_writes.
    + cbn [cursor chain in_links] in Hc, G3 |- *.
      apply Forall_cons_iff in Hszr. destruct Hszr as [Hz3 Hszr]. cbn [fst] in Hz3.
      pose proof (span_nonneg _ Hszr) as Hsp3. cbn [span] in Hend, Hsp2.
      destruct Hc as (Ha3 & (K1 & K2 & K3 & K4) & Hc).
      fields. unfold SIZE_MOD in *. repeat mem_step. link_writes.
Qed.

(** What [my_free] writes when it releases a block in use: the flag of
    the block, and link fields of headers of the chain. *)
Lemma my_free_writes st pre sz post :
  let bs := pre ++ (sz, false) :: post in
  let a := heap_start_ (self st) + span pre in
  heap_chain st bs ->
  0 < sz ->
  let m' := memory (fst (my_free st (a + HEADER_SIZE))) in
  same_off (fun x => x = a + OFF_IS_FREE \/ in_links (heap_start_ (self st)) bs x)
           (memory st) m' /\
  blk_is_free m' a = true.
Proof.
  intros bs a (Hs & He & Hfl & Hne & Hc) Hpos.
  pose proof (chain_sizes _ _ _ _ _ Hc) as Hsz.
  pose proof (chain_end _ _ _ _ _ Hc) as Hend.
  unfold bs in Hsz, Hend. rewrite span_app in Hend. cbn [span] in Hend.
  apply Forall_app in Hsz. destruct Hsz as [Hszpre Hsz].
  pose proof Hsz as Hszw.
  apply Forall_cons_iff in Hsz. destruct Hsz as [Hz Hszpost]. cbn [fst] in Hz.
  pose proof (span_nonneg _ Hszpre) as Hp0.
  pose proof (span_nonneg _ Hszpost) as Hp1.
  set (h := heap_start_ (self st)) in *.
  set (e := heap_end_ (self st)) in *.
  assert (Hw : chain (memory st) (last_addr 0 h pre) a ((sz, false) :: post) e).
  { apply chain_app in Hc; [tauto | discriminate]. }
  assert (Hfree : blk_is_free (memory st) a = false)
    by (destruct Hw as (_ & (_ & H & _) & _); exact H).
  assert (Hsize : blk_size (memory st) a = sz)
    by (destruct Hw as (_ & (H & _) & _); exact H).
  pose (st1 := updateStatsAfterFree st sz).
  pose (st2 := with_memory st1 (set_is_free (memory st1) a true)).
  pose (st3 := coalesce_next st2 a).
  destruct (chain_set_is_free _ _ _ _ _ _ _ true Hw) as [Hw2 Hout2].
  change (set_is_free (memory st) a true) with (memory st2) in Hw2, Hout2.
  destruct (coalesce_next_chain st2 _ a sz post e Hw2 He) as (Hw3 & Hout3 & Hself3).
  pose proof (coalesce_next_links st2 _ a sz post e Hw2 He) as Hl3.
  fold st3 in Hw3, Hout3, Hself3, Hl3.
  set (cur := fst (merge_next sz post)) in *.
  set (post' := snd (merge_next sz post)) in *.
  assert (Hc3 : chain (memory st3) 0 h (pre ++ (cur, true) :: post') e).
  { apply (chain_update (memory st) _ 0 h pre ((sz, false) :: post));
      [discriminate | discriminate | exact Hc |].
    intros _. split; [exact Hw3|]. fold a.
    eapply same_outside_trans; [|exact Hout3].
    eapply same_outside_weaken; [exact Hout2 | lia | unfold a, HEADER_SIZE in *; lia]. }
  set (P := fun x => x = a + OFF_IS_FREE \/ in_links h bs x).
  (* the flag write *)
  assert (F2 : same_off P (memory st) (memory st2)).
  { apply same_off_store8. left. reflexivity. }
  assert (B2 : memory st2 (a + OFF_IS_FREE) = 1).
  { cbn [st2 st1 memory with_memory updateStatsAfterFree with_stats].
    unfold set_is_free, store8. rewrite Z.eqb_refl. reflexivity. }
  (* the forward merge *)
  assert (Hwin : forall x, in_links a ((sz, true) :: post) x -> P x).
  { intros x Hx. right. unfold bs. apply in_links_app. right. exact Hx. }
  assert (Hflag : forall bs0, Forall (fun b => 0 <= fst b < SIZE_MOD) bs0 ->
                    ~ in_links a ((sz, true) :: bs0) (a + OFF_IS_FREE)).
  { intros bs0 H0 [Hx | Hx].
    - unfold OFF_IS_FREE, OFF_NEXT, HEADER_SIZE in Hx. lia.
    - apply in_links_range in Hx; [|exact H0].
      unfold OFF_IS_FREE, HEADER_SIZE in Hx. lia. }
  assert (F3 : same_off P (memory st) (memory st3)).
  { eapply same_off_trans; [exact F2|]. eapply same_off_weaken; [exact Hl3 | exact Hwin]. }
  assert (B3 : memory st3 (a + OFF_IS_FREE) = 1).
  { rewrite (Hl3 (a + OFF_IS_FREE)); [exact B2|]. apply Hflag. exact Hszpost. }
  assert (Hrun : my_free st (a + HEADER_SIZE) =
                 (fst (coalesce_prev st3 a), [])).
  { unfold my_free.
    replace (a + HEADER_SIZE =? 0) with false
      by (symmetry; apply Z.eqb_neq; unfold HEADER_SIZE; lia).
    unfold isValidPointer. fold h e.
    replace (h + HEADER_SIZE <=? a + HEADER_SIZE) with true
      by (symmetry; apply Z.leb_le; unfold a; lia).
    replace (a + HEADER_SIZE <? e) with true
      by (symmetry; apply Z.ltb_lt; unfold a; lia).
    cbn [andb negb].
    replace (fromData (a + HEADER_SIZE)) with a by (unfold fromData; lia).
    rewrite Hfree, Hsize. fold st1. cbv zeta. fold st2.
    rewrite coalesceBlock_halves. reflexivity. }
  assert (Hdone : forall m', same_off P (memory st) m' -> m' (a + OFF_IS_FREE) = 1 ->
                    same_off P (memory st) m' /\ blk_is_free m' a = true).
  { intros m' H1 H2. split; [exact H1|].
    unfold blk_is_free, load8. rewrite H2. reflexivity. }
  cbv zeta. rewrite Hrun. cbn [fst].
  destruct (rev_cases pre) as [[Hpre Hr] | (pre' & s0 & f0 & Hpre & Hr)].
  - subst pre. cbn [app span last_addr] in *.
    assert (Hk : coalesce_prev st3 a = (st3, a)).
    { apply coalesce_prev_keep. left.
      destruct Hw3 as (_ & (_ & _ & _ & H) & _). exact H. }
    rewrite Hk. cbn [fst]. apply Hdone; assumption.
  - assert (Hszpre' : Forall (fun b => 0 <= fst b < SIZE_MOD) pre' /\ 0 <= s0 < SIZE_MOD).
    { rewrite Hpre in Hszpre. apply Forall_app in Hszpre. destruct Hszpre as [H1 H2].
      apply Forall_cons_iff in H2. cbn [fst] in H2. tauto. }
    destruct Hszpre' as [Hszpre' Hs0].
    pose proof (span_nonneg _ Hszpre') as Hp0'.
    set (a0 := h + span pre').
    assert (Ha : a = a0 + HEADER_SIZE + s0).
    { unfold a, a0. rewrite Hpre, span_app. cbn [span]. lia. }
    assert (Hc3' : chain (memory st3) 0 h (pre' ++ (s0, f0) :: (cur, true) :: post') e).
    { rewrite Hpre, <- app_assoc in Hc3. exact Hc3. }
    assert (Hw0 : chain (memory st3) (last_addr 0 h pre') a0
                    ((s0, f0) :: (cur, true) :: post') e).
    { apply chain_app in Hc3'; [tauto | discriminate]. }
    pose proof Hw0 as Hw0'.
    destruct Hw0' as (Ha0 & (P1 & P2 & P3 & P4) & (Ha1 & (Q1 & Q2 & Q3 & Q4) & _)).
    cbn [cursor] in P3. rewrite <- Ha in P3, Q1, Q2, Q3, Q4, Ha1.
    destruct f0.
    + rewrite (coalesce_prev_as_next st3 a0 a) by (auto; lia). cbn [fst].
      pose proof (coalesce_next_links st3 _ a0 s0 ((cur, true) :: post') e Hw0 He) as Hl4.
      assert (Hwin0 : forall x, in_links a0 ((s0, true) :: (cur, true) :: post') x -> P x).
      { intros x Hx. right. unfold bs. rewrite Hpre, <- app_assoc. cbn [app].
        apply in_links_app. right. fold a0. cbn [in_links] in Hx |- *.
        rewrite <- Ha in Hx |- *.
        destruct Hx as [Hx | [Hx | Hx]]; [tauto | tauto |].
        right. right. apply in_links_merge_next. exact Hx. }
      apply Hdone.
      * eapply same_off_trans; [exact F3|].
        eapply same_off_weaken; [exact Hl4 | exact Hwin0].
      * rewrite (Hl4 (a + OFF_IS_FREE)); [exact B3|].
        cbn [in_links]. rewrite <- Ha. intros [Hx | Hx].
        -- unfold OFF_IS_FREE, OFF_NEXT, HEADER_SIZE in *. lia.
        -- revert Hx. fold (in_links a ((cur, true) :: post')).
           pose proof (chain_sizes _ _ _ _ _ Hw3) as Hsz3.
           apply Forall_cons_iff in Hsz3. destruct Hsz3 as [Hzc Hsz3].
           intros [Hx | Hx].
           ++ unfold OFF_IS_FREE, OFF_NEXT, HEADER_SIZE in *. lia.
           ++ apply in_links_range in Hx; [|exact Hsz3]. cbn [fst] in Hzc.
              unfold OFF_IS_FREE, HEADER_SIZE in *. lia.
    + assert (Hk : coalesce_prev st3 a = (st3, a)).
      { apply coalesce_prev_keep. right. rewrite Q4. exact P2. }
      rewrite Hk. cbn [fst]. apply Hdone; assumption.
Qed.

(* ================================================================== *)
(** ** Payloads across release and allocation *)
(* ================================================================== *)

Lemma in_headers_app a xs ys x :
  in_headers a (xs ++ ys) x <-> in_headers a xs x \/ in_headers (a + span xs) ys x.
Proof.
  revert a. induction xs as [|[s f] xs IH]; intro a; cbn [app in_headers span].
  - rewrite Z.add_0_r. tauto.
  - rewrite IH.
    replace (a + HEADER_SIZE + s + span xs) with (a + (HEADER_SIZE + s + span xs)) by lia.
    tauto.
Qed.

Lemma in_headers_range a bs x :
  Forall (fun b => 0 <= fst b < SIZE_MOD) bs ->
  in_headers a bs x -> a <= x < a + span bs.
Proof.
  intro H. revert a. induction H as [|[s f] bs Hs Hbs IH]; intros a; cbn [in_headers span].
  - tauto.
  - cbn [fst] in Hs. pose proof (span_nonneg bs Hbs). intros [Hx | Hx].
    + unfold HEADER_SIZE in *. lia.
    + apply IH in Hx. unfold HEADER_SIZE in *. lia.
Qed.

Lemma in_links_headers a bs x : in_links a bs x -> in_headers a bs x.
Proof.
  revert a. induction bs as [|[s f] bs IH]; intro a; cbn [in_links in_headers]; [tauto|].
  intros [Hx | Hx]; [left | right; apply IH; exact Hx].
  unfold OFF_IS_FREE, OFF_NEXT, HEADER_SIZE in *. lia.
Qed.

(** No payload byte is a header byte. *)
Lemma payload_not_header h pre sz f post i :
  Forall (fun b => 0 <= fst b < SIZE_MOD) (pre ++ (sz, f) :: post) ->
  0 <= i < sz ->
  ~ in_headers h (pre ++ (sz, f) :: post) (h + span pre + HEADER_SIZE + i).
Proof.
  intros Hsz Hi Hx. apply Forall_app in Hsz. destruct Hsz as [Hpre Hsz].
  apply Forall_cons_iff in Hsz. destruct Hsz as [_ Hpost].
  apply in_headers_app in Hx. destruct Hx as [Hx | Hx].
  - apply in_headers_range in Hx; [|exact Hpre]. unfold HEADER_SIZE in *. lia.
  - cbn [in_headers] in Hx. destruct Hx as [Hx | Hx]; [lia|].
    apply in_headers_range in Hx; [|exact Hpost]. lia.
Qed.

(** The payload address of a block of the chain passes the range check. *)
Lemma block_ptr_valid st pre sz f post :
  heap_chain st (pre ++ (sz, f) :: post) ->
  0 < sz ->
  let p := heap_start_ (self st) + span pre + HEADER_SIZE in
  p <> 0 /\ isValidPointer (self st) p = true.
Proof.
  intros (Hs & He & Hfl & Hne & Hc) Hpos p.
  pose proof (chain_sizes _ _ _ _ _ Hc) as Hsz.
  pose proof (chain_end _ _ _ _ _ Hc) as Hend.
  rewrite span_app in Hend. cbn [span] in Hend.
  apply Forall_app in Hsz. destruct Hsz as [Hszpre Hsz].
  apply Forall_cons_iff in Hsz. destruct Hsz as [Hz Hszpost]. cbn [fst] in Hz.
  pose proof (span_nonneg _ Hszpre) as Hp0.
  pose proof (span_nonneg _ Hszpost) as Hp1.
  unfold isValidPointer, p. split; [unfold HEADER_SIZE; lia|].
  apply andb_true_iff. split; [apply Z.leb_le | apply Z.ltb_lt]; lia.
Qed.

Lemma Inv_live_pos st pre sz post : Inv st (pre ++ (sz, false) :: post) -> 0 < sz.
Proof.
  intros (_ & _ & Hlive & _). unfold live_min in Hlive.
  apply Forall_app in Hlive. destruct Hlive as [_ H].
  apply Forall_cons_iff in H. destruct H as [H _]. cbn [fst snd] in H.
  specialize (H eq_refl). unfold MIN_BLOCK_SIZE in H. lia.
Qed.


(** X8: a second [my_free] of the same pointer is always caught: after
    a block in use has been released, with or without merging, its
    header still reads as free, so the second call prints the double-free
    line and changes nothing. *)
Theorem second_free_is_reported :
  forall st bs ptr,
    Inv st bs ->
    In ptr (live_ptrs (heap_start_ (self st)) bs) ->
    let st1 := fst (my_free st ptr) in
    snd (my_free st ptr) = [] /\
    my_free st1 ptr = (st1, [FreeDoubleFree]).
Proof.
  intros st bs ptr HI Hptr st1.
  destruct (live_ptrs_in _ _ _ Hptr) as (pre & sz & post & -> & Eptr).
  pose proof (Inv_live_pos _ _ _ _ HI) as Hpos.
  pose proof HI as (Hhc & _).
  destruct (my_free_live st pre sz post Hhc Hpos) as (st' & Hrun & _ & Hself).
  destruct (my_free_writes st pre sz post Hhc Hpos) as (_ & Hflag).
  destruct (block_ptr_valid st pre sz false post Hhc Hpos) as (Hnz & Hvalid).
  cbv zeta in Hflag, Hnz, Hvalid. rewrite <- Eptr in Hrun, Hflag, Hnz, Hvalid.
  assert (E1 : fst (my_free st ptr) = st') by (rewrite Hrun; reflexivity).
  subst st1. rewrite E1 in *. rewrite Hrun. cbn [snd]. split; [reflexivity|].
  unfold my_free.
  replace (ptr =? 0) with false by (symmetry; apply Z.eqb_neq; exact Hnz).
  replace (isValidPointer (self st') ptr) with true
    by (rewrite Hself; symmetry; exact Hvalid).
  cbn [negb].
  replace (fromData ptr) with (heap_start_ (self st) + span pre)
    by (unfold fromData; lia).
  rewrite Hflag. reflexivity.
Qed.

Lemma second_free_is_reported_witness :
  my_free (fst (my_free engine_one_block 4128)) 4128 =
  (fst (my_free engine_one_block 4128), [FreeDoubleFree]).
Proof.
  apply (second_free_is_reported engine_one_block _ 4128 engine_one_block_Inv).
  left. reflexivity.
Defined.

(** [my_free] writes header bytes only. *)
Lemma my_free_header_frame st bs ptr :
  Inv st bs ->
  ptr = 0 \/ isValidPointer (self st) ptr = false \/
  In ptr (payloads (heap_start_ (self st)) bs) ->
  forall x, ~ in_headers (heap_start_ (self st)) bs x ->
            memory (fst (my_free st ptr)) x = memory st x.
Proof.
  intros HI Hptr.
  assert (Hsame : fst (my_free st ptr) = st \/
            exists pre sz post,
              bs = pre ++ (sz, false) :: post /\
              ptr = heap_start_ (self st) + span pre + HEADER_SIZE).
  { destruct Hptr as [H | [H | H]].
    - left. apply my_free_guarded. auto.
    - left. apply my_free_guarded. auto.
    - apply payloads_in in H. destruct H as (pre & sz & f & post & -> & ->).
      destruct f.
      + left. apply my_free_guarded. right. right.
        destruct HI as ((_ & _ & _ & _ & Hc) & _).
        apply chain_block_header in Hc. destruct Hc as [_ Hc].
        replace (fromData (heap_start_ (self st) + span pre + HEADER_SIZE))
          with (heap_start_ (self st) + span pre) by (unfold fromData; lia).
        exact Hc.
      + right. exists pre, sz, post. split; reflexivity. }
  destruct Hsame as [E | (pre & sz & post & -> & ->)].
  - intros x _. rewrite E. reflexivity.
  - pose proof (Inv_live_pos _ _ _ _ HI) as Hpos.
    pose proof HI as (Hhc & _).
    destruct (my_free_writes st pre sz post Hhc Hpos) as (Hw & _).
    cbv zeta in Hw. intros x Hx. apply Hw. intros [-> | Hl].
    + apply Hx. apply in_headers_app. right. cbn [in_headers]. left.
      unfold OFF_IS_FREE, HEADER_SIZE. lia.
    + apply Hx. apply in_links_headers. exact Hl.
Qed.

(** X9: [my_free] writes header bytes only: every byte of the region
    outside the headers of the chain, so every payload byte of every
    block, the released one included, keeps its value. *)
Theorem my_free_keeps_payloads :
  forall st bs ptr,
    Inv st bs ->
    ptr = 0 \/ isValidPointer (self st) ptr = false \/
    In ptr (payloads (heap_start_ (self st)) bs) ->
    let m' := memory (fst (my_free st ptr)) in
    (forall x, ~ in_headers (heap_start_ (self st)) bs x -> m' x = memory st x) /\
    (forall pre sz f post i,
        bs = pre ++ (sz, f) :: post ->
        0 <= i < sz ->
        m' (heap_start_ (self st) + span pre + HEADER_SIZE + i) =
        memory st (heap_start_ (self st) + span pre + HEADER_SIZE + i)).
Proof.
  intros st bs ptr HI Hptr m'.
  pose proof (my_free_header_frame st bs ptr HI Hptr) as Hframe.
  split; [exact Hframe|].
  intros pre sz f post i -> Hi. apply Hframe.
  apply payload_not_header; [|exact Hi]. apply (Inv_sizes _ _ HI).
Qed.

Lemma my_free_keeps_payloads_witness :
  memory (fst (my_free engine_one_block 4128)) (4096 + span [] + HEADER_SIZE + 5) =
  memory engine_one_block (4096 + span [] + HEADER_SIZE + 5).
Proof.
  destruct (my_free_keeps_payloads engine_one_block _ 4128 engine_one_block_Inv) as [_ H].
  - right. right. left. reflexivity.
  - apply (H [] 104 false [(3928, true)] 5); [reflexivity | lia].
Defined.

(** The memory a successful [my_malloc] leaves is the memory after the
    split and the marking: the recount reads only. *)
Lemma my_malloc_memory fuel st size p st' d :
  my_malloc fuel st size = Some (p, st', d) ->
  p <> 0 ->
  memory st' =
  set_is_free (memory (fst (splitBlock st (fromData p) (request_size size))))
              (fromData p) false.
Proof.
  unfold my_malloc. destruct (size =? 0); [intros H; inversion H; congruence|].
  fold (request_size size).
  destruct (findFreeBlock fuel st (request_size size)) as [block|]; [|discriminate].
  destruct (block =? 0); [intros H; inversion H; congruence|].
  unfold updateStatsAfterAlloc, recalculateBlockCounts.
  cbn [with_stats with_memory self memory free_list_].
  destruct (count_blocks _ _ _ _ _) as [[t fc]|]; [|discriminate].
  intros H _. inversion H; subst.
  replace (fromData (getData block)) with block by (unfold fromData, getData; lia).
  reflexivity.
Qed.

Lemma splitBlock_frame st pv a sz post e need :
  chain (memory st) pv a ((sz, true) :: post) e ->
  e < SIZE_MOD ->
  0 <= need <= sz ->
  HEADER_SIZE + MIN_BLOCK_SIZE <= sz - need ->
  same_outside (memory st) (memory (fst (splitBlock st a need))) a
               (a + HEADER_SIZE + sz + HEADER_SIZE).
Proof.
  intros Hc He Hn Hs.
  pose proof (chain_sizes _ _ _ _ _ Hc) as Hsz.
  pose proof (chain_end _ _ _ _ _ Hc) as Hend.
  apply Forall_cons_iff in Hsz. destruct Hsz as [Hz Hszr]. cbn [fst] in Hz.
  pose proof (span_nonneg _ Hszr) as Hsp.
  destruct Hc as (Ha & (H1 & H2 & H3 & H4) & Hc).
  cbn [span] in Hend.
  unfold splitBlock. rewrite H1.
  unfold HEADER_SIZE, MIN_BLOCK_SIZE, SIZE_MOD in *.
  rewrite (wrap_small (sz - need)) by (unfold SIZE_MOD; lia).
  replace (sz - need <? 32 + 16) with false by (symmetry; apply Z.ltb_ge; lia).
  cbn [fst memory self with_stats with_memory].
  set (m := memory st) in *. clearbody m.
  destruct post as [|[s2 f2] post'].
  - cbn [cursor chain] in *. fields. repeat mem_step. frame_writes.
  - cbn [cursor chain] in Hc, H3 |- *.
    apply Forall_cons_iff in Hszr. destruct Hszr as [Hz2 Hszr]. cbn [fst] in Hz2.
    destruct Hc as (Ha2 & (G1 & G2 & G3 & G4) & Hc).
    cbn [span] in Hend, Hsp.
    pose proof (span_nonneg _ Hszr) as Hsp2.
    fields. repeat mem_step. frame_writes.
Qed.

Lemma take_block_frame st pv a sz post e need :
  chain (memory st) pv a ((sz, true) :: post) e ->
  e < SIZE_MOD ->
  0 <= need <= sz ->
  same_outside (memory st)
    (set_is_free (memory (fst (splitBlock st a need))) a false)
    a (a + HEADER_SIZE + sz + HEADER_SIZE).
Proof.
  intros Hc He Hn.
  pose proof (chain_sizes _ _ _ _ _ Hc) as Hsz.
  apply Forall_cons_iff in Hsz. destruct Hsz as [Hz _]. cbn [fst] in Hz.
  assert (Hsize : blk_size (memory st) a = sz) by (destruct Hc as (_ & (H & _) & _); exact H).
  assert (Hflag : forall m, same_outside m (set_is_free m a false) a
                              (a + HEADER_SIZE + sz + HEADER_SIZE)).
  { intro m. unfold set_is_free. apply same_outside_store8;
      unfold OFF_IS_FREE, HEADER_SIZE; lia. }
  destruct (Z.ltb_spec (sz - need) (HEADER_SIZE + MIN_BLOCK_SIZE)) as [Hlt|Hge].
  - assert (E : splitBlock st a need = (st, false)).
    { apply splitBlock_small. rewrite Hsize.
      rewrite wrap_small by (unfold SIZE_MOD in *; lia). exact Hlt. }
    rewrite E. cbn [fst]. apply Hflag.
  - eapply same_outside_trans; [|apply Hflag].
    apply (splitBlock_frame st pv a sz post e need); assumption.
Qed.

(** Where a successful [my_malloc] writes: between the header of the
    block it chose and the header that follows it. *)
Lemma same_outside_meet m m' lo hi1 hi2 :
  same_outside m m' lo hi1 ->
  same_outside m m' lo hi2 ->
  same_outside m m' lo (Z.min hi1 hi2).
Proof.
  intros H1 H2 a Ha.
  destruct (Z.min_spec hi1 hi2) as [[_ E] | [_ E]]; rewrite E in Ha;
    [apply H1 | apply H2]; exact Ha.
Qed.

Lemma my_malloc_window st bs size fuel p st' d :
  Inv st bs ->
  (length bs + 1 < fuel)%nat ->
  my_malloc fuel st size = Some (p, st', d) ->
  p <> 0 ->
  exists pre sz post,
    bs = pre ++ (sz, true) :: post /\
    fromData p = heap_start_ (self st) + span pre /\
    blk_size (memory st) (fromData p) = sz /\
    same_outside (memory st) (memory st') (fromData p)
      (Z.min (p + sz + HEADER_SIZE) (heap_end_ (self st))).
Proof.
  intros HI Hfuel Hrun Hpnz.
  assert (Hregion : same_outside (memory st) (memory st') (fromData p)
                      (heap_end_ (self st))).
  { destruct (my_malloc_Inv st bs size fuel HI Hfuel)
      as [(d0 & E) | (st0 & pre0 & sz0 & post0 & Hout)].
    - rewrite E in Hrun. inversion Hrun. congruence.
    - cbv zeta in Hout. destruct Hout as (_ & _ & _ & _ & E & _ & Hout & _).
      rewrite E in Hrun. inversion Hrun; subst.
      replace (fromData (heap_start_ (self st) + span pre0 + HEADER_SIZE))
        with (heap_start_ (self st) + span pre0) by (unfold fromData; lia).
      exact Hout. }
  destruct (my_malloc_outcomes _ _ _ _ _ _ _ HI Hfuel Hrun)
    as [[E _] | (pre & sz & post & Hout)]; [contradiction|].
  cbv zeta in Hout. destruct Hout as (-> & Hle & Ep & _ & _).
  set (h := heap_start_ (self st)) in *.
  pose proof (Inv_sizes _ _ HI) as Hsz.
  pose proof HI as ((Hs & He & _ & _ & Hc) & _). fold h in Hc, Hs.
  assert (Hw : chain (memory st) (last_addr 0 h pre) (h + span pre) ((sz, true) :: post)
                 (heap_end_ (self st))).
  { apply chain_app in Hc; [tauto | discriminate]. }
  apply Forall_app in Hsz. destruct Hsz as [_ Hsz].
  apply Forall_cons_iff in Hsz. destruct Hsz as [Hz _]. cbn [fst] in Hz.
  pose proof (request_size_range size) as Hneed.
  assert (Ea : fromData p = h + span pre) by (unfold fromData; lia).
  exists pre, sz, post. split; [reflexivity|]. split; [exact Ea|].
  split; [rewrite Ea; destruct Hw as (_ & (H & _) & _); exact H|].
  apply same_outside_meet; [|exact Hregion].
  rewrite (my_malloc_memory _ _ _ _ _ _ Hrun Hpnz), Ea.
  replace (p + sz + HEADER_SIZE) with (h + span pre + HEADER_SIZE + sz + HEADER_SIZE) by lia.
  apply (take_block_frame st _ _ sz post _ (request_size size) Hw He).
  unfold MIN_BLOCK_SIZE in *. lia.
Qed.

(** The payload of a block in use lies outside the window of a free
    block of the same chain. *)
Lemma live_outside_window m pv h pre sz post e q i :
  chain m pv h (pre ++ (sz, true) :: post) e ->
  In q (live_ptrs h (pre ++ (sz, true) :: post)) ->
  0 <= i < blk_size m (fromData q) ->
  q + i < h + span pre \/
  h + span pre + HEADER_SIZE + sz + HEADER_SIZE <= q + i.
Proof.
  intros Hc Hq Hi.
  pose proof (chain_sizes _ _ _ _ _ Hc) as Hsz.
  apply Forall_app in Hsz. destruct Hsz as [Hszpre Hsz].
  apply Forall_cons_iff in Hsz. destruct Hsz as [Hz Hszpost]. cbn [fst] in Hz.
  rewrite live_ptrs_app in Hq. cbn [live_ptrs app] in Hq.
  apply in_app_or in Hq. destruct Hq as [Hq | Hq].
  - left. apply live_ptrs_in in Hq. destruct Hq as (pre2 & s & post2 & -> & ->).
    rewrite <- app_assoc in Hc. cbn [app] in Hc.
    apply chain_block_header in Hc. destruct Hc as [Hc _].
    replace (fromData (h + span pre2 + HEADER_SIZE)) with (h + span pre2) in Hi
      by (unfold fromData; lia).
    rewrite Hc in Hi. rewrite span_app. cbn [span].
    apply Forall_app in Hszpre. destruct Hszpre as [_ H2].
    apply Forall_cons_iff in H2. destruct H2 as [_ H2].
    pose proof (span_nonneg _ H2). unfold HEADER_SIZE in *. lia.
  - right. apply live_ptrs_in in Hq. destruct Hq as (post2 & s & post3 & -> & ->).
    apply Forall_app in Hszpost. destruct Hszpost as [H2 _].
    pose proof (span_nonneg _ H2). unfold HEADER_SIZE in *. lia.
Qed.

(** X10: a successful [my_malloc] writes only from the header of the
    block it chose up to the end of the header that follows that block,
    or up to [heap_end_] when the block is the last one; the payload
    bytes of every block in use keep their values. *)
Theorem my_malloc_keeps_live_payloads :
  forall st bs size fuel p st' d,
    Inv st bs ->
    (length bs + 1 < fuel)%nat ->
    my_malloc fuel st size = Some (p, st', d) ->
    (p <> 0 ->
     same_outside (memory st) (memory st') (fromData p)
       (Z.min (p + blk_size (memory st) (fromData p) + HEADER_SIZE)
              (heap_end_ (self st)))) /\
    (forall q i,
        In q (live_ptrs (heap_start_ (self st)) bs) ->
        0 <= i < blk_size (memory st) (fromData q) ->
        memory st' (q + i) = memory st (q + i)).
Proof.
  intros st bs size fuel p st' d HI Hfuel Hrun.
  destruct (Z.eq_dec p 0) as [E | Hp].
  { destruct (my_malloc_outcomes _ _ _ _ _ _ _ HI Hfuel Hrun)
      as [[_ ->] | (pre & sz & post & Hout)].
    - split; [intro H; contradiction | reflexivity].
    - cbv zeta in Hout. destruct Hout as (Hbs & _ & Ep & _).
      pose proof HI as ((Hs & _) & _). pose proof (Inv_sizes _ _ HI) as Hsz.
      exfalso.
      rewrite Hbs in Hsz. apply Forall_app in Hsz. destruct Hsz as [Hsz _].
      pose proof (span_nonneg _ Hsz). unfold HEADER_SIZE in *. lia. }
  destruct (my_malloc_window st bs size fuel p st' d HI Hfuel Hrun Hp)
    as (pre & sz & post & Hbs & Ea & Hsize & Hframe).
  split; [intros _; rewrite Hsize; exact Hframe|].
  intros q i Hq Hi. apply Hframe. rewrite Ea.
  destruct HI as ((_ & _ & _ & _ & Hc) & _). rewrite Hbs in Hc, Hq.
  destruct (live_outside_window _ _ _ _ _ _ _ q i Hc Hq Hi) as [H | H].
  - left. exact H.
  - right. unfold fromData in Ea. lia.
Qed.

(** A second request while the block at payload 4128 is in use: the
    writes stay in the window of the chosen block, and byte 5 of the
    live payload keeps its value. *)
Lemma my_malloc_keeps_live_payloads_witness :
  same_outside (memory engine_one_block) (memory engine_two_blocks) (fromData 4264)
    (Z.min (4264 + blk_size (memory engine_one_block) (fromData 4264) + HEADER_SIZE)
           (heap_end_ (self engine_one_block))) /\
  memory engine_two_blocks (4128 + 5) = memory engine_one_block (4128 + 5).
Proof.
  destruct (my_malloc_keeps_live_payloads engine_one_block _ 50 4%nat 4264
              engine_two_blocks [] engine_one_block_Inv) as [H1 H2].
  - cbn [length]. lia.
  - exact engine_two_blocks_run.
  - split.
    + apply H1. lia.
    + apply (H2 4128 5).
      * left. reflexivity.
      * assert (E : blk_size (memory engine_one_block) (fromData 4128) = 104)
          by (vm_compute; reflexivity).
        rewrite E. lia.
Defined.

(* ================================================================== *)
(** ** Contents across reallocation *)
(* ================================================================== *)

(** Growing in place writes link fields only: the payload stays. *)
Lemma my_realloc_grow_frame st pre sz post new_size fuel q st' d :
  let ptr := heap_start_ (self st) + span pre + HEADER_SIZE in
  heap_chain st (pre ++ (sz, false) :: post) ->
  grows_in_place st ptr new_size = true ->
  my_realloc fuel st ptr new_size = Some (q, st', d) ->
  q = ptr /\
  forall i, 0 <= i < sz -> memory st' (ptr + i) = memory st (ptr + i).
Proof.
  intros ptr (Hs & He & Hfl & Hne & Hc) H Hrun.
  pose proof (chain_sizes _ _ _ _ _ Hc) as Hsz.
  pose proof (chain_end _ _ _ _ _ Hc) as Hend.
  rewrite span_app in Hend. cbn [span] in Hend.
  apply Forall_app in Hsz. destruct Hsz as [Hszpre Hsz].
  apply Forall_cons_iff in Hsz. destruct Hsz as [Hz Hszr]. cbn [fst] in Hz.
  pose proof (span_nonneg _ Hszpre) as Hp0.
  pose proof (span_nonneg _ Hszr) as Hsp.
  set (h := heap_start_ (self st)) in *.
  set (e := heap_end_ (self st)) in *.
  set (a := h + span pre) in *.
  assert (Hw : chain (memory st) (last_addr 0 h pre) a ((sz, false) :: post) e).
  { apply chain_app in Hc; [tauto | discriminate]. }
  assert (Ea : fromData ptr = a) by (unfold fromData, ptr; lia).
  unfold grows_in_place in H. rewrite Ea in H.
  repeat (apply andb_true_iff in H; destruct H as [H ?]).
  match goal with H1 : (negb _ && blk_is_free _ _) = true |- _ => rename H1 into Hnext end.
  match goal with H1 : (alignSize _ <=? wrap _) = true |- _ => rename H1 into Hcomb end.
  match goal with H1 : negb (alignSize _ <=? _) = true |- _ => rename H1 into Hbig end.
  match goal with H1 : isValidPointer _ _ = true |- _ => rename H1 into Hvalid end.
  match goal with H1 : negb (new_size =? 0) = true |- _ => rename H1 into Hn end.
  apply negb_true_iff in H, Hn, Hbig.
  unfold my_realloc in Hrun. rewrite Ea in Hrun.
  rewrite H, Hn, Hvalid in Hrun. cbn [negb] in Hrun.
  rewrite Hbig, Hnext, Hcomb in Hrun. inversion Hrun. subst q st' d. clear Hrun.
  split; [reflexivity|].
  cbn [memory with_stats with_memory]. clear Hcomb Hbig Hvalid Hn H.
  set (m := memory st) in *.
  set (P := fun x => x < a + HEADER_SIZE \/ a + HEADER_SIZE + sz <= x).
  match goal with
  | |- forall i, _ -> ?M _ = _ => enough (HP : same_off P m M)
  end.
  { intros i Hi. apply HP. unfold P, ptr. fold a. lia. }
  destruct post as [|[s2 f2] post'].
  { destruct Hw as (_ & (_ & _ & H3 & _) & _). cbn [cursor] in H3.
    rewrite H3 in Hnext. discriminate Hnext. }
  apply Forall_cons_iff in Hszr. destruct Hszr as [Hz2 Hszr]. cbn [fst] in Hz2.
  pose proof (span_nonneg _ Hszr) as Hsp2. cbn [span] in Hend, Hsp.
  destruct Hw as (Ha & (H1 & H2 & H3 & H4) & (Ha2 & (G1 & G2 & G3 & G4) & Hc2)).
  cbn [cursor] in H3. unfold P. clear Hnext.
  destruct post' as [|[s3 f3] post''].
  - cbn [cursor chain] in *. fields. unfold SIZE_MOD in *.
    repeat mem_step.
    repeat first [ apply same_off_refl
                 | eapply same_off_trans; [| apply same_off_store64; intros; lia ] ].
  - cbn [cursor chain] in Hc2, G3 |- *.
    apply Forall_cons_iff in Hszr. destruct Hszr as [Hz3 Hszr]. cbn [fst] in Hz3.
    pose proof (span_nonneg _ Hszr) as Hsp3. cbn [span] in Hend, Hsp2.
    destruct Hc2 as (Ha3 & (K1 & K2 & K3 & K4) & Hc2).
    fields. unfold SIZE_MOD in *. repeat mem_step.
    repeat first [ apply same_off_refl
                 | eapply same_off_trans; [| apply same_off_store64; intros; lia ] ].
Qed.

(** X11: [my_realloc] keeps the contents: when it is given a block in
    use and a non-zero size and answers a non-null pointer, every byte of
    the old payload is found at the same offset behind the answer,
    whether the block stayed, grew into its neighbour or was moved. *)
Theorem my_realloc_keeps_contents :
  forall st bs ptr new_size fuel q st' d,
    Inv st bs ->
    (length bs + 1 < fuel)%nat ->
    In ptr (live_ptrs (heap_start_ (self st)) bs) ->
    new_size <> 0 ->
    my_realloc fuel st ptr new_size = Some (q, st', d) ->
    q <> 0 ->
    forall i, 0 <= i < blk_size (memory st) (fromData ptr) ->
              memory st' (q + i) = memory st (ptr + i).
Proof.
  intros st bs ptr new_size fuel q st' d HI Hfuel Hptr NE0 Hrun Hq i Hi.
  destruct (live_ptrs_in _ _ _ Hptr) as (pre & sz & post & Hbs & Eptr).
  subst bs.
  pose proof (Inv_live_pos _ _ _ _ HI) as Hpos.
  pose proof HI as (Hhc & _).
  destruct (block_ptr_valid st pre sz false post Hhc Hpos) as (NE & Hvalid).
  cbv zeta in NE, Hvalid. rewrite <- Eptr in NE, Hvalid.
  assert (Hold : blk_size (memory st) (fromData ptr) = sz).
  { destruct Hhc as (_ & _ & _ & _ & Hc). apply chain_block_header in Hc.
    replace (fromData ptr) with (heap_start_ (self st) + span pre)
      by (unfold fromData; lia).
    tauto. }
  rewrite Hold in Hi.
  destruct (Z.leb_spec (alignSize new_size) sz) as [Hfit | Hbig].
  { (* the block is large enough *)
    unfold my_realloc in Hrun.
    replace (ptr =? 0) with false in Hrun by (symmetry; apply Z.eqb_neq; exact NE).
    replace (new_size =? 0) with false in Hrun by (symmetry; apply Z.eqb_neq; exact NE0).
    rewrite Hvalid, Hold in Hrun. cbn [negb] in Hrun.
    replace (alignSize new_size <=? sz) with true in Hrun
      by (symmetry; apply Z.leb_le; exact Hfit).
    inversion Hrun. reflexivity. }
  destruct (grows_in_place st ptr new_size) eqn:Hgrow.
  { (* growth into the next block *)
    rewrite Eptr in Hgrow, Hrun.
    destruct (my_realloc_grow_frame st pre sz post new_size fuel q st' d Hhc Hgrow Hrun)
      as [-> Hkeep].
    cbv zeta in Hkeep. rewrite Eptr. apply Hkeep. exact Hi. }
  (* relocation *)
  rewrite (my_realloc_relocates fuel st ptr new_size NE NE0 Hvalid) in Hrun
    by (rewrite ?Hold; assumption).
  destruct (my_malloc fuel st (alignSize new_size)) as [[[q1 st1] d1]|] eqn:Hm;
    [|discriminate].
  destruct (Z.eqb_spec q1 0) as [E|Hq1]; [inversion Hrun; congruence|].
  cbv zeta in Hrun. rewrite Hold in Hrun. inversion Hrun. subst q1. clear Hrun.
  set (st2 := with_memory st1 (memcpy (memory st1) q ptr sz)) in *.
  (* the request left the old payload alone *)
  assert (Hkeep : memory st1 (ptr + i) = memory st (ptr + i)).
  { destruct (my_malloc_window st _ _ fuel q st1 d1 HI Hfuel Hm Hq1)
      as (pre0 & sz0 & post0 & Hbs0 & Ea0 & _ & Hframe).
    apply Hframe. rewrite Ea0.
    destruct Hhc as (_ & _ & _ & _ & Hc). rewrite Hbs0 in Hc, Hptr.
    rewrite <- Hold in Hi.
    destruct (live_outside_window _ _ _ _ _ _ _ ptr i Hc Hptr Hi) as [H | H].
    - left. exact H.
    - right. unfold fromData in Ea0. lia. }
  (* the new block and the state after the copy *)
  destruct (my_malloc_outcomes _ _ _ _ _ _ _ HI Hfuel Hm)
    as [[E _] | (pre1 & sz1 & post1 & Hout)]; [contradiction|].
  cbv zeta in Hout. destruct Hout as (Hbs1 & Hle & Eq & Hself1 & HI1).
  destruct (alloc_blocks_head (request_size (alignSize new_size)) sz1) as (tail & Hab).
  rewrite Hab in HI1. cbn [app] in HI1.
  set (got := if negb (sz1 - request_size (alignSize new_size) <?
                       HEADER_SIZE + MIN_BLOCK_SIZE)
              then request_size (alignSize new_size) else sz1) in *.
  assert (Hgot : sz < got).
  { assert (alignSize new_size <= request_size (alignSize new_size)).
    { rewrite request_size_max, alignSize_idem. lia. }
    unfold got. destruct (negb _); lia. }
  assert (Hh1 : heap_start_ (self st1) = heap_start_ (self st))
    by (rewrite Hself1; reflexivity).
  assert (HI2 : Inv st2 (pre1 ++ (got, false) :: tail ++ post1)).
  { apply Inv_payload_write; [exact HI1|]. rewrite Hh1, <- Eq.
    apply same_outside_memcpy; lia. }
  (* the release writes headers only *)
  assert (Hfree : forall x,
            ~ in_headers (heap_start_ (self st2)) (pre1 ++ (got, false) :: tail ++ post1) x ->
            memory (fst (my_free st2 ptr)) x = memory st2 x).
  { apply my_free_header_frame; [exact HI2|]. right. right. apply live_ptrs_payloads.
    change (heap_start_ (self st2)) with (heap_start_ (self st1)). rewrite Hh1.
    replace (pre1 ++ (got, false) :: tail ++ post1)
      with (pre1 ++ alloc_blocks (request_size (alignSize new_size)) sz1 ++ post1)
      by (rewrite Hab; reflexivity).
    eapply Permutation_in; [apply live_ptrs_alloc|]. right.
    rewrite <- Hbs1. exact Hptr. }
  specialize (Hfree (heap_start_ (self st2) + span pre1 + HEADER_SIZE + i)).
  change (heap_start_ (self st2)) with (heap_start_ (self st1)) in Hfree.
  rewrite Hh1, <- Eq in Hfree. rewrite Hfree.
  2:{ rewrite Eq. apply payload_not_header; [apply (Inv_sizes _ _ HI2) | lia]. }
  (* the copy *)
  unfold st2. cbn [memory with_memory]. unfold memcpy.
  replace ((q <=? q + i) && (q + i <? q + sz)) with true
    by (symmetry; apply andb_true_iff; split; [apply Z.leb_le | apply Z.ltb_lt]; lia).
  replace (ptr + (q + i - q)) with (ptr + i) by lia.
  exact Hkeep.
Qed.

Lemma my_realloc_keeps_contents_witness :
  exists st',
    my_realloc 4 engine_one_block 4128 200 = Some (4128, st', []) /\
    memory st' (4128 + 5) = memory engine_one_block (4128 + 5).
Proof.
  assert (Hg : grows_in_place engine_one_block 4128 200 = true)
    by (vm_compute; reflexivity).
  assert (Hsz : blk_size (memory engine_one_block) (fromData 4128) = 104)
    by (vm_compute; reflexivity).
  destruct (my_realloc_grows engine_one_block 4128 200 Hg) as (st' & Hrun & _).
  exists st'. split; [apply Hrun|].
  apply (my_realloc_keeps_contents engine_one_block _ 4128 200 4%nat 4128 st' []
           engine_one_block_Inv).
  - cbn [length]. lia.
  - left. reflexivity.
  - lia.
  - apply Hrun.
  - lia.
  - rewrite Hsz. lia.
Defined.

(* ================================================================== *)
(** ** The region and its release *)
(* ================================================================== *)

Lemma region_of_eq a b :
  region_of a = region_of b ->
  heap_start_ a = heap_start_ b /\ heap_end_ a = heap_end_ b /\
  heap_size_ a = heap_size_ b /\ free_list_ a = free_list_ b /\
  owns_memory_ a = owns_memory_ b.
Proof. unfold region_of. intro H. injection H as H1 H2 H3 H4 H5. auto. Qed.

Lemma splitBlock_region st block size :
  region_of (self (fst (splitBlock st block size))) = region_of (self st).
Proof. unfold splitBlock. destruct (_ <? _); reflexivity. Qed.

Lemma coalesceBlock_region st block :
  region_of (self (fst (coalesceBlock st block))) = region_of (self st).
Proof.
  unfold coalesceBlock.
  destruct (negb (blk_next (memory st) block =? 0) && _);
    match goal with |- context [if ?c then _ else _] => destruct c end; reflexivity.
Qed.

Lemma my_malloc_region fuel st size p st' d :
  my_malloc fuel st size = Some (p, st', d) ->
  region_of (self st') = region_of (self st).
Proof.
  unfold my_malloc. destruct (size =? 0); [intros H; inversion H; reflexivity|].
  destruct (findFreeBlock _ _ _) as [block|]; [|discriminate].
  destruct (block =? 0); [intros H; inversion H; reflexivity|].
  unfold updateStatsAfterAlloc, recalculateBlockCounts.
  destruct (count_blocks _ _ _ _ _) as [[t fc]|]; [|discriminate].
  intros H. inversion H; subst.
  rewrite <- (splitBlock_region st block
                (if alignSize size <? MIN_BLOCK_SIZE then MIN_BLOCK_SIZE else alignSize size)).
  reflexivity.
Qed.

Lemma my_free_region st ptr :
  region_of (self (fst (my_free st ptr))) = region_of (self st).
Proof.
  unfold my_free. destruct (ptr =? 0); [reflexivity|].
  destruct (negb _); [reflexivity|].
  destruct (blk_is_free _ _); [reflexivity|].
  cbn [fst]. rewrite coalesceBlock_region. reflexivity.
Qed.

Lemma my_realloc_region fuel st ptr new_size p st' d :
  my_realloc fuel st ptr new_size = Some (p, st', d) ->
  region_of (self st') = region_of (self st).
Proof.
  unfold my_realloc. destruct (ptr =? 0); [apply my_malloc_region|].
  destruct (new_size =? 0).
  { pose proof (my_free_region st ptr) as Hf.
    destruct (my_free st ptr) as [st1 d1]. intros H. inversion H; subst. exact Hf. }
  destruct (negb _); [intros H; inversion H; reflexivity|].
  destruct (_ <=? _); [intros H; inversion H; reflexivity|].
  assert (Hreloc :
    match my_malloc fuel st (alignSize new_size) with
    | Some (new_ptr, st0, d0) =>
        if new_ptr =? 0 then Some (0, st0, d0)
        else let '(st1, d') :=
               my_free (with_memory st0
                          (memcpy (memory st0) new_ptr ptr
                             (blk_size (memory st) (fromData ptr)))) ptr in
             Some (new_ptr, st1, d0 ++ d')
    | None => None
    end = Some (p, st', d) ->
    region_of (self st') = region_of (self st)).
  { destruct (my_malloc fuel st (alignSize new_size)) as [[[q st0] d0]|] eqn:Hm;
      [|discriminate].
    apply my_malloc_region in Hm.
    destruct (q =? 0); [intros H; inversion H; subst; exact Hm|].
    pose proof (my_free_region
                  (with_memory st0 (memcpy (memory st0) q ptr
                                      (blk_size (memory st) (fromData ptr)))) ptr) as Hf.
    destruct (my_free _ ptr) as [st1 d1]. intros H. inversion H; subst.
    cbn [fst] in Hf. rewrite Hf. exact Hm. }
  cbv zeta.
  destruct (negb (blk_next (memory st) (fromData ptr) =? 0) && _); [|exact Hreloc].
  destruct (_ <=? _); [|exact Hreloc].
  intros H. inversion H; reflexivity.
Qed.

Lemma my_calloc_region fuel st count size p st' d :
  my_calloc fuel st count size = Some (p, st', d) ->
  region_of (self st') = region_of (self st).
Proof.
  unfold my_calloc. destruct (negb (count =? 0) && _); [intros H; inversion H; reflexivity|].
  destruct (my_malloc fuel st (wrap (count * size))) as [[[q st0] d0]|] eqn:Hm;
    [|discriminate].
  apply my_malloc_region in Hm.
  destruct (q =? 0); intros H; inversion H; subst; exact Hm.
Qed.

(** X12: no public operation moves, resizes or disowns the region.  The
    engine object lies outside the region it manages; on a well-formed
    heap, for every call a caller may make -- [my_malloc], [my_free] of
    a null, out-of-range or block-payload pointer, [my_calloc] of a
    total that leaves room for the rounding, [reset], and [my_realloc]
    of a null, out-of-range or in-use pointer -- [heap_start_],
    [heap_end_], [heap_size_] and [owns_memory_] are left as they were,
    [free_list_] too except that [reset] puts it back to [heap_start_],
    and the destructor therefore hands back the same region after the
    operation as before. *)
Theorem operations_keep_region :
  forall st bs op fuel p st' d,
    Inv st bs ->
    (length bs + 1 < fuel)%nat ->
    match op with
    | OpFree ptr =>
        ptr = 0 \/ isValidPointer (self st) ptr = false \/
        In ptr (payloads (heap_start_ (self st)) bs)
    | OpRealloc ptr _ =>
        ptr = 0 \/ isValidPointer (self st) ptr = false \/
        In ptr (live_ptrs (heap_start_ (self st)) bs)
    | OpCalloc count size => wrap (count * size) <= SIZE_MAX - 7
    | _ => True
    end ->
    run_op fuel st op = Some (p, st', d) ->
    heap_start_ (self st') = heap_start_ (self st) /\
    heap_end_ (self st') = heap_end_ (self st) /\
    heap_size_ (self st') = heap_size_ (self st) /\
    owns_memory_ (self st') = owns_memory_ (self st) /\
    free_list_ (self st') =
      (match op with OpReset => heap_start_ (self st) | _ => free_list_ (self st) end) /\
    destroy (self st') = destroy (self st).
Proof.
  intros st bs op fuel p st' d _ _ _ Hrun.
  assert (H : op = OpReset /\ st' = reset st \/
              op <> OpReset /\ region_of (self st') = region_of (self st)).
  { destruct op; cbn [run_op] in Hrun.
    - right. split; [discriminate|]. eapply my_malloc_region; exact Hrun.
    - right. split; [discriminate|]. pose proof (my_free_region st ptr) as Hf.
      destruct (my_free st ptr). inversion Hrun; subst. exact Hf.
    - right. split; [discriminate|]. eapply my_realloc_region; exact Hrun.
    - right. split; [discriminate|]. eapply my_calloc_region; exact Hrun.
    - left. inversion Hrun. split; reflexivity. }
  destruct H as [[-> ->] | [Hop H]].
  - repeat split; reflexivity.
  - apply region_of_eq in H. destruct H as (H1 & H2 & H3 & H4 & H5).
    unfold destroy. rewrite H1, H5.
    repeat split; try assumption; try reflexivity.
    destruct op; try exact H4. contradiction Hop. reflexivity.
Qed.

(** The release of the block in use at payload 4128, which merges it
    with its free neighbour. *)
Lemma operations_keep_region_witness :
  heap_start_ (self (fst (my_free engine_one_block 4128))) = 4096 /\
  destroy (self (fst (my_free engine_one_block 4128))) = [4096].
Proof.
  destruct (operations_keep_region engine_one_block _ (OpFree 4128) 4%nat 0
              (fst (my_free engine_one_block 4128)) (snd (my_free engine_one_block 4128))
              engine_one_block_Inv)
    as (H1 & _ & _ & _ & _ & H6).
  - cbn [length]. lia.
  - right. right. left. reflexivity.
  - cbn [run_op]. destruct (my_free engine_one_block 4128). reflexivity.
  - split; [exact H1 | exact H6].
Defined.

Lemma construct_sized_destroy host m n st :
  construct_sized host m n = inr st ->
  destroy (self st) = [host].
Proof.
  unfold construct_sized.
  destruct (Z.eqb_spec host 0) as [|Hne]; [discriminate|].
  intros H. inversion H. unfold destroy. cbn.
  replace (host =? 0) with false by (symmetry; apply Z.eqb_neq; exact Hne).
  reflexivity.
Qed.

(** X13: the destructor hands a region back to [std::free] exactly when
    the engine obtained it itself: the destructor of an engine built by
    the sizing constructor releases the host block, that of an engine
    built on an adopted region releases nothing; after a move
    construction the new object releases what the source would have and
    the source nothing; a move assignment from another object releases
    what the destination held and passes the source's region to the
    destination. *)
Theorem region_released_once :
  (forall host m n st,
      construct_sized host m n = inr st ->
      destroy (self st) = [host]) /\
  (forall region m n st,
      construct_adopted region m n = inr st ->
      destroy (self st) = []) /\
  (forall other,
      destroy (fst (move_construct other)) = destroy other /\
      destroy (snd (move_construct other)) = []) /\
  (forall s this other,
      this <> other ->
      snd (move_assign s this other) = destroy (s this) /\
      destroy (fst (move_assign s this other) this) = destroy (s other) /\
      destroy (fst (move_assign s this other) other) = []).
Proof.
  split; [|split; [|split]].
  - exact construct_sized_destroy.
  - intros region m n st. unfold construct_adopted.
    destruct (_ || _); [discriminate|]. intros H. inversion H. reflexivity.
  - intro other. split; reflexivity.
  - intros s this other Hne. unfold move_assign.
    replace (Nat.eqb this other) with false by (symmetry; apply Nat.eqb_neq; exact Hne).
    cbn [fst snd]. unfold put, moved_from, destroy.
    rewrite !Nat.eqb_refl.
    replace (Nat.eqb other this) with false
      by (symmetry; apply Nat.eqb_neq; intro E; apply Hne; symmetry; exact E).
    replace (Nat.eqb this other) with false by (symmetry; apply Nat.eqb_neq; exact Hne).
    cbn. repeat split; reflexivity.
Qed.

Lemma region_released_once_witness :
  destroy (self engine_4096) = [4096].
Proof.
  destruct region_released_once as (H & _).
  apply (H 4096 dirty_memory 4096 engine_4096). exact engine_4096_constructed.
Defined.

(* ================================================================== *)
(** ** The heap table *)
(* ================================================================== *)

Lemma layout_rows_chain m pv a bs e hs num fuel :
  chain m pv a bs e ->
  (length bs < fuel)%nat ->
  hs <= a -> 0 < hs -> e < SIZE_MOD ->
  num + Z.of_nat (length bs) <= INT_MAX ->
  layout_rows fuel m hs (cursor a bs) num = Some (layout_of (a - hs) num bs).
Proof.
  revert pv a num fuel. induction bs as [|[sz fr] bs IH]; intros pv a num fuel Hc Hf Ha Hs He Hn.
  - destruct fuel; [inversion Hf|]. reflexivity.
  - destruct fuel; [inversion Hf|]. cbn [length] in Hf, Hn.
    pose proof (chain_sizes _ _ _ _ _ Hc) as Hsz.
    pose proof (chain_end _ _ _ _ _ Hc) as Hend. cbn [span] in Hend.
    apply Forall_cons_iff in Hsz. destruct Hsz as [Hz Hszr]. cbn [fst] in Hz.
    pose proof (span_nonneg _ Hszr) as Hsp.
    destruct Hc as (Hpos & (H1 & H2 & H3 & H4) & Hc).
    cbn [layout_rows cursor layout_of].
    replace (a =? 0) with false by (symmetry; apply Z.eqb_neq; lia).
    replace (INT_MAX <=? num) with false by (symmetry; apply Z.leb_gt; lia).
    rewrite H1, H2, H3.
    rewrite (IH a (a + HEADER_SIZE + sz) (num + 1) fuel Hc) by (unfold HEADER_SIZE in *; lia).
    rewrite wrap_small by (unfold HEADER_SIZE in *; lia).
    replace (a + HEADER_SIZE + sz - hs) with (a - hs + HEADER_SIZE + sz) by lia.
    reflexivity.
Qed.

Lemma layout_of_length off num bs : length (layout_of off num bs) = length bs.
Proof.
  revert off num. induction bs as [|[sz fr] bs IH]; intros off num; cbn [layout_of length].
  - reflexivity.
  - rewrite IH. reflexivity.
Qed.

Lemma layout_of_nth off num pre sz fr post :
  nth_error (layout_of off num (pre ++ (sz, fr) :: post)) (length pre) =
  Some (mkRow (off + span pre) sz fr (num + Z.of_nat (length pre))).
Proof.
  revert off num. induction pre as [|[s f] pre IH]; intros off num.
  - cbn [app layout_of length nth_error span Z.of_nat]. rewrite !Z.add_0_r. reflexivity.
  - cbn [app layout_of length nth_error span]. rewrite IH, Nat2Z.inj_succ.
    f_equal. f_equal; lia.
Qed.

(** X14: on a well-formed chain of at most [INT_MAX] blocks,
    [printHeapLayout] prints one row per block, in address order: the row
    of a block gives the number of blocks before it, the bytes they span
    (headers included) as its offset from [heap_start_], its payload size
    and its flag. *)
Theorem printHeapLayout_rows :
  forall st bs fuel,
    heap_chain st bs ->
    (length bs < fuel)%nat ->
    Z.of_nat (length bs) <= INT_MAX ->
    exists rows,
      printHeapLayout fuel st = Some rows /\
      length rows = length bs /\
      forall pre sz fr post,
        bs = pre ++ (sz, fr) :: post ->
        nth_error rows (length pre) =
        Some (mkRow (span pre) sz fr (Z.of_nat (length pre))).
Proof.
  intros st bs fuel (Hs & He & Hfl & Hne & Hc) Hfuel Hlen.
  exists (layout_of 0 0 bs). split; [|split].
  - unfold printHeapLayout. rewrite Hfl.
    replace (heap_start_ (self st)) with (cursor (heap_start_ (self st)) bs) at 2
      by (destruct bs; [congruence | reflexivity]).
    rewrite (layout_rows_chain _ _ _ _ _ (heap_start_ (self st)) 0 fuel Hc) by lia.
    rewrite Z.sub_diag. reflexivity.
  - apply layout_of_length.
  - intros pre sz fr post ->. rewrite layout_of_nth. reflexivity.
Qed.

Lemma printHeapLayout_rows_witness :
  exists rows,
    printHeapLayout 3 engine_one_block = Some rows /\
    length rows = 2%nat /\
    nth_error rows 1 = Some (mkRow 136 3928 true 1).
Proof.
  destruct (printHeapLayout_rows engine_one_block _ 3%nat engine_one_block_chain)
    as (rows & H1 & H2 & H3).
  - cbn [length]. lia.
  - unfold INT_MAX. cbn [length]. lia.
  - exists rows. split; [exact H1|]. split; [exact H2|].
    apply (H3 [(104, false)] 3928 true []). reflexivity.
Defined.

(* ================================================================== *)
(** ** Regions smaller than a header *)
(* ================================================================== *)

(** A request served from a splittable free block that heads the list
    and has no successor; nothing is assumed about where the block ends. *)
Lemma my_malloc_head_split st S size :
  let h := free_list_ (self st) in
  let need := request_size size in
  0 < h ->
  header_at (memory st) h S true 0 0 ->
  0 < size ->
  need + HEADER_SIZE + MIN_BLOCK_SIZE <= S ->
  h + HEADER_SIZE + need + HEADER_SIZE < SIZE_MOD ->
  exists st', my_malloc 3 st size = Some (h + HEADER_SIZE, st', []).
Proof.
  intros h need Hh (M1 & M2 & M3 & M4) Hsize Hroom Hrep.
  pose proof (request_size_range size) as Hneed. fold need in Hneed.
  pose proof (blk_size_range (memory st) h) as HS. rewrite M1 in HS.
  unfold my_malloc.
  replace (size =? 0) with false by (symmetry; apply Z.eqb_neq; lia).
  fold (request_size size). fold need.
  unfold findFreeBlock. fold h. cbn [find_from].
  replace (h =? 0) with false by (symmetry; apply Z.eqb_neq; lia).
  rewrite M1, M2.
  replace (need <=? S) with true
    by (symmetry; apply Z.leb_le; unfold HEADER_SIZE, MIN_BLOCK_SIZE in *; lia).
  cbn [andb].
  replace (h =? 0) with false by (symmetry; apply Z.eqb_neq; lia).
  unfold splitBlock. rewrite M1.
  rewrite (wrap_small (S - need)) by (unfold HEADER_SIZE, MIN_BLOCK_SIZE in *; lia).
  replace (S - need <? HEADER_SIZE + MIN_BLOCK_SIZE) with false
    by (symmetry; apply Z.ltb_ge; lia).
  cbn [fst memory with_memory with_stats self].
  set (m := memory st) in *.
  match goal with
  | |- context [set_is_free ?m2 h false] => set (m' := set_is_free m2 h false)
  end.
  assert (Hhead : blk_size m' h = need /\ blk_is_free m' h = false /\
                  blk_next m' h = h + HEADER_SIZE + need).
  { unfold m'. clearbody m. fields. unfold SIZE_MOD, MIN_BLOCK_SIZE in *.
    repeat mem_step. repeat split; reflexivity. }
  assert (Htail : blk_is_free m' (h + HEADER_SIZE + need) = true /\
                  blk_next m' (h + HEADER_SIZE + need) = 0).
  { unfold m'. clearbody m. fields. unfold SIZE_MOD, MIN_BLOCK_SIZE in *.
    repeat mem_step. repeat split; reflexivity. }
  clearbody m'. destruct Hhead as (A1 & A2 & A3). destruct Htail as (B1 & B2).
  unfold updateStatsAfterAlloc, recalculateBlockCounts.
  cbn [memory with_memory with_stats self free_list_ stats stats_]. fold h.
  cbn [count_blocks].
  replace (h =? 0) with false by (symmetry; apply Z.eqb_neq; lia).
  rewrite A2, A3.
  replace (h + HEADER_SIZE + need =? 0) with false
    by (symmetry; apply Z.eqb_neq; unfold HEADER_SIZE, MIN_BLOCK_SIZE in *; lia).
  rewrite B1, B2. cbn [Z.eqb].
  eexists. unfold getData. reflexivity.
Qed.

(** X15: the sizing constructor has no lower bound on [heap_size]: for
    a size below [sizeof(MemoryBlock)] it still builds an engine, whose
    first header reaches past the end of the region and whose
    [free_memory] is the wrapped difference [heap_size - 32]; a request
    is then served from that block, with a pointer that lies outside the
    region and that [my_free] turns away as invalid. *)
Theorem sized_constructor_accepts_tiny_region :
  forall host m n,
    0 < host ->
    0 <= n < HEADER_SIZE ->
    exists st,
      construct_sized host m n = inr st /\
      heap_end_ (self st) < heap_start_ (self st) + HEADER_SIZE /\
      blk_size (memory st) (heap_start_ (self st)) = SIZE_MOD - HEADER_SIZE + n /\
      free_memory (stats st) = SIZE_MOD - HEADER_SIZE + n /\
      forall size,
        0 < size ->
        request_size size + HEADER_SIZE + MIN_BLOCK_SIZE <= SIZE_MOD - HEADER_SIZE + n ->
        host + HEADER_SIZE + request_size size + HEADER_SIZE < SIZE_MOD ->
        exists st',
          my_malloc 3 st size = Some (host + HEADER_SIZE, st', []) /\
          heap_end_ (self st') <= host + HEADER_SIZE /\
          my_free st' (host + HEADER_SIZE) = (st', [FreeInvalidPointer]).
Proof.
  intros host m n Hh Hn. unfold construct_sized.
  replace (host =? 0) with false by (symmetry; apply Z.eqb_neq; lia).
  eexists. split; [reflexivity|].
  set (st0 := mkState (mkAllocator host (host + n) n 0 zero_stats true) m).
  assert (Hm : header_at (memory (initializeHeap st0)) host
                 (SIZE_MOD - HEADER_SIZE + n) true 0 0).
  { unfold initializeHeap. cbn [memory st0 self heap_start_ heap_size_].
    assert (Hw : wrap (n - HEADER_SIZE) = SIZE_MOD - HEADER_SIZE + n).
    { unfold wrap. rewrite <- (Z.mod_add _ 1) by (unfold SIZE_MOD; lia).
      replace (n - HEADER_SIZE + 1 * SIZE_MOD) with (SIZE_MOD - HEADER_SIZE + n) by lia.
      apply Z.mod_small. unfold SIZE_MOD, HEADER_SIZE in *. lia. }
    rewrite Hw.
    fields. unfold SIZE_MOD in *.
    repeat mem_step. repeat split; reflexivity. }
  pose proof Hm as (M1 & _).
  set (st := initializeHeap st0) in *.
  assert (Hself : heap_start_ (self st) = host /\ heap_end_ (self st) = host + n /\
                  free_list_ (self st) = host /\
                  free_memory (stats st) = blk_size (memory st) host)
    by (repeat split; reflexivity).
  destruct Hself as (S1 & S2 & S3 & S4).
  split; [change (host + n < host + HEADER_SIZE); lia|].
  split; [exact M1|]. split; [exact M1|].
  intros size Hsize Hroom Hrep.
  destruct (my_malloc_head_split st (SIZE_MOD - HEADER_SIZE + n) size) as (st' & Hrun);
    try assumption.
  change (free_list_ (self st)) with host in Hrun.
  exists st'. split; [exact Hrun|].
  pose proof (my_malloc_region _ _ _ _ _ _ Hrun) as Hreg.
  apply region_of_eq in Hreg. destruct Hreg as (R1 & R2 & _).
  rewrite S1 in R1. rewrite S2 in R2.
  rewrite R2. split; [unfold HEADER_SIZE in *; lia|].
  unfold my_free.
  replace (host + HEADER_SIZE =? 0) with false
    by (symmetry; apply Z.eqb_neq; unfold HEADER_SIZE; lia).
  unfold isValidPointer. rewrite R1, R2.
  replace (host + HEADER_SIZE <? host + n) with false
    by (symmetry; apply Z.ltb_ge; lia).
  rewrite andb_false_r. reflexivity.
Qed.

Lemma sized_constructor_accepts_tiny_region_witness :
  exists st,
    construct_sized 4096 dirty_memory 8 = inr st /\
    free_memory (stats st) = SIZE_MOD - HEADER_SIZE + 8.
Proof.
  destruct (sized_constructor_accepts_tiny_region 4096 dirty_memory 8)
    as (st & H1 & _ & _ & H4 & _).
  - lia.
  - unfold HEADER_SIZE. lia.
  - exists st. split; [exact H1 | exact H4].
Defined.

(* ================================================================== *)
(** ** The global facade *)
(* ================================================================== *)

(** X16: the facade starts its engine on demand: with no global
    engine, [custom_malloc] builds one of [DEFAULT_HEAP_SIZE] bytes on
    the region the host hands out and serves the request from it, at the
    first payload address, for every size that fits; it passes on
    [bad_alloc] and stays without engine when the host has no memory;
    [custom_free] never starts an engine. *)
Theorem custom_malloc_starts_default_engine :
  forall fuel host m size,
    (2 < fuel)%nat ->
    0 < host -> host + DEFAULT_HEAP_SIZE < SIZE_MOD ->
    0 < size ->
    request_size size <= DEFAULT_HEAP_SIZE - HEADER_SIZE ->
    (exists st bs,
        custom_malloc fuel GNull host m size =
          Some (GLive st, inr (host + HEADER_SIZE, [])) /\
        Inv st bs /\
        total_heap_size (stats st) = DEFAULT_HEAP_SIZE /\
        destroyGlobalAllocator (GLive st) = Some (GNull, [host])) /\
    custom_malloc fuel GNull 0 m size = Some (GNull, inl bad_alloc) /\
    (forall ptr, custom_free GNull ptr = Some (GNull, [])).
Proof.
  intros fuel host m size Hfuel Hh Hrep Hsize Hfit.
  split; [|split; reflexivity].
  destruct (construct_sized_Inv host m DEFAULT_HEAP_SIZE Hh Hrep)
    as (st0 & Hc & HI0); [unfold HEADER_SIZE, DEFAULT_HEAP_SIZE; lia|].
  pose proof HI0 as (Hhc0 & _).
  assert (Hf : (length [((DEFAULT_HEAP_SIZE - HEADER_SIZE)%Z, true)] + 1 < fuel)%nat)
    by (cbn [length]; lia).
  destruct (my_malloc_found st0 [] (DEFAULT_HEAP_SIZE - HEADER_SIZE) [] size fuel
              Hhc0 ltac:(lia) Hf (Forall_nil _) Hfit)
    as (st & Hrun & _).
  destruct (my_malloc_outcomes _ _ _ _ _ _ _ HI0 Hf Hrun)
    as [[E _] | (pre & sz & post & Hout)].
  { pose proof HI0 as ((Hs & _) & _). unfold HEADER_SIZE in E. cbn [span] in E. lia. }
  cbv zeta in Hout. destruct Hout as (_ & _ & _ & Hself & HI).
  assert (Hst0 : heap_start_ (self st0) = host /\ owns_memory_ (self st0) = true /\
                 heap_size_ (self st0) = DEFAULT_HEAP_SIZE).
  { unfold construct_sized in Hc. destruct (host =? 0); [discriminate|].
    inversion Hc. repeat split; reflexivity. }
  destruct Hst0 as (S1 & S2 & S3).
  cbn [span] in Hrun. rewrite S1, Z.add_0_r in Hrun.
  eexists st, _. split; [|split; [exact HI|split]].
  - unfold custom_malloc, with_global, initGlobalAllocator. rewrite Hc, Hrun. reflexivity.
  - destruct HI as (_ & _ & _ & (A1 & _)). rewrite A1, Hself. exact S3.
  - unfold destroyGlobalAllocator, destroy. cbn [snd]. rewrite Hself.
    cbn [self with_stats owns_memory_ heap_start_]. rewrite S1, S2.
    replace (host =? 0) with false by (symmetry; apply Z.eqb_neq; lia).
    reflexivity.
Qed.

Lemma custom_malloc_starts_default_engine_witness :
  exists st bs,
    custom_malloc 3 GNull 4096 dirty_memory 100 =
      Some (GLive st, inr (4096 + HEADER_SIZE, [])) /\
    Inv st bs.
Proof.
  destruct (custom_malloc_starts_default_engine 3 4096 dirty_memory 100)
    as ((st & bs & H1 & H2 & _) & _).
  - lia.
  - lia.
  - unfold DEFAULT_HEAP_SIZE, SIZE_MOD. lia.
  - lia.
  - vm_compute. discriminate.
  - exists st, bs. split; [exact H1 | exact H2].
Defined.

(** X17: starting the global engine again hands the region of the
    engine in place back once and installs the new one; when the host
    has no memory for the new region, [bad_alloc] leaves the global
    pointing at the deleted engine, and every later call through the
    facade is outside the defined behaviour.  Tearing the engine down
    leaves no engine, and a second teardown does nothing. *)
Theorem initGlobalAllocator_replaces_engine :
  forall st host m heap_size,
    (0 < host -> host + heap_size < SIZE_MOD -> HEADER_SIZE <= heap_size ->
     exists st',
       initGlobalAllocator (GLive st) host m heap_size =
         Some (None, GLive st', destroy (self st)) /\
       Inv st' [(heap_size - HEADER_SIZE, true)] /\
       destroyGlobalAllocator (GLive st') = Some (GNull, [host])) /\
    initGlobalAllocator (GLive st) 0 m heap_size =
      Some (Some bad_alloc, GDangling, destroy (self st)) /\
    (forall fuel host' m' a b,
        custom_malloc fuel GDangling host' m' a = None /\
        custom_realloc fuel GDangling host' m' a b = None /\
        custom_calloc fuel GDangling host' m' a b = None /\
        custom_free GDangling a = None /\
        initGlobalAllocator GDangling host' m' a = None /\
        destroyGlobalAllocator GDangling = None) /\
    destroyGlobalAllocator GNull = Some (GNull, []).
Proof.
  intros st host m heap_size. split; [|repeat split; reflexivity].
  intros Hh Hrep Hsz.
  destruct (construct_sized_Inv host m heap_size Hh Hrep Hsz) as (st' & Hc & HI).
  exists st'. split; [|split; [exact HI|]].
  - unfold initGlobalAllocator. rewrite Hc. reflexivity.
  - unfold destroyGlobalAllocator.
    rewrite (construct_sized_destroy _ _ _ _ Hc). reflexivity.
Qed.

Lemma initGlobalAllocator_replaces_engine_witness :
  exists st',
    initGlobalAllocator (GLive engine_one_block) 8192 dirty_memory 4096 =
      Some (None, GLive st', destroy (self engine_one_block)) /\
    Inv st' [(4096 - HEADER_SIZE, true)] /\
    destroyGlobalAllocator (GLive st') = Some (GNull, [8192]).
Proof.
  destruct (initGlobalAllocator_replaces_engine engine_one_block 8192 dirty_memory 4096)
    as (H & _).
  apply H.
  - lia.
  - unfold SIZE_MOD. lia.
  - unfold HEADER_SIZE. lia.
Defined.

(* ================================================================== *)
(** ** Overflow test of the zeroed allocation; growth in place *)
(* ================================================================== *)

(** X18: the overflow test of [my_calloc] is exact: for [count] and
    [size] in the range of [size_t], the call is refused with the
    overflow line, state untouched, exactly when [count * size] does not
    fit in [size_t]; otherwise it is [my_malloc(count * size)] followed,
    on success, by the zeroing of [count * size] bytes. *)
Theorem my_calloc_overflow_test_is_exact :
  forall fuel st count size,
    0 <= count < SIZE_MOD ->
    0 <= size < SIZE_MOD ->
    (SIZE_MOD <= count * size ->
     my_calloc fuel st count size = Some (0, st, [CallocSizeOverflow])) /\
    (count * size < SIZE_MOD ->
     my_calloc fuel st count size =
     match my_malloc fuel st (count * size) with
     | None => None
     | Some (ptr, st1, d) =>
         if ptr =? 0 then Some (ptr, st1, d)
         else Some (ptr, with_memory st1 (memset (memory st1) ptr 0 (count * size)), d)
     end).
Proof.
  intros fuel st count size Hc Hs. unfold my_calloc. split.
  - intro Hov.
    assert (Hc0 : 0 < count) by nia.
    replace (count =? 0) with false by (symmetry; apply Z.eqb_neq; lia).
    pose proof (wrap_range (count * size)) as Hw.
    assert (Hlt : wrap (count * size) / count < size).
    { apply Z.div_lt_upper_bound; [lia|]. nia. }
    replace (wrap (count * size) / count =? size) with false
      by (symmetry; apply Z.eqb_neq; lia).
    reflexivity.
  - intro Hfit. rewrite (wrap_small (count * size)) by nia.
    destruct (Z.eqb_spec count 0) as [->|Hne]; [reflexivity|].
    rewrite Z.mul_comm, Z.div_mul by exact Hne.
    rewrite Z.eqb_refl. rewrite Z.mul_comm. reflexivity.
Qed.

Lemma my_calloc_overflow_test_is_exact_witness :
  my_calloc 3 engine_4096 (2 ^ 32) (2 ^ 32) = Some (0, engine_4096, [CallocSizeOverflow]).
Proof.
  destruct (my_calloc_overflow_test_is_exact 3 engine_4096 (2 ^ 32) (2 ^ 32)) as [H _].
  - unfold SIZE_MOD. lia.
  - unfold SIZE_MOD. lia.
  - apply H. unfold SIZE_MOD. lia.
Defined.

(** The three writes by which a block takes over its free successor. *)
Lemma absorb_next_chain m pv a sz f s2 post e v :
  chain m pv a ((sz, f) :: (s2, true) :: post) e ->
  e < SIZE_MOD ->
  wrap v = sz + HEADER_SIZE + s2 ->
  let m1 := set_size m a v in
  let m2 := set_next m1 a (blk_next m1 (blk_next m a)) in
  let m3 := if blk_next m2 a =? 0 then m2 else set_prev m2 (blk_next m2 a) a in
  chain m3 pv a ((sz + HEADER_SIZE + s2, f) :: post) e /\
  same_outside m m3 a e.
Proof.
  intros Hc He Hv.
  pose proof (chain_sizes _ _ _ _ _ Hc) as Hsz.
  pose proof (chain_end _ _ _ _ _ Hc) as Hend. cbn [span] in Hend.
  apply Forall_cons_iff in Hsz. destruct Hsz as [Hz Hszr]. cbn [fst] in Hz.
  apply Forall_cons_iff in Hszr. destruct Hszr as [Hz2 Hszr]. cbn [fst] in Hz2.
  pose proof (span_nonneg _ Hszr) as Hsp2.
  destruct Hc as (Ha & (H1 & H2 & H3 & H4) & (Ha2 & (G1 & G2 & G3 & G4) & Hc)).
  cbn [cursor] in H3. cbv zeta.
  unfold HEADER_SIZE in Hv.
  destruct post as [|[s3 f3] post''].
  - cbn [cursor chain] in *. fields. unfold SIZE_MOD in *.
    repeat mem_step. rewrite ?Hv.
    split; [repeat split; try reflexivity; try assumption; lia | frame_writes].
  - cbn [cursor chain] in Hc, G3 |- *.
    apply Forall_cons_iff in Hszr. destruct Hszr as [Hz3 Hszr]. cbn [fst] in Hz3.
    pose proof (span_nonneg _ Hszr) as Hsp3. cbn [span] in Hend, Hsp2.
    destruct Hc as (Ha3 & (K1 & K2 & K3 & K4) & Hc).
    fields. unfold SIZE_MOD in *. repeat mem_step. rewrite ?Hv.
    replace (a + 32 + (sz + 32 + s2)) with (a + 32 + sz + 32 + s2) by lia.
    split; [|frame_writes].
    repeat split; try reflexivity; try assumption; try lia.
    apply (chain_frame m _ _ _ _ _ a (a + 32 + sz + 32 + s2 + 32) Hc);
      [frame_writes | lia].
Qed.

(** X19: when [my_realloc] grows a block in place it takes the whole
    free successor, however little of it the request needs: the pointer
    stays, the chain loses one block, the block's size becomes the sum of
    both payloads and the header between them; [used_memory] and
    [free_memory] are not touched, so [used_memory] falls short of the
    bytes in use by the header and payload taken over. *)
Theorem my_realloc_grow_takes_whole_neighbour :
  forall st pre sz s2 post new_size fuel,
    Inv st (pre ++ (sz, false) :: (s2, true) :: post) ->
    new_size <> 0 ->
    sz < alignSize new_size <= sz + HEADER_SIZE + s2 ->
    let ptr := heap_start_ (self st) + span pre + HEADER_SIZE in
    let bs' := pre ++ (sz + HEADER_SIZE + s2, false) :: post in
    exists st',
      my_realloc fuel st ptr new_size = Some (ptr, st', []) /\
      heap_chain st' bs' /\
      used_memory (stats st') = used_memory (stats st) /\
      free_memory (stats st') = free_memory (stats st) /\
      block_count (stats st') = Z.of_nat (length bs') /\
      free_block_count (stats st') = count_free bs' /\
      used_memory (stats st') + HEADER_SIZE + s2 = used_sum bs'.
Proof.
  intros st pre sz s2 post new_size fuel HI NE0 Hsize ptr bs'.
  pose proof (Inv_live_pos _ _ _ _ HI) as Hpos.
  pose proof (Inv_sizes _ _ HI) as Hsz.
  pose proof (Inv_span _ _ HI) as Hspan.
  pose proof HI as (Hhc & Hend & _ & (A1 & A2 & A3 & A4 & A5)).
  destruct (block_ptr_valid st pre sz false ((s2, true) :: post) Hhc Hpos) as (NE & Hvalid).
  cbv zeta in NE, Hvalid. fold ptr in NE, Hvalid.
  pose proof Hhc as (Hs & He & Hfl & Hne & Hc).
  set (h := heap_start_ (self st)) in *.
  set (e := heap_end_ (self st)) in *.
  set (a := h + span pre) in *.
  assert (Hw : chain (memory st) (last_addr 0 h pre) a ((sz, false) :: (s2, true) :: post) e).
  { apply chain_app in Hc; [tauto | discriminate]. }
  apply Forall_app in Hsz. destruct Hsz as [Hszpre Hsz].
  apply Forall_cons_iff in Hsz. destruct Hsz as [Hz Hszr]. cbn [fst] in Hz.
  apply Forall_cons_iff in Hszr. destruct Hszr as [Hz2 Hszr]. cbn [fst] in Hz2.
  pose proof (span_nonneg _ Hszpre) as Hp0.
  pose proof (span_nonneg _ Hszr) as Hp2.
  rewrite span_app in Hspan. cbn [span] in Hspan.
  assert (Hbound : sz + HEADER_SIZE + s2 < SIZE_MOD) by (unfold HEADER_SIZE in *; lia).
  pose proof Hw as (Ha & (H1 & H2 & H3 & H4) & (Ha2 & (G1 & G2 & G3 & G4) & _)).
  cbn [cursor] in H3.
  assert (Ea : fromData ptr = a) by (unfold fromData, ptr; lia).
  assert (Hcombined : wrap (wrap (blk_size (memory st) a + HEADER_SIZE) +
                            blk_size (memory st) (blk_next (memory st) a)) =
                      sz + HEADER_SIZE + s2).
  { rewrite H1, H3, G1.
    rewrite (wrap_small (sz + HEADER_SIZE)) by (unfold HEADER_SIZE in *; lia).
    apply wrap_small. unfold HEADER_SIZE in *. lia. }
  assert (Hnext : negb (blk_next (memory st) a =? 0) &&
                  blk_is_free (memory st) (blk_next (memory st) a) = true).
  { rewrite H3, G2.
    replace (a + HEADER_SIZE + sz =? 0) with false
      by (symmetry; apply Z.eqb_neq; unfold HEADER_SIZE; lia).
    reflexivity. }
  unfold my_realloc. rewrite Ea.
  replace (ptr =? 0) with false by (symmetry; apply Z.eqb_neq; exact NE).
  replace (new_size =? 0) with false by (symmetry; apply Z.eqb_neq; exact NE0).
  rewrite Hvalid. cbn [negb]. rewrite Hnext, Hcombined.
  replace (alignSize new_size <=? blk_size (memory st) a) with false
    by (symmetry; apply Z.leb_gt; rewrite H1; lia).
  replace (alignSize new_size <=? sz + HEADER_SIZE + s2) with true
    by (symmetry; apply Z.leb_le; lia).
  eexists. split; [reflexivity|].
  unfold stats. cbn [self with_stats with_memory stats_ stats_after_expand
                     used_memory free_memory block_count free_block_count].
  fold (stats st).
  assert (Hlen : Z.of_nat (length bs') = Z.of_nat (length (pre ++ (sz, false) :: (s2, true) :: post)) - 1).
  { unfold bs'. rewrite !length_app. cbn [length]. lia. }
  assert (Hcf : count_free bs' = count_free (pre ++ (sz, false) :: (s2, true) :: post) - 1).
  { unfold bs'. rewrite !count_free_app, !count_free_cons. cbv iota. lia. }
  assert (Hus : used_sum bs' =
                used_sum (pre ++ (sz, false) :: (s2, true) :: post) + HEADER_SIZE + s2).
  { unfold bs'. rewrite !used_sum_app. unfold used_sum.
    cbn [sum_sizes is_free_block snd fst negb]. lia. }
  pose proof (count_free_range bs') as Hcfr.
  split; [|split; [reflexivity|split; [reflexivity|split; [|split]]]].
  - eapply (heap_chain_intro st _ (stats_after_expand (stats st))); try assumption.
    + reflexivity.
    + unfold bs'. apply app_cons_not_nil'. discriminate.
    + cbn [memory with_memory with_stats]. fold h e.
      apply (chain_update (memory st) _ 0 h pre ((sz, false) :: (s2, true) :: post));
        [discriminate | discriminate | exact Hc |].
      intros _. fold a.
      apply (absorb_next_chain (memory st) _ a sz false s2 post e _ Hw He).
      rewrite wrap_sub_l || idtac.
      match goal with |- wrap ?v = _ => rewrite <- Hcombined end.
      unfold wrap. rewrite Z.mod_mod by (unfold SIZE_MOD; lia). reflexivity.
  - pose proof (heap_chain_length _ _ Hhc) as Hl.
    rewrite A4, <- Hlen. apply wrap_small. lia.
  - pose proof (heap_chain_length _ _ Hhc) as Hl.
    pose proof (count_free_range (pre ++ (sz, false) :: (s2, true) :: post)) as Hr.
    rewrite A5, <- Hcf. apply wrap_small. lia.
  - rewrite A2, Hus. lia.
Qed.

Lemma my_realloc_grow_takes_whole_neighbour_witness :
  exists st',
    my_realloc 0 engine_one_block 4128 200 = Some (4128, st', []) /\
    heap_chain st' [(4064, false)] /\
    used_memory (stats st') = used_memory (stats engine_one_block).
Proof.
  destruct (my_realloc_grow_takes_whole_neighbour engine_one_block [] 104 3928 [] 200 0%nat
              engine_one_block_Inv) as (st' & H1 & H2 & H3 & _).
  - lia.
  - vm_compute. split; [reflexivity | discriminate].
  - exists st'. split; [exact H1|]. split; [exact H2 | exact H3].
Defined.

(* ================================================================== *)
(** ** Unchecked pointers, failed reallocation, writes inside the region *)
(* ================================================================== *)

Lemma coalesceBlock_frees st block :
  total_frees (stats (fst (coalesceBlock st block))) = total_frees (stats st) /\
  used_memory (stats (fst (coalesceBlock st block))) = used_memory (stats st) /\
  free_memory (stats (fst (coalesceBlock st block))) = free_memory (stats st).
Proof.
  unfold coalesceBlock.
  destruct (negb (blk_next (memory st) block =? 0) && _);
    match goal with |- context [if ?c then _ else _] => destruct c end;
    repeat split; reflexivity.
Qed.

Lemma coalesceBlock_null_links st block :
  blk_next (memory st) block = 0 ->
  blk_prev (memory st) block = 0 ->
  coalesceBlock st block = (st, block).
Proof.
  intros Hn Hp. unfold coalesceBlock. rewrite Hn. cbn [Z.eqb negb andb].
  rewrite Hp. reflexivity.
Qed.

(** X20: the guards of [my_free] are a range check and one byte.  Take
    any non-null pointer inside the range, whether or not a block starts
    there, whose 32 bytes before it read as the header of a block in use
    with no neighbours: the byte 24 places before it is zero and the two
    pointers 16 and 8 places before it are null.  The call then prints
    nothing, reads and writes only those 32 bytes, which lie inside the
    region, writes only the flag byte, counts a release, and moves the
    [size_t] it reads 32 places before the pointer from [used_memory] to
    [free_memory]. *)
Theorem my_free_trusts_in_range_pointers :
  forall st ptr,
    ptr <> 0 ->
    isValidPointer (self st) ptr = true ->
    load8 (memory st) (ptr - 24) = 0 ->
    load64 (memory st) (ptr - 16) = 0 ->
    load64 (memory st) (ptr - 8) = 0 ->
    let st' := fst (my_free st ptr) in
    let claimed := load64 (memory st) (ptr - 32) in
    snd (my_free st ptr) = [] /\
    heap_start_ (self st) <= ptr - HEADER_SIZE /\ ptr < heap_end_ (self st) /\
    memory st' = store8 (memory st) (ptr - 24) 1 /\
    total_frees (stats st') = wrap (total_frees (stats st) + 1) /\
    used_memory (stats st') = wrap (used_memory (stats st) - claimed) /\
    free_memory (stats st') = wrap (free_memory (stats st) + claimed).
Proof.
  intros st ptr NE Hvalid Hflag Hnext Hprev st' claimed.
  assert (Hfree : blk_is_free (memory st) (fromData ptr) = false).
  { unfold blk_is_free, fromData, OFF_IS_FREE, HEADER_SIZE.
    replace (ptr - 32 + 8) with (ptr - 24) by lia. rewrite Hflag. reflexivity. }
  assert (Hsize : blk_size (memory st) (fromData ptr) = claimed).
  { unfold blk_size, fromData, OFF_SIZE, HEADER_SIZE, claimed.
    rewrite Z.add_0_r. reflexivity. }
  assert (Hrange : heap_start_ (self st) <= ptr - HEADER_SIZE /\ ptr < heap_end_ (self st)).
  { unfold isValidPointer in Hvalid. apply andb_true_iff in Hvalid.
    destruct Hvalid as [H1 H2]. apply Z.leb_le in H1. apply Z.ltb_lt in H2. lia. }
  set (st2 := with_memory (updateStatsAfterFree st claimed)
                (set_is_free (memory (updateStatsAfterFree st claimed)) (fromData ptr) true)).
  assert (Hmem : memory st2 = store8 (memory st) (ptr - 24) 1).
  { unfold st2, set_is_free, fromData, OFF_IS_FREE, HEADER_SIZE.
    cbn [memory with_memory updateStatsAfterFree with_stats].
    replace (ptr - 32 + 8) with (ptr - 24) by lia. reflexivity. }
  assert (Hco : coalesceBlock st2 (fromData ptr) = (st2, fromData ptr)).
  { apply coalesceBlock_null_links.
    - rewrite Hmem. unfold blk_next, fromData, OFF_NEXT, HEADER_SIZE.
      replace (ptr - 32 + 16) with (ptr - 16) by lia.
      rewrite load64_store8_other by lia. exact Hnext.
    - rewrite Hmem. unfold blk_prev, fromData, OFF_PREV, HEADER_SIZE.
      replace (ptr - 32 + 24) with (ptr - 8) by lia.
      rewrite load64_store8_other by lia. exact Hprev. }
  assert (Hrun : my_free st ptr = (st2, [])).
  { unfold my_free.
    replace (ptr =? 0) with false by (symmetry; apply Z.eqb_neq; exact NE).
    rewrite Hvalid, Hfree, Hsize. cbn [negb]. fold st2. rewrite Hco. reflexivity. }
  unfold st'. rewrite Hrun. cbn [fst snd].
  split; [reflexivity|]. split; [apply Hrange|]. split; [apply Hrange|].
  split; [exact Hmem|]. repeat split; reflexivity.
Qed.

(** A pointer 32 bytes into the zeroed payload of the block in use at
    4128: no block starts at 4128, yet the call is taken for a release. *)
Lemma my_free_trusts_in_range_pointers_witness :
  let st := with_memory engine_one_block (memset (memory engine_one_block) 4128 0 104) in
  snd (my_free st 4160) = [] /\
  memory (fst (my_free st 4160)) = store8 (memory st) (4160 - 24) 1 /\
  total_frees (stats (fst (my_free st 4160))) = wrap (total_frees (stats st) + 1).
Proof.
  intro st.
  destruct (my_free_trusts_in_range_pointers st 4160) as (H1 & _ & _ & H2 & H3 & _).
  - lia.
  - vm_compute. reflexivity.
  - vm_compute. reflexivity.
  - vm_compute. reflexivity.
  - vm_compute. reflexivity.
  - split; [exact H1|]. split; [exact H2 | exact H3].
Defined.

(** X21: a [my_realloc] that cannot be served fails cleanly: given a
    block in use and a non-zero size, a null answer means that nothing at
    all was changed -- the old block is still in use with its contents --
    and that the one line printed is the out-of-memory line for the
    rounded size. *)
Theorem my_realloc_failure_keeps_block :
  forall st bs ptr new_size fuel st' d,
    Inv st bs ->
    (length bs + 1 < fuel)%nat ->
    In ptr (live_ptrs (heap_start_ (self st)) bs) ->
    new_size <> 0 ->
    my_realloc fuel st ptr new_size = Some (0, st', d) ->
    st' = st /\ d = [MallocOutOfMemory (alignSize new_size)].
Proof.
  intros st bs ptr new_size fuel st' d HI Hfuel Hptr NE0 Hrun.
  destruct (live_ptrs_in _ _ _ Hptr) as (pre & sz & post & Hbs & Eptr).
  assert (Hpos : MIN_BLOCK_SIZE <= sz).
  { subst bs. destruct HI as (_ & _ & Hlive & _). unfold live_min in Hlive.
    apply Forall_app in Hlive. destruct Hlive as [_ H].
    apply Forall_cons_iff in H. destruct H as [H _]. apply H. reflexivity. }
  pose proof HI as (Hhc & _).
  assert (Hv : ptr <> 0 /\ isValidPointer (self st) ptr = true).
  { rewrite Eptr. subst bs. apply (block_ptr_valid st pre sz false post Hhc).
    unfold MIN_BLOCK_SIZE in Hpos. lia. }
  destruct Hv as (NE & Hvalid).
  assert (Hold : blk_size (memory st) (fromData ptr) = sz).
  { subst bs. destruct Hhc as (_ & _ & _ & _ & Hc). apply chain_block_header in Hc.
    replace (fromData ptr) with (heap_start_ (self st) + span pre)
      by (unfold fromData; lia).
    tauto. }
  destruct (Z.leb_spec (alignSize new_size) sz) as [Hfit | Hbig].
  { unfold my_realloc in Hrun.
    replace (ptr =? 0) with false in Hrun by (symmetry; apply Z.eqb_neq; exact NE).
    replace (new_size =? 0) with false in Hrun by (symmetry; apply Z.eqb_neq; exact NE0).
    rewrite Hvalid, Hold in Hrun. cbn [negb] in Hrun.
    replace (alignSize new_size <=? sz) with true in Hrun
      by (symmetry; apply Z.leb_le; exact Hfit).
    inversion Hrun. congruence. }
  destruct (grows_in_place st ptr new_size) eqn:Hgrow.
  { destruct (my_realloc_grows st ptr new_size Hgrow) as (st0 & Hrun0 & _).
    rewrite Hrun0 in Hrun. inversion Hrun. congruence. }
  rewrite (my_realloc_relocates fuel st ptr new_size NE NE0 Hvalid) in Hrun
    by (rewrite ?Hold; assumption).
  assert (Hreq : request_size (alignSize new_size) = alignSize new_size).
  { rewrite request_size_max, alignSize_idem. lia. }
  assert (Hnz : alignSize new_size <> 0) by (unfold MIN_BLOCK_SIZE in *; lia).
  destruct (first_fit_cases (request_size (alignSize new_size)) bs)
    as [Hnone | (pre1 & sz1 & post1 & Hbs1 & Hpre1 & Hle1)].
  - rewrite (my_malloc_none st bs (alignSize new_size) fuel Hhc Hnz) in Hrun
      by (exact Hnone || lia).
    cbn [Z.eqb] in Hrun. inversion Hrun. rewrite Hreq. split; reflexivity.
  - rewrite Hbs1 in Hhc.
    destruct (my_malloc_found st pre1 sz1 post1 (alignSize new_size) fuel Hhc Hnz
                ltac:(rewrite <- Hbs1; exact Hfuel) Hpre1 Hle1)
      as (st1 & Hrun1 & _).
    rewrite Hrun1 in Hrun.
    destruct Hhc as (Hs & _ & _ & _ & Hc).
    pose proof (chain_sizes _ _ _ _ _ Hc) as Hsz.
    apply Forall_app in Hsz. destruct Hsz as [Hsz _].
    pose proof (span_nonneg _ Hsz).
    replace (heap_start_ (self st) + span pre1 + HEADER_SIZE =? 0) with false in Hrun
      by (symmetry; apply Z.eqb_neq; unfold HEADER_SIZE; lia).
    cbv zeta in Hrun. inversion Hrun. unfold HEADER_SIZE in *. lia.
Qed.

Lemma my_realloc_failure_keeps_block_witness :
  exists st' d,
    my_realloc 4 engine_one_block 4128 5000 = Some (0, st', d) /\
    st' = engine_one_block /\ d = [MallocOutOfMemory (alignSize 5000)].
Proof.
  assert (Hin : In 4128 (live_ptrs (heap_start_ (self engine_one_block))
                           [(104, false); (3928, true)])) by (left; reflexivity).
  assert (Hfuel : (length [(104, false); (3928, true)] + 1 < 4)%nat)
    by (cbn [length]; lia).
  destruct (my_realloc_Inv engine_one_block _ 4128 5000 4%nat engine_one_block_Inv Hfuel)
    as (p & st' & d & bs' & Hrun & _).
  - right. right. exact Hin.
  - vm_compute. reflexivity.
  - assert (Hp : result_ptr (my_realloc 4 engine_one_block 4128 5000) = Some 0)
      by (vm_compute; reflexivity).
    rewrite Hrun in Hp. cbn [result_ptr option_map fst] in Hp.
    assert (E : p = 0) by congruence. subst p.
    exists st', d. split; [exact Hrun|].
    apply (my_realloc_failure_keeps_block engine_one_block _ 4128 5000 4%nat st' d
             engine_one_block_Inv Hfuel Hin).
    + lia.
    + exact Hrun.
Defined.

Lemma in_region_headers st bs x :
  Inv st bs ->
  in_headers (heap_start_ (self st)) bs x ->
  heap_start_ (self st) <= x < heap_end_ (self st).
Proof.
  intros HI Hx. apply in_headers_range in Hx; [|apply (Inv_sizes _ _ HI)].
  pose proof (Inv_span _ _ HI). destruct HI as (_ & Hend & _). lia.
Qed.

Lemma my_free_region_frame st bs ptr :
  Inv st bs ->
  ptr = 0 \/ isValidPointer (self st) ptr = false \/
  In ptr (payloads (heap_start_ (self st)) bs) ->
  same_outside (memory st) (memory (fst (my_free st ptr)))
               (heap_start_ (self st)) (heap_end_ (self st)).
Proof.
  intros HI Hptr x Hx. apply (my_free_header_frame st bs ptr HI Hptr).
  intro Hh. apply (in_region_headers _ _ _ HI) in Hh. lia.
Qed.

(** A successful [my_malloc]: the invariant, the region fields, the
    block handed out and the bytes written. *)
Lemma my_malloc_region_frame st bs size fuel p st' d :
  Inv st bs ->
  (length bs + 1 < fuel)%nat ->
  my_malloc fuel st size = Some (p, st', d) ->
  same_outside (memory st) (memory st') (heap_start_ (self st)) (heap_end_ (self st)) /\
  heap_start_ (self st') = heap_start_ (self st) /\
  heap_end_ (self st') = heap_end_ (self st) /\
  exists bs',
    Inv st' bs' /\
    Permutation ((if p =? 0 then [] else [p]) ++ live_ptrs (heap_start_ (self st)) bs)
                (live_ptrs (heap_start_ (self st)) bs') /\
    (p <> 0 ->
     exists pre got rest,
       bs' = pre ++ (got, false) :: rest /\
       p = heap_start_ (self st) + span pre + HEADER_SIZE /\
       request_size size <= got).
Proof.
  intros HI Hfuel Hrun.
  pose proof (my_malloc_region _ _ _ _ _ _ Hrun) as Hreg.
  apply region_of_eq in Hreg. destruct Hreg as (R1 & R2 & _).
  destruct (my_malloc_Inv st bs size fuel HI Hfuel)
    as [(d0 & Hrun0) | (st1 & pre & sz & post & Hfound)].
  - rewrite Hrun0 in Hrun. inversion Hrun; subst.
    split; [apply same_outside_refl|]. split; [reflexivity|]. split; [reflexivity|].
    exists bs. split; [exact HI|]. split; [apply Permutation_refl|].
    intro H. contradiction H. reflexivity.
  - cbv zeta in Hfound.
    destruct Hfound as (-> & _ & Hle & _ & Hrun1 & _ & Hout & HI').
    rewrite Hrun1 in Hrun. inversion Hrun; subst p st1 d. clear Hrun.
    pose proof (Inv_sizes _ _ HI) as Hsz.
    apply Forall_app in Hsz. destruct Hsz as [Hszpre _].
    pose proof (span_nonneg _ Hszpre) as Hp0.
    pose proof HI as ((Hs & _) & _).
    split; [eapply same_outside_weaken; [exact Hout | lia | lia]|].
    split; [exact R1|]. split; [exact R2|].
    eexists. split; [exact HI'|].
    replace (heap_start_ (self st) + span pre + HEADER_SIZE =? 0) with false
      by (symmetry; apply Z.eqb_neq; unfold HEADER_SIZE; lia).
    split; [apply live_ptrs_alloc|].
    intros _. destruct (alloc_blocks_head (request_size size) sz) as (tail & Hab).
    rewrite Hab. eexists pre, _, (tail ++ post). split; [reflexivity|].
    split; [reflexivity|]. destruct (negb _); lia.
Qed.

Lemma block_inside_region st pre got f rest :
  Inv st (pre ++ (got, f) :: rest) ->
  heap_start_ (self st) <= heap_start_ (self st) + span pre + HEADER_SIZE /\
  heap_start_ (self st) + span pre + HEADER_SIZE + got <= heap_end_ (self st).
Proof.
  intro HI. pose proof (Inv_sizes _ _ HI) as Hsz. pose proof (Inv_span _ _ HI) as Hsp.
  rewrite span_app in Hsp. cbn [span] in Hsp.
  apply Forall_app in Hsz. destruct Hsz as [Hszpre Hsz].
  apply Forall_cons_iff in Hsz. destruct Hsz as [_ Hszr].
  pose proof (span_nonneg _ Hszpre). pose proof (span_nonneg _ Hszr).
  destruct HI as (_ & Hend & _). unfold HEADER_SIZE in *. lia.
Qed.

(** X22: the engine never writes outside its region: on a well-formed
    heap, every public operation a caller may make -- [my_malloc],
    [my_free] of a null, out-of-range or block-payload pointer,
    [my_calloc] of a total that leaves room for the rounding, [reset],
    and [my_realloc] of a null, out-of-range or in-use pointer, whether
    the block stays, grows or moves -- leaves every byte below
    [heap_start_] and from [heap_end_] on as it was. *)
Theorem operations_write_inside_region :
  forall st bs op fuel p st' d,
    Inv st bs ->
    (length bs + 1 < fuel)%nat ->
    match op with
    | OpFree ptr =>
        ptr = 0 \/ isValidPointer (self st) ptr = false \/
        In ptr (payloads (heap_start_ (self st)) bs)
    | OpRealloc ptr _ =>
        ptr = 0 \/ isValidPointer (self st) ptr = false \/
        In ptr (live_ptrs (heap_start_ (self st)) bs)
    | OpCalloc count size => wrap (count * size) <= SIZE_MAX - 7
    | _ => True
    end ->
    run_op fuel st op = Some (p, st', d) ->
    same_outside (memory st) (memory st') (heap_start_ (self st)) (heap_end_ (self st)).
Proof.
  intros st bs op fuel p st' d HI Hfuel Hok Hrun.
  set (h := heap_start_ (self st)) in *.
  set (e := heap_end_ (self st)) in *.
  destruct op as [size | ptr | ptr new_size | count size | ]; cbn [run_op] in Hrun.
  - (* my_malloc *)
    apply (my_malloc_region_frame st bs size fuel p st' d HI Hfuel Hrun).
  - (* my_free *)
    pose proof (my_free_region_frame st bs ptr HI Hok) as Hf.
    destruct (my_free st ptr) as [st1 d1]. inversion Hrun; subst. exact Hf.
  - (* my_realloc *)
    unfold my_realloc in Hrun.
    destruct (Z.eqb_spec ptr 0) as [E|NE].
    { apply (my_malloc_region_frame st bs new_size fuel p st' d HI Hfuel Hrun). }
    assert (Hpay : ptr = 0 \/ isValidPointer (self st) ptr = false \/
                   In ptr (payloads h bs)).
    { destruct Hok as [H|[H|H]]; auto. right. right. apply live_ptrs_payloads. exact H. }
    destruct (Z.eqb_spec new_size 0) as [E0|NE0].
    { pose proof (my_free_region_frame st bs ptr HI Hpay) as Hf.
      destruct (my_free st ptr) as [st1 d1]. inversion Hrun; subst. exact Hf. }
    destruct (isValidPointer (self st) ptr) eqn:Hvalid; cbn [negb] in Hrun.
    2:{ inversion Hrun; subst. apply same_outside_refl. }
    assert (Hlive : In ptr (live_ptrs h bs)).
    { destruct Hok as [H|[H|H]]; [contradiction | congruence | exact H]. }
    destruct (live_ptrs_in _ _ _ Hlive) as (pre & sz & post & Hbs & Eptr).
    assert (Ea : fromData ptr = h + span pre) by (unfold fromData; lia).
    assert (Hc : chain (memory st) 0 h bs e) by (destruct HI as ((_ & _ & _ & _ & H) & _); exact H).
    assert (Hold : blk_size (memory st) (fromData ptr) = sz).
    { rewrite Ea. rewrite Hbs in Hc. apply chain_block_header in Hc. tauto. }
    rewrite Hold in Hrun.
    destruct (Z.leb_spec (alignSize new_size) sz) as [Hfit | Hbig].
    { inversion Hrun; subst. apply same_outside_refl. }
    (* relocation *)
    assert (Hreloc : forall r,
      match my_malloc fuel st (alignSize new_size) with
      | Some (new_ptr, st0, d0) =>
          if new_ptr =? 0 then Some (0, st0, d0)
          else let '(st1, d') :=
                 my_free (with_memory st0 (memcpy (memory st0) new_ptr ptr sz)) ptr in
               Some (new_ptr, st1, d0 ++ d')
      | None => None
      end = Some r ->
      same_outside (memory st) (memory (snd (fst r))) h e).
    { intros r Hr.
      destruct (my_malloc fuel st (alignSize new_size)) as [[[q st1] d1]|] eqn:Hm;
        [|discriminate].
      destruct (my_malloc_region_frame st bs _ fuel q st1 d1 HI Hfuel Hm)
        as (Hout1 & R1 & R2 & bs1 & HI1 & Hperm & Hblk).
      fold h e in Hout1, R1, R2, Hperm, Hblk.
      destruct (Z.eqb_spec q 0) as [Eq|Hq].
      { inversion Hr; subst r. exact Hout1. }
      destruct (Hblk Hq) as (pre1 & got & rest & Hbs1 & Epq & Hgot).
      assert (Hsz_got : sz <= got).
      { assert (alignSize new_size <= request_size (alignSize new_size)).
        { rewrite request_size_max, alignSize_idem. lia. }
        lia. }
      rewrite Hbs1 in HI1.
      pose proof (block_inside_region st1 pre1 got false rest HI1) as Hin.
      rewrite R1, R2, <- Epq in Hin.
      set (st2 := with_memory st1 (memcpy (memory st1) q ptr sz)) in *.
      assert (Hsz0 : 0 <= sz).
      { pose proof (blk_size_range (memory st) (fromData ptr)). lia. }
      assert (HI2 : Inv st2 (pre1 ++ (got, false) :: rest)).
      { apply Inv_payload_write; [exact HI1|]. rewrite R1, <- Epq.
        apply same_outside_memcpy; lia. }
      assert (Hout2 : same_outside (memory st1) (memory st2) h e).
      { apply same_outside_memcpy; lia. }
      pose proof (my_free_region_frame st2 _ ptr HI2) as Hout3.
      change (heap_start_ (self st2)) with (heap_start_ (self st1)) in Hout3.
      change (heap_end_ (self st2)) with (heap_end_ (self st1)) in Hout3.
      rewrite R1, R2 in Hout3.
      assert (Hf : In ptr (payloads h (pre1 ++ (got, false) :: rest))).
      { apply live_ptrs_payloads. rewrite <- Hbs1.
        eapply Permutation_in; [exact Hperm|].
        replace (q =? 0) with false by (symmetry; apply Z.eqb_neq; exact Hq).
        right. exact Hlive. }
      specialize (Hout3 (or_intror (or_intror Hf))).
      destruct (my_free st2 ptr) as [st3 d3]. inversion Hr; subst r.
      cbn [fst snd] in *.
      eapply same_outside_trans; [|exact Hout3].
      eapply same_outside_trans; [exact Hout1 | exact Hout2]. }
    cbv zeta in Hrun.
    destruct (negb (blk_next (memory st) (fromData ptr) =? 0) &&
              blk_is_free (memory st) (blk_next (memory st) (fromData ptr))) eqn:Hnext;
      [|apply (Hreloc _ Hrun)].
    destruct (alignSize new_size <=?
              wrap (wrap (sz + HEADER_SIZE) +
                    blk_size (memory st) (blk_next (memory st) (fromData ptr)))) eqn:Hcomb;
      [|apply (Hreloc _ Hrun)].
    (* growth in place *)
    inversion Hrun; subst p st' d. clear Hrun Hreloc.
    cbn [memory with_memory with_stats].
    rewrite Ea in *. rewrite Hbs in Hc.
    assert (Hw : chain (memory st) (last_addr 0 h pre) (h + span pre) ((sz, false) :: post) e).
    { apply chain_app in Hc; [tauto | discriminate]. }
    destruct post as [|[s2 f2] post'].
    { destruct Hw as (_ & (_ & _ & H3 & _) & _). cbn [cursor] in H3.
      rewrite H3 in Hnext. discriminate Hnext. }
    pose proof (Inv_sizes _ _ HI) as Hsz. rewrite Hbs in Hsz.
    apply Forall_app in Hsz. destruct Hsz as [Hszpre Hsz].
    pose proof (span_nonneg _ Hszpre) as Hp0.
    pose proof HI as ((Hs & He & _) & _). fold h e in Hs, He.
    assert (Hf2 : f2 = true).
    { destruct Hw as (_ & (_ & _ & H3 & _) & (_ & (_ & G2 & _) & _)).
      cbn [cursor] in H3. rewrite H3 in Hnext.
      apply andb_true_iff in Hnext. destruct Hnext as [_ Hn]. congruence. }
    subst f2.
    assert (Hv : wrap (wrap (wrap (sz + HEADER_SIZE) +
                       blk_size (memory st) (blk_next (memory st) (h + span pre)))) =
                 sz + HEADER_SIZE + s2).
    { apply Forall_cons_iff in Hsz. destruct Hsz as [Hz Hszr]. cbn [fst] in Hz.
      apply Forall_cons_iff in Hszr. destruct Hszr as [Hz2 Hszr]. cbn [fst] in Hz2.
      pose proof (span_nonneg _ Hszr).
      pose proof (chain_end _ _ _ _ _ Hw) as Hend. cbn [span] in Hend.
      destruct Hw as (_ & (_ & _ & H3 & _) & (_ & (G1 & _) & _)).
      cbn [cursor] in H3. rewrite H3, G1.
      rewrite (wrap_small (sz + HEADER_SIZE)) by (unfold HEADER_SIZE in *; lia).
      rewrite (wrap_small (sz + HEADER_SIZE + s2)) by (unfold HEADER_SIZE in *; lia).
      apply wrap_small. unfold HEADER_SIZE in *. lia. }
    destruct (absorb_next_chain (memory st) _ (h + span pre) sz false s2 post' e _ Hw He Hv)
      as (_ & Hout).
    eapply same_outside_weaken; [exact Hout | lia | lia].
  - (* my_calloc *)
    unfold my_calloc in Hrun.
    destruct (negb (count =? 0) && negb (wrap (count * size) / count =? size)).
    { inversion Hrun; subst. apply same_outside_refl. }
    set (total := wrap (count * size)) in *.
    destruct (my_malloc fuel st total) as [[[q st1] d1]|] eqn:Hm; [|discriminate].
    destruct (my_malloc_region_frame st bs _ fuel q st1 d1 HI Hfuel Hm)
      as (Hout1 & R1 & R2 & bs1 & HI1 & _ & Hblk).
    fold h e in Hout1, R1, R2, Hblk.
    destruct (Z.eqb_spec q 0) as [Eq|Hq].
    { inversion Hrun; subst. exact Hout1. }
    inversion Hrun; subst p st' d. clear Hrun. cbn [memory with_memory].
    destruct (Hblk Hq) as (pre1 & got & rest & Hbs1 & Epq & Hgot).
    rewrite Hbs1 in HI1.
    pose proof (block_inside_region st1 pre1 got false rest HI1) as Hin.
    rewrite R1, R2, <- Epq in Hin.
    assert (Hn : 0 <= total <= request_size total).
    { pose proof (wrap_range (count * size)) as Hr. fold total in Hr.
      pose proof (alignSize_ge total ltac:(lia)).
      rewrite request_size_max. lia. }
    eapply same_outside_trans; [exact Hout1|].
    apply same_outside_memset; lia.
  - (* reset *)
    inversion Hrun; subst p st' d. unfold reset, initializeHeap. cbn [memory].
    destruct (Inv_region _ _ HI) as (Hs & Hend & _ & Hsz). fold h e in Hs, Hend.
    fold h. fields. frame_writes.
Qed.

Lemma operations_write_inside_region_witness :
  same_outside (memory engine_4096) (memory engine_one_block)
               (heap_start_ (self engine_4096)) (heap_end_ (self engine_4096)).
Proof.
  apply (operations_write_inside_region engine_4096 _ (OpMalloc 100) 3%nat 4128
           engine_one_block [] engine_4096_Inv).
  - cbn [length]. lia.
  - exact I.
  - exact engine_one_block_run.
Defined.

(* ================================================================== *)
(** ** Balance of the block, split and merge counters *)
(* ================================================================== *)





